(** * Pupil recording tools: timestamp indices, frame correlation and the
      recording-format migration of [from_pupil/player_methods.py]

    A shallow embedding of the Python module and the properties of its
    natural-language specification.

    Conventions of the embedding:
    - timestamps, binary64 numbers in the recordings, are taken as exact
      numbers: [Z], and [Q] where the source halves a sum or steps through
      a range.  A rounded half sum or difference can differ from the exact
      one in its last digit, so the statements use the order of the
      timestamps and of these values only, which rounding keeps, and none
      rests on the value of a half sum or on which of two distances is the
      smaller;
    - a Python exception is a value of [exn]; a call that may raise returns
      [result];
    - numpy's [argsort] is a parameter with its contract (the order among
      equal keys is not fixed by numpy's default sort); numpy's
      [searchsorted] is the binary search it documents, written out, so that
      it also has a meaning on an array that is not sorted;
    - the recording directory is the metadata file(s) plus the remaining
      files; what the migration steps do to the remaining files (through
      [file_methods], [numpy], directory listings) is a parameter;
    - a name the module uses and binds nowhere ([read_rec_version],
      [VersionFormat], [av]: their imports are commented out) raises
      [NameError] where it is evaluated. *)

From stdpp Require Import gmap strings list sorting.
From Stdlib Require Import ZArith QArith Ascii.

Local Open Scope Z_scope.

(** ** Exceptions and results *)

Inductive exn : Type :=
  | ValueError
  | IndexError
  | KeyError
  | AttributeError
  | FileNotFoundError
  | AssertionError
  | AVError (errno : Z)
  | OtherError (name : string).

Inductive result (A : Type) : Type :=
  | Ok (a : A)
  | Raise (e : exn).
Arguments Ok {A} a.
Arguments Raise {A} e.

#[export] Instance result_ret : MRet result := λ A a, Ok a.
#[export] Instance result_bind : MBind result := λ A B f m,
  match m with
  | Ok a => f a
  | Raise e => Raise e
  end.

(** ** Python and numpy primitives *)

(** [l[start:stop]] for non-negative bounds: bounds past the end are clamped,
    and the slice is empty when [stop <= start]. *)
Definition slice {A} (l : list A) (start stop : nat) : list A :=
  take (stop - start) (drop start l).

(** [list.insert(i, x)] for a non-negative [i]: past the end it appends. *)
Definition list_insert_at {A} (i : nat) (x : A) (l : list A) : list A :=
  take i l ++ x :: drop i l.

(** [arr[idc]] and [lst[i]]: indexing raises [IndexError] out of range. *)
Definition getitem {A} (l : list A) (i : nat) : result A :=
  match l !! i with
  | Some x => Ok x
  | None => Raise IndexError
  end.

Fixpoint take_idc {A} (arr : list A) (idc : list nat) : result (list A) :=
  match idc with
  | [] => Ok []
  | i :: idc' =>
      x ← getitem arr i;
      xs ← take_idc arr idc';
      Ok (x :: xs)
  end.

(** The stable sort of Python's [list.sort(key=...)]: insertion of each
    element, from the right, in front of the first element whose key is not
    smaller.  A stable sort is determined by its input, so this is the list
    Python produces. *)
Section sort_by.
Context {A : Type} (key : A → Z).

Fixpoint insert_by (x : A) (l : list A) : list A :=
  match l with
  | [] => [x]
  | y :: l' => if bool_decide (key x ≤ key y) then x :: y :: l'
               else y :: insert_by x l'
  end.

Definition sort_by (l : list A) : list A := foldr insert_by [] l.
End sort_by.

(** [np.searchsorted(arr, key)] with the default [side='left']: numpy's
    binary search.  [fuel] bounds the number of halvings; the width
    [max_idx - min_idx] shrinks at each one, so [length arr] is enough. *)
Fixpoint binsearch_left (fuel : nat) (arr : list Z) (key : Z)
    (min_idx max_idx : nat) : nat :=
  match fuel with
  | O => min_idx
  | S fuel' =>
      if bool_decide (min_idx < max_idx)%nat then
        let mid_idx := (min_idx + (max_idx - min_idx) / 2)%nat in
        match arr !! mid_idx with
        | Some mid_val =>
            if bool_decide (mid_val < key)
            then binsearch_left fuel' arr key (mid_idx + 1)%nat max_idx
            else binsearch_left fuel' arr key min_idx mid_idx
        | None => min_idx
        end
      else min_idx
  end.

Definition searchsorted (arr : list Z) (key : Z) : nat :=
  binsearch_left (length arr) arr key 0 (length arr).

(** "[r] is the first index of [arr] whose element is [≥ key]" (the length
    of [arr] when there is none). *)
Definition first_index_ge (arr : list Z) (key : Z) (r : nat) : Prop :=
  (r ≤ length arr)%nat ∧
  (∀ i x, arr !! i = Some x → (i < r)%nat → x < key) ∧
  (∀ x, arr !! r = Some x → key ≤ x).

(** ** [Bisector], [Mutable_Bisector], [Affiliator] *)

Section Bisector.
Context {A : Type}.

(** [np.argsort]: some permutation of the indices that sorts the keys. *)
Variable argsort : list Z → list nat.

Record Bisector : Type := mkBisector {
  data : list A;
  data_ts : list Z;
  sorted_idc : list nat;
}.

(** [Bisector.__init__] *)
Definition Bisector_init (data0 : list A) (data_ts0 : list Z)
    : result Bisector :=
  if bool_decide (length data0 ≠ length data_ts0) then Raise ValueError
  else match data0 with
  | [] => Ok (mkBisector [] [] [])
  | _ :: _ =>
      let idc := argsort data_ts0 in
      ts ← take_idc data_ts0 idc;
      d ← take_idc data0 idc;
      Ok (mkBisector d ts idc)
  end.

(** [Bisector.by_ts]: the [IndexError] of either subscript becomes
    [ValueError]. *)
Definition by_ts (self : Bisector) (ts : Z) : result A :=
  let found_index := searchsorted (data_ts self) ts in
  match (found_data ← getitem (data self) found_index;
         found_ts ← getitem (data_ts self) found_index;
         Ok (found_data, found_ts)) with
  | Ok (found_data, found_ts) =>
      if bool_decide (found_ts = ts) then Ok found_data
      else Raise ValueError
  | Raise IndexError => Raise ValueError
  | Raise e => Raise e
  end.

(** [Affiliator] extends [Bisector] with the co-indexed [stop_ts]. *)
Record Affiliator : Type := mkAffiliator {
  bisector : Bisector;
  stop_ts : list Z;
}.

(** [Affiliator.__init__] *)
Definition Affiliator_init (data0 : list A) (start_ts stop_ts0 : list Z)
    : result Affiliator :=
  b ← Bisector_init data0 start_ts;
  st ← take_idc stop_ts0 (sorted_idc b);
  Ok (mkAffiliator b st).

(** [by_ts_window] is defined once, in [Bisector], and calls
    [self._start_stop_idc_for_window], which [Affiliator] overrides: the
    method table is a class, with one instance per Python class. *)
Class Windowed (T : Type) : Type := {
  self_data : T → list A;
  _start_stop_idc_for_window : T → Z * Z → nat * nat;
}.

#[export] Instance Bisector_windowed : Windowed Bisector := {|
  self_data := data;
  _start_stop_idc_for_window self ts_window :=
    (searchsorted (data_ts self) ts_window.1,
     searchsorted (data_ts self) ts_window.2);
|}.

#[export] Instance Affiliator_windowed : Windowed Affiliator := {|
  self_data self := data (bisector self);
  _start_stop_idc_for_window self ts_window :=
    let start_idx := searchsorted (stop_ts self) ts_window.1 in
    let stop_idx := searchsorted (data_ts (bisector self)) ts_window.2 in
    (start_idx, stop_idx);
|}.

Definition by_ts_window `{Windowed T} (self : T) (ts_window : Z * Z)
    : list A :=
  let '(start_idx, stop_idx) := _start_stop_idc_for_window self ts_window in
  slice (self_data self) start_idx stop_idx.

(** [Mutable_Bisector.insert] *)
Definition Mutable_Bisector_insert (self : Bisector) (timestamp : Z)
    (datum : A) : Bisector :=
  let insert_idx := searchsorted (data_ts self) timestamp in
  mkBisector (list_insert_at insert_idx datum (data self))
             (list_insert_at insert_idx timestamp (data_ts self))
             (sorted_idc self).

(** The container invariant of the specification. *)
Definition Bisector_inv (self : Bisector) : Prop :=
  length (data_ts self) = length (data self) ∧
  StronglySorted Z.le (data_ts self).

(** The intervals an [Affiliator] holds, as (datum, (start, stop)), and the
    overlap test of the specification: [stop ≥ a] and [start < b]. *)
Definition intervals (self : Affiliator) : list (A * (Z * Z)) :=
  zip (data (bisector self)) (zip (data_ts (bisector self)) (stop_ts self)).

Definition overlaps (a b : Z) (iv : A * (Z * Z)) : Prop :=
  a ≤ iv.2.2 ∧ iv.2.1 < b.

#[export] Instance overlaps_dec a b iv : Decision (overlaps a b iv).
Proof. unfold overlaps. apply _. Defined.
End Bisector.

Arguments Bisector : clear implicits.
Arguments Affiliator : clear implicits.

(** One admissible [argsort]: the stable one ([kind='stable']). *)
Definition stable_argsort (ts : list Z) : list nat :=
  sort_by (λ i, default 0 (ts !! i)) (seq 0 (length ts)).

(** ** [correlate_data] *)

Section correlate_data.
(** A datum is a dict "with at least" a [timestamp]; [P] stands for its
    remaining entries. *)
Context {P : Type}.

Record datum : Type := mkDatum {
  timestamp : Z;
  fields : P;
}.

(** The caller's objects live in a heap: [correlate_data] receives
    references, and [data.sort] writes through the first one. *)
Inductive pyobj : Type :=
  | DataList (l : list datum)
  | TimestampSeq (l : list Z).

(** [ts = (timestamps[frame_idx] + timestamps[frame_idx + 1]) / 2.0], as
    the exact half sum; the source's is rounded to binary64.  The statements
    are phrased through this value, whichever it is, and use only that it
    grows with either timestamp. *)
Definition midpoint (t0 t1 : Z) : Q := ((inject_Z t0 + inject_Z t1) / 2)%Q.

(** The [while True] loop.  Each turn advances [data_index] or
    [frame_idx]; the [try] fails as soon as one of them leaves its list, so
    [length data + length timestamps] turns always suffice. *)
Fixpoint correlate_loop (fuel : nat) (data : list datum)
    (timestamps : list Z) (frame_idx data_index : nat)
    (data_by_frame : list (list datum)) : result (list (list datum)) :=
  match fuel with
  | O => Ok data_by_frame
  | S fuel' =>
      match (d ← getitem data data_index;
             t0 ← getitem timestamps frame_idx;
             t1 ← getitem timestamps (frame_idx + 1);
             Ok (d, midpoint t0 t1)) with
      | Raise IndexError => Ok data_by_frame
      | Raise e => Raise e
      | Ok (d, ts) =>
          if Qle_bool (inject_Z (timestamp d)) ts then
            correlate_loop fuel' data timestamps frame_idx
              (data_index + 1)
              (alter (λ bucket, bucket ++ [d]) frame_idx data_by_frame)
          else
            correlate_loop fuel' data timestamps (frame_idx + 1)
              data_index data_by_frame
      end
  end.

(** [correlate_data(data, timestamps)].  [list(timestamps)] is a fresh
    list bound to the local name, so nothing is written through the second
    reference; [data.sort] replaces the object behind the first. *)
Definition correlate_data (data timestamps : positive)
    (h : gmap positive pyobj)
    : result (list (list datum)) * gmap positive pyobj :=
  match h !! timestamps, h !! data with
  | Some (TimestampSeq ts0), Some (DataList l) =>
      let timestamps' := ts0 in
      let data_by_frame := replicate (length timestamps') [] in
      let sorted := sort_by timestamp l in
      let h' := <[data := DataList sorted]> h in
      (correlate_loop (length sorted + length timestamps') sorted
         timestamps' 0 0 data_by_frame, h')
  | _, _ => (Raise (OtherError "TypeError"), h)
  end.

(** Midpoints of consecutive frames, and the first frame whose midpoint is
    not before [t]: the vocabulary of the specification. *)
Fixpoint midpoints (timestamps : list Z) : list Q :=
  match timestamps with
  | t0 :: (t1 :: _) as rest => midpoint t0 t1 :: midpoints rest
  | _ => []
  end.

Fixpoint first_frame (mids : list Q) (t : Z) : option nat :=
  match mids with
  | [] => None
  | m :: mids' => if Qle_bool (inject_Z t) m then Some 0%nat
                  else S <$> first_frame mids' t
  end.

(** The bucket of frame [i]: the data whose first admissible frame is [i]. *)
Definition in_bucket (mids : list Q) (i : nat) (d : datum) : Prop :=
  first_frame mids (timestamp d) = Some i.

#[export] Instance in_bucket_dec mids i d : Decision (in_bucket mids i d).
Proof. unfold in_bucket. apply _. Defined.
End correlate_data.

(** "[F x] is an index below [n]", for the union of the first [n] buckets. *)
Definition index_below {X} (F : X → option nat) (n : nat) (x : X) : Prop :=
  match F x with Some i => (i < n)%nat | None => False end.

#[export] Instance index_below_dec {X} (F : X → option nat) n x :
  Decision (index_below F n x).
Proof. unfold index_below. destruct (F x); apply _. Defined.

Arguments datum : clear implicits.
Arguments pyobj : clear implicits.

(** ** Recording versions *)

(** Modelled from the spec: [VersionFormat] of [version_utils], which is not
    among the sources.  A version is the ordered triple (major, minor,
    patch) of the specification, a missing component being 0:
    [VersionFormat("0.5")] is [VersionFormat 0 5 0].  The order is
    lexicographic.  In [player_methods.py] the import of [version_utils]
    (line 26) is commented out: see [read_rec_version_unbound] below for what
    that makes of line 218. *)
Record SemanticVersion : Type := VersionFormat {
  major : nat;
  minor : nat;
  patch : nat;
}.

Definition version_lt (a b : SemanticVersion) : Prop :=
  (major a < major b)%nat ∨
  (major a = major b ∧
   ((minor a < minor b)%nat ∨ (minor a = minor b ∧ (patch a < patch b)%nat))).

Definition version_le (a b : SemanticVersion) : Prop := ¬ version_lt b a.

#[export] Instance version_lt_dec a b : Decision (version_lt a b).
Proof. unfold version_lt. apply _. Defined.
#[export] Instance version_le_dec a b : Decision (version_le a b).
Proof. unfold version_le. apply _. Defined.

(** ** The migration run *)

(** The functions [update_recording_to_recent] calls, by name. *)
Inductive step : Type :=
  | pupil_mobile_to_v094
  | bytes_to_unicode
  | v073_to_v074
  | v05_to_v074
  | v04_to_v074
  | v03_to_v074
  | v074_to_v082
  | v082_to_v083
  | v083_to_v086
  | v086_to_v087
  | v087_to_v091
  | v091_to_v093
  | v093_to_v094
  | v094_to_v0913
  | v0913_to_v0915
  | v0915_v13
  | v13_v14
  | worldless_check
  | v14_v18
  | v18_v19.

#[export] Instance step_eq_dec : EqDecision step.
Proof. solve_decision. Defined.

#[export] Instance exn_eq_dec : EqDecision exn.
Proof. solve_decision. Defined.

(** Python's [NameError]: what evaluating a name raises that nothing
    binds. *)
Definition NameError : exn := OtherError "NameError".

Section migration.
(** [C]: the content of a file of the recording other than the metadata. *)
Context {C : Type}.

(** The recording directory: the two metadata files [load_meta_info]
    looks for, as key/value dicts, and the other files by name. *)
Record recording : Type := mkRecording {
  info_csv : option (gmap string string);
  user_info_csv : option (gmap string string);
  files : gmap string C;
}.

(** The state a run threads: the directory, and a ghost log of the calls
    [update_recording_to_recent] has made, each with how it ended
    ([None]: returned, [Some e]: raised [e]). *)
Record world : Type := mkWorld {
  rec_dir : recording;
  calls : list (step * option exn);
}.

(** Python statements: a state and exception monad. *)
Definition M (X : Type) : Type := world → result X * world.

#[export] Instance M_mret : MRet M := λ X x w, (Ok x, w).
#[export] Instance M_bind : MBind M := λ X Y f m w,
  match m w with
  | (Ok x, w1) => f x w1
  | (Raise e, w1) => (Raise e, w1)
  end.
Definition raise {X} (e : exn) : M X := λ w, (Raise e, w).
Definition lift {X} (r : result X) : M X := λ w, (r, w).

(** [if b: m] *)
Definition when (b : bool) (m : M ()) : M () := if b then m else mret ().

(** [try: m  except ... as e: h e]; [h] re-raises what it does not catch. *)
Definition try_except {X} (m : M X) (h : exn → M X) : M X := λ w,
  match m w with
  | (Ok x, w1) => (Ok x, w1)
  | (Raise e, w1) => h e w1
  end.

(** A call made by [update_recording_to_recent], entered in the log. *)
Definition call (s : step) (m : M ()) : M () := λ w,
  let '(r, w1) := m w in
  let outcome := match r with Ok _ => None | Raise e => Some e end in
  (r, mkWorld (rec_dir w1) (calls w1 ++ [(s, outcome)])).

Definition get_rec : M recording := λ w, (Ok (rec_dir w), w).
Definition put_rec (r : recording) : M () := λ w,
  (Ok (), mkWorld r (calls w)).

(** *** Parameters: what is outside the sources *)

(** What evaluating [read_rec_version(meta_info)] at line 218 comes to.
    The source binds the name nowhere (the import of line 26 is commented
    out), so for the source this is [read_rec_version_unbound], defined
    after this section, which raises [NameError]; the statements on the
    source are made at that binding.  The lines after 218 are embedded as
    they are written, for whatever binding returns a version. *)
Variable read_rec_version : gmap string string → result SemanticVersion.

(** What a step does to the files other than the metadata, for the steps
    whose body works through [numpy], [av], [glob] or directory listings:
    an outcome and the files it leaves, also when it raises. *)
Variable file_work : step → gmap string C → result () * gmap string C.

(** The in-memory rewriting of the loaded [pupil_data] in the steps that
    load, rewrite and save it. *)
Variable transform : step → C → result C.

Definition do_file_work (s : step) : M () := λ w,
  let '(r, fs) := file_work s (files (rec_dir w)) in
  (r, mkWorld (mkRecording (info_csv (rec_dir w))
                 (user_info_csv (rec_dir w)) fs) (calls w)).

(** Modelled from the spec: [fm.load_object] and [fm.save_object] of
    [file_methods], which is not among the sources: "load/save an opaque
    serialized object by path", an absent file being the missing-resource
    error (Python's [FileNotFoundError]). *)
Definition load_object (path : string) : M C :=
  r ← get_rec;
  match files r !! path with
  | Some c => mret c
  | None => raise FileNotFoundError
  end.

Definition save_object (c : C) (path : string) : M () :=
  r ← get_rec;
  put_rec (mkRecording (info_csv r) (user_info_csv r)
             (<[path := c]> (files r))).

(** [logger.Error(msg)]: [logger] is a [logging.Logger], which has the
    method [error] and no attribute [Error]; the attribute lookup raises
    [AttributeError] before anything is logged.  The other logger calls
    ([info], [warning], [debug], [error]) have no effect on the recording
    and are left out. *)
Definition logger_Error (msg : string) : M () := raise AttributeError.

(** *** Metadata *)

(** [load_meta_info]: [info.csv], else [user_info.csv]; [open] raises
    when neither exists. *)
Definition load_meta_info : M (gmap string string) :=
  r ← get_rec;
  match info_csv r with
  | Some meta_info => mret meta_info
  | None =>
      match user_info_csv r with
      | Some meta_info => mret meta_info
      | None => raise FileNotFoundError
      end
  end.

(** [update_meta_info]: always writes [info.csv]. *)
Definition update_meta_info (meta_info : gmap string string) : M () :=
  r ← get_rec;
  put_rec (mkRecording (Some meta_info) (user_info_csv r) (files r)).

Definition _update_info_version_to (new_version : string) : M () :=
  meta_info ← load_meta_info;
  let meta_info := <["Data Format Version" := new_version]> meta_info in
  update_meta_info meta_info.

(** *** The steps *)

Definition convert_pupil_mobile_recording_to_v094 : M () :=
  do_file_work pupil_mobile_to_v094.

Definition update_recording_v074_to_v082 : M () :=
  _update_info_version_to "v0.8.2".

Definition update_recording_v082_to_v083 : M () :=
  pupil_data ← load_object "pupil_data";
  pupil_data ← lift (transform v082_to_v083 pupil_data);
  save_object pupil_data "pupil_data";;
  _update_info_version_to "v0.8.3".

Definition update_recording_v083_to_v086 : M () :=
  pupil_data ← load_object "pupil_data";
  pupil_data ← lift (transform v083_to_v086 pupil_data);
  save_object pupil_data "pupil_data";;
  _update_info_version_to "v0.8.6".

Definition update_recording_v086_to_v087 : M () :=
  pupil_data ← load_object "pupil_data";
  pupil_data ← lift (transform v086_to_v087 pupil_data);
  save_object pupil_data "pupil_data";;
  _update_info_version_to "v0.8.7".

Definition update_recording_v087_to_v091 : M () :=
  _update_info_version_to "v0.9.1".

Definition update_recording_v091_to_v093 : M () :=
  pupil_data ← load_object "pupil_data";
  pupil_data ← lift (transform v091_to_v093 pupil_data);
  save_object pupil_data "pupil_data";;
  _update_info_version_to "v0.9.3".

Definition update_recording_v093_to_v094 : M () :=
  do_file_work v093_to_v094;;
  _update_info_version_to "v0.9.4".

(** The [try] body of [update_recording_v094_to_v0913], then the function.
    The handler is [except av.AVError as averr], and [av] is bound nowhere
    (its import, line 18, is commented out): when the body raises, whatever
    it raises, evaluating [av.AVError] at line 525 raises [NameError], so
    nothing is caught and the retry with [retry_on_averror=False] never
    happens. *)
Definition update_recording_v094_to_v0913_body : M () :=
  do_file_work v094_to_v0913;;
  _update_info_version_to "v0.9.13".

Definition update_recording_v094_to_v0913 (retry_on_averror : bool)
    : M () :=
  try_except update_recording_v094_to_v0913_body (λ _, raise NameError).

Definition update_recording_v0913_to_v0915 : M () :=
  do_file_work v0913_to_v0915;;
  _update_info_version_to "v0.9.15".

Definition update_recording_v0915_v13 : M () :=
  do_file_work v0915_v13;;
  _update_info_version_to "v1.3".

Definition update_recording_v13_v14 : M () :=
  _update_info_version_to "v1.4".

Definition update_recording_v14_v18 : M () :=
  do_file_work v14_v18;;
  _update_info_version_to "v1.8".

Definition update_recording_v18_v19 : M () :=
  do_file_work v18_v19;;
  _update_info_version_to "v1.9".

Definition check_for_worldless_recording : M () :=
  do_file_work worldless_check.

(** [update_recording_bytes_to_unicode]: the files, then [info.csv] read
    and written back. *)
Definition update_recording_bytes_to_unicode : M () :=
  do_file_work bytes_to_unicode;;
  r ← get_rec;
  match info_csv r with
  | Some meta_info =>
      put_rec (mkRecording (Some meta_info) (user_info_csv r) (files r))
  | None => raise FileNotFoundError
  end.

(** The four conversions to v0.7.4 write no version. *)
Definition update_recording_v073_to_v074 : M () := do_file_work v073_to_v074.
Definition update_recording_v05_to_v074 : M () := do_file_work v05_to_v074.
Definition update_recording_v04_to_v074 : M () := do_file_work v04_to_v074.
Definition update_recording_v03_to_v074 : M () := do_file_work v03_to_v074.

(** The function [update_recording_to_recent] calls under each name. *)
Definition step_function (s : step) : M () :=
  match s with
  | pupil_mobile_to_v094 => convert_pupil_mobile_recording_to_v094
  | bytes_to_unicode => update_recording_bytes_to_unicode
  | v073_to_v074 => update_recording_v073_to_v074
  | v05_to_v074 => update_recording_v05_to_v074
  | v04_to_v074 => update_recording_v04_to_v074
  | v03_to_v074 => update_recording_v03_to_v074
  | v074_to_v082 => update_recording_v074_to_v082
  | v082_to_v083 => update_recording_v082_to_v083
  | v083_to_v086 => update_recording_v083_to_v086
  | v086_to_v087 => update_recording_v086_to_v087
  | v087_to_v091 => update_recording_v087_to_v091
  | v091_to_v093 => update_recording_v091_to_v093
  | v093_to_v094 => update_recording_v093_to_v094
  | v094_to_v0913 => update_recording_v094_to_v0913 true
  | v0913_to_v0915 => update_recording_v0913_to_v0915
  | v0915_v13 => update_recording_v0915_v13
  | v13_v14 => update_recording_v13_v14
  | worldless_check => check_for_worldless_recording
  | v14_v18 => update_recording_v14_v18
  | v18_v19 => update_recording_v18_v19
  end.

(** *** [update_recording_to_recent] *)

(** [meta_info.get("Capture Software", "Pupil Capture") == "Pupil Mobile"
    and "Data Format Version" not in meta_info] *)
Definition is_unversioned_pupil_mobile (meta_info : gmap string string)
    : bool :=
  bool_decide (default "Pupil Capture"%string
                 (meta_info !! "Capture Software") = "Pupil Mobile"%string)
  && bool_decide (meta_info !! "Data Format Version" = None).

(** The [return] of the too-old branch leaves the function: the if/elif
    chain yields whether it returned, and the rest runs only if not. *)
Definition update_recording_to_recent : M () :=
  meta_info ← load_meta_info;
  update_meta_info meta_info;;
  meta_info ←
    (if is_unversioned_pupil_mobile meta_info then
       call pupil_mobile_to_v094 convert_pupil_mobile_recording_to_v094;;
       let meta_info := <["Data Format Version" := "v0.9.4"]> meta_info in
       update_meta_info meta_info;;
       mret meta_info
     else mret meta_info);
  rec_version ← lift (read_rec_version meta_info);
  when (bool_decide (version_le rec_version (VersionFormat 0 8 7)))
    (call bytes_to_unicode update_recording_bytes_to_unicode);;
  returned ←
    (if bool_decide (version_le (VersionFormat 0 7 4) rec_version) then
       mret false
     else if bool_decide (version_le (VersionFormat 0 7 3) rec_version) then
       call v073_to_v074 update_recording_v073_to_v074;; mret false
     else if bool_decide (version_le (VersionFormat 0 5 0) rec_version) then
       call v05_to_v074 update_recording_v05_to_v074;; mret false
     else if bool_decide (version_le (VersionFormat 0 4 0) rec_version) then
       call v04_to_v074 update_recording_v04_to_v074;; mret false
     else if bool_decide (version_le (VersionFormat 0 3 0) rec_version) then
       call v03_to_v074 update_recording_v03_to_v074;; mret false
     else
       logger_Error "This recording is too old. Sorry.";;
       mret true);
  if returned : bool then mret () else
  when (bool_decide (version_lt rec_version (VersionFormat 0 8 2)))
    (call v074_to_v082 update_recording_v074_to_v082);;
  when (bool_decide (version_lt rec_version (VersionFormat 0 8 3)))
    (call v082_to_v083 update_recording_v082_to_v083);;
  when (bool_decide (version_lt rec_version (VersionFormat 0 8 6)))
    (call v083_to_v086 update_recording_v083_to_v086);;
  when (bool_decide (version_lt rec_version (VersionFormat 0 8 7)))
    (call v086_to_v087 update_recording_v086_to_v087);;
  when (bool_decide (version_lt rec_version (VersionFormat 0 9 1)))
    (call v087_to_v091 update_recording_v087_to_v091);;
  when (bool_decide (version_lt rec_version (VersionFormat 0 9 3)))
    (call v091_to_v093 update_recording_v091_to_v093);;
  when (bool_decide (version_lt rec_version (VersionFormat 0 9 4)))
    (call v093_to_v094 update_recording_v093_to_v094);;
  when (bool_decide (version_lt rec_version (VersionFormat 0 9 13)))
    (call v094_to_v0913 (update_recording_v094_to_v0913 true));;
  when (bool_decide (version_lt rec_version (VersionFormat 0 9 15)))
    (call v0913_to_v0915 update_recording_v0913_to_v0915);;
  when (bool_decide (version_lt rec_version (VersionFormat 1 3 0)))
    (call v0915_v13 update_recording_v0915_v13);;
  when (bool_decide (version_lt rec_version (VersionFormat 1 4 0)))
    (call v13_v14 update_recording_v13_v14);;
  call worldless_check check_for_worldless_recording;;
  when (bool_decide (version_lt rec_version (VersionFormat 1 8 0)))
    (call v14_v18 update_recording_v14_v18);;
  when (bool_decide (version_lt rec_version (VersionFormat 1 9 0)))
    (call v18_v19 update_recording_v18_v19);;
  mret ().

(** *** The plan of the specification *)

(** The threshold table of the specification's [MigrationPlan], read off
    the version tests of the incremental updates. *)
Definition migration_table : list (SemanticVersion * step) :=
  [ (VersionFormat 0 8 2, v074_to_v082);
    (VersionFormat 0 8 3, v082_to_v083);
    (VersionFormat 0 8 6, v083_to_v086);
    (VersionFormat 0 8 7, v086_to_v087);
    (VersionFormat 0 9 1, v087_to_v091);
    (VersionFormat 0 9 3, v091_to_v093);
    (VersionFormat 0 9 4, v093_to_v094);
    (VersionFormat 0 9 13, v094_to_v0913);
    (VersionFormat 0 9 15, v0913_to_v0915);
    (VersionFormat 1 3 0, v0915_v13);
    (VersionFormat 1 4 0, v13_v14);
    (VersionFormat 1 8 0, v14_v18);
    (VersionFormat 1 9 0, v18_v19) ].

(** [MigrationPlan.compute]: "a step is included iff current < threshold". *)
Definition MigrationPlan_compute (current : SemanticVersion) : list step :=
  (filter (λ ts, version_lt current ts.1) migration_table).*2.

(** The log of a run, as step names. *)
Definition steps_called (w : world) : list step := (calls w).*1.

(** The version [update_recording_to_recent] reads: that of the metadata it
    loads, after the Pupil Mobile default. *)
Definition declared_version (w : world) : result SemanticVersion :=
  match (load_meta_info w).1 with
  | Ok meta_info =>
      read_rec_version
        (if is_unversioned_pupil_mobile meta_info
         then <["Data Format Version" := "v0.9.4"%string]> meta_info
         else meta_info)
  | Raise e => Raise e
  end.

(** The calls of a run that nothing interrupts, in order. *)
Definition legacy_conversion (v : SemanticVersion) : list step :=
  if bool_decide (version_le (VersionFormat 0 7 4) v) then []
  else if bool_decide (version_le (VersionFormat 0 7 3) v) then [v073_to_v074]
  else if bool_decide (version_le (VersionFormat 0 5 0) v) then [v05_to_v074]
  else if bool_decide (version_le (VersionFormat 0 4 0) v) then [v04_to_v074]
  else [v03_to_v074].

Definition gated (v threshold : SemanticVersion) (s : step) : list step :=
  if bool_decide (version_lt v threshold) then [s] else [].

Definition steps_before_check (mobile : bool) (v : SemanticVersion)
    : list step :=
  (if mobile then [pupil_mobile_to_v094] else []) ++
  (if bool_decide (version_le v (VersionFormat 0 8 7))
   then [bytes_to_unicode] else []) ++
  legacy_conversion v ++
  gated v (VersionFormat 0 8 2) v074_to_v082 ++
  gated v (VersionFormat 0 8 3) v082_to_v083 ++
  gated v (VersionFormat 0 8 6) v083_to_v086 ++
  gated v (VersionFormat 0 8 7) v086_to_v087 ++
  gated v (VersionFormat 0 9 1) v087_to_v091 ++
  gated v (VersionFormat 0 9 3) v091_to_v093 ++
  gated v (VersionFormat 0 9 4) v093_to_v094 ++
  gated v (VersionFormat 0 9 13) v094_to_v0913 ++
  gated v (VersionFormat 0 9 15) v0913_to_v0915 ++
  gated v (VersionFormat 1 3 0) v0915_v13 ++
  gated v (VersionFormat 1 4 0) v13_v14.

Definition steps_after_check (v : SemanticVersion) : list step :=
  gated v (VersionFormat 1 8 0) v14_v18 ++
  gated v (VersionFormat 1 9 0) v18_v19.

Definition steps_planned (mobile : bool) (v : SemanticVersion) : list step :=
  steps_before_check mobile v ++ [worldless_check] ++ steps_after_check v.

(** The log of an interrupted run: calls that returned and then, if it is a
    call that raised [e], that call. *)
Definition interrupted (e : exn) (log : list (step * option exn)) : Prop :=
  ∃ p, log = ((λ s, (s, None)) <$> p) ∨
       ∃ s, log = ((λ s, (s, None)) <$> p) ++ [(s, Some e)].

(** A statement that makes no logged call. *)
Definition quiet {X} (m : M X) : Prop := ∀ w, calls (m w).2 = calls w.
End migration.

Arguments recording : clear implicits.
Arguments world : clear implicits.
Arguments M : clear implicits.

(** [read_rec_version] as the source has it: line 26, which would import
    it, is a comment, and no other line of the sources binds the name, so
    the call of line 218 raises [NameError] whatever the metadata are.  (So
    would [VersionFormat] at line 221, for the same reason.) *)
Definition read_rec_version_unbound (meta_info : gmap string string)
    : result SemanticVersion :=
  Raise NameError.

(** ** Data of the examples *)

Definition events_of (stamps : list Z) : list (datum ()) :=
  (λ t, mkDatum t ()) <$> stamps.

Definition demo_heap (events frames : list Z) : gmap positive (pyobj ()) :=
  <[1%positive := DataList (events_of events)]>
    (<[2%positive := TimestampSeq frames]> ∅).

(** A recording with one metadata entry, the version, and a [pupil_data]
    file (or none). *)
Definition demo_world (version : string) (pupil_data : option string)
    : world string :=
  mkWorld
    (mkRecording (Some {[ "Data Format Version"%string := version ]}) None
       (match pupil_data with
        | Some c => {[ "pupil_data"%string := c ]}
        | None => ∅
        end))
    [].

(** File work that succeeds and changes nothing, and a rewriting of
    [pupil_data] that keeps it. *)
Definition demo_file_work (s : step) (fs : gmap string string)
    : result () * gmap string string := (Ok (), fs).

Definition demo_transform (s : step) (c : string) : result string := Ok c.


(** ** The Pupil Mobile conversion on the files *)

(** [fnmatch] for a pattern of literal characters and [*], which stands for
    any run of characters. *)
Fixpoint fnmatch (pattern : string) : string → bool :=
  match pattern with
  | EmptyString => λ name, match name with EmptyString => true | _ => false end
  | String c pattern' =>
      if Ascii.eqb c "*"
      then fix star (name : string) : bool :=
             fnmatch pattern' name ||
             match name with
             | EmptyString => false
             | String _ name' => star name'
             end
      else λ name,
             match name with
             | EmptyString => false
             | String d name' => Ascii.eqb c d && fnmatch pattern' name'
             end
  end.

(** [p.rfind(".")] *)
Fixpoint rfind_dot (p : string) : option nat :=
  match p with
  | EmptyString => None
  | String c p' =>
      match rfind_dot p' with
      | Some i => Some (S i)
      | None => if Ascii.eqb c "." then Some 0%nat else None
      end
  end.

Fixpoint only_dots (p : string) : bool :=
  match p with
  | EmptyString => true
  | String c p' => Ascii.eqb c "." && only_dots p'
  end.

(** [os.path.splitext] on a file name (no directory separator): the
    extension starts at the last dot, unless only dots precede it. *)
Definition splitext (p : string) : string * string :=
  match rfind_dot p with
  | Some dotIndex =>
      if only_dots (String.substring 0 dotIndex p) then (p, EmptyString)
      else (String.substring 0 dotIndex p,
            String.substring dotIndex (String.length p - dotIndex) p)
  | None => (p, EmptyString)
  end.

(** A directory listing: the names of the files, in the order of the
    map. *)
Definition listdir_keys {C} (fs : gmap string C) : list string :=
  (map_to_list fs).*1.

(** [s[-1]] as a string; empty on the empty string, where Python raises
    (the conversion takes it of four fixed names). *)
Fixpoint last_char (s : string) : string :=
  match s with
  | EmptyString => EmptyString
  | String c EmptyString => String c EmptyString
  | String _ s' => last_char s'
  end.

Definition eye_cameras : list string :=
  ["Pupil Cam1 ID0"; "Pupil Cam1 ID1"; "Pupil Cam2 ID0"; "Pupil Cam2 ID1"]%string.

Definition world_cameras : list string :=
  ["Pupil Cam1 ID2"; "Logitech Webcam C930e"]%string.

Section pupil_mobile.
(** [C]: the content of a file. *)
Context {C : Type}.

(** The names of a directory in the order the system lists them, which
    [glob.glob] keeps. *)
Variable listdir : gmap string C → list string.
(** [np.save(_, np.fromfile(_, dtype=">f8"))]: the content of the [.npy]
    file made of the content of a [.time] file. *)
Variable time_to_npy : C → C.
(** What [fm.save_object] writes for the empty [pupil_data]. *)
Variable empty_pupil_data : C.

(** [glob.glob(os.path.join(rec_dir, "*.time"))], as names in [rec_dir]: a
    pattern that starts with [*] matches no name that starts with a dot. *)
Definition glob_time (fs : gmap string C) : list string :=
  filter (λ name, fnmatch "*.time" name && negb (String.prefix "." name) = true)
    (listdir fs).

(** One round of the loop over the [.time] files (lines 302-356).  The
    world cameras go through [av.open] (line 323), and [av] is bound
    nowhere: that round raises [NameError] before it writes anything.
    [os.rename] replaces a file that has the new name (the handler of
    [FileExistsError] does the same where the system refuses). *)
Definition convert_time_file (time_file_name : string) (fs : gmap string C)
    : result () * gmap string C :=
  let time_name := (splitext time_file_name).1 in
  let potential_locs :=
    (λ ext, time_name +:+ ext) <$> [".mjpeg"; ".mp4"; ".m4a"]%string in
  match filter (λ loc, is_Some (fs !! loc)) potential_locs with
  | [] => (Ok (), fs)
  | media_loc :: _ =>
      let renamed : result string :=
        if bool_decide (time_name ∈ eye_cameras)
        then Ok ("eye" +:+ last_char time_name)
        else if bool_decide (time_name ∈ world_cameras)
        then Raise NameError
        else if String.prefix "audio_" time_name
        then Ok "audio"%string
        else Ok time_name in
      match renamed with
      | Raise e => (Raise e, fs)
      | Ok time_name =>
          match fs !! time_file_name with
          | None => (Raise FileNotFoundError, fs)
          | Some timestamps =>
              let fs :=
                <[time_name +:+ "_timestamps.npy" := time_to_npy timestamps]> fs in
              let media_dst :=
                if bool_decide (time_name = "audio"%string)
                then "audio.mp4"%string
                else time_name +:+ (splitext media_loc).2 in
              match fs !! media_loc with
              | None => (Raise FileNotFoundError, fs)
              | Some media =>
                  (Ok (), <[media_dst := media]> (delete media_loc fs))
              end
          end
      end
  end.

Fixpoint convert_time_files (names : list string) (fs : gmap string C)
    : result () * gmap string C :=
  match names with
  | [] => (Ok (), fs)
  | time_file_name :: names' =>
      match convert_time_file time_file_name fs with
      | (Ok _, fs') => convert_time_files names' fs'
      | (Raise e, fs') => (Raise e, fs')
      end
  end.

(** [convert_pupil_mobile_recording_to_v094], as the work of the step on
    the files of the recording: the outcome and the files it leaves. *)
Definition convert_pupil_mobile_file_work (fs : gmap string C)
    : result () * gmap string C :=
  match convert_time_files (glob_time fs) fs with
  | (Ok _, fs') =>
      (Ok (),
       match fs' !! "pupil_data"%string with
       | Some _ => fs'
       | None => <["pupil_data"%string := empty_pupil_data]> fs'
       end)
  | (Raise e, fs') => (Raise e, fs')
  end.
End pupil_mobile.

(** A Pupil Mobile recording as the app leaves it: no version in the
    metadata, and the world camera's video with its [.time] file. *)
Definition demo_mobile_world : world string :=
  mkWorld
    (mkRecording (Some {[ "Capture Software"%string := "Pupil Mobile"%string ]})
       None
       {[ "Pupil Cam1 ID2.time"%string := "t"%string;
          "Pupil Cam1 ID2.mp4"%string := "v"%string ]})
    [].

(** The file work with the conversion as the source has it; the other
    steps leave the files. *)
Definition demo_mobile_file_work (s : step) (fs : gmap string string)
    : result () * gmap string string :=
  match s with
  | pupil_mobile_to_v094 =>
      convert_pupil_mobile_file_work listdir_keys (λ c, c) "{}"%string fs
  | _ => (Ok (), fs)
  end.

From Stdlib Require Import Lqa Qabs Qround.

Local Open Scope Z_scope.

(** ** Windows around a timestamp, closest elements *)

(** [seq[i]] for any integer [i]: a negative index counts from the end, and
    an index outside [-len, len) raises [IndexError]. *)
Definition py_getitem {A} (l : list A) (i : Z) : result A :=
  let n := Z.of_nat (length l) in
  if bool_decide (0 ≤ i) then getitem l (Z.to_nat i)
  else if bool_decide (- n ≤ i) then getitem l (Z.to_nat (n + i))
  else Raise IndexError.

(** A window bound: a number, or [-np.inf] / [np.inf]. *)
Inductive bound : Type :=
  | NegInf
  | Finite (q : Q)
  | PosInf.

Definition bound_le (x y : bound) : Prop :=
  match x, y with
  | NegInf, _ | _, PosInf => True
  | Finite a, Finite b => (a <= b)%Q
  | _, _ => False
  end.

(** [enclosing_window(timestamps, idx)].  With an infinite neighbour the
    half sum is that infinity. *)
Definition enclosing_window (timestamps : list Z) (idx : Z)
    : result (bound * bound) :=
  before ← (if bool_decide (0 < idx)
            then t ← py_getitem timestamps (idx - 1); Ok (Some t)
            else Ok None);
  now ← py_getitem timestamps idx;
  after ← (if bool_decide (idx < Z.of_nat (length timestamps) - 1)
           then t ← py_getitem timestamps (idx + 1); Ok (Some t)
           else Ok None);
  Ok (match before with
      | Some before => Finite (midpoint now before)
      | None => NegInf
      end,
      match after with
      | Some after => Finite (midpoint after now)
      | None => PosInf
      end).

(** [exact_window(timestamps, index_range)] *)
Definition exact_window (timestamps : list Z) (index_range : Z * Z)
    : result (Z * Z) :=
  let end_index :=
    Z.min index_range.2 (Z.of_nat (length timestamps) - 1) in
  t0 ← py_getitem timestamps index_range.1;
  t1 ← py_getitem timestamps end_index;
  Ok (t0, t1).

(** [np.clip(a, a_min, a_max)]: [minimum(a_max, maximum(a, a_min))], with
    no check that [a_min <= a_max]. *)
Definition np_clip (a a_min a_max : Z) : Z := Z.min a_max (Z.max a a_min).

(** [find_closest(target, source)], one element of [source] at a time: the
    numpy expressions are elementwise, and an index out of bounds anywhere
    is the [IndexError] of the whole call.  The comparison result is
    subtracted as 0 or 1.  The two differences are exact here and rounded to
    binary64 in the source, so the comparison can come out differently when
    they are within a rounding error of each other; their signs, and what
    follows from the signs alone, are the same. *)
Definition find_closest_one (target : list Z) (s : Z) : result Z :=
  let idx := Z.of_nat (searchsorted target s) in
  let idx := np_clip idx 1 (Z.of_nat (length target) - 1) in
  left ← py_getitem target (idx - 1);
  right ← py_getitem target idx;
  Ok (idx - (if bool_decide (s - left < right - s) then 1 else 0)).

Definition find_closest (target source : list Z) : result (list Z) :=
  mapM (find_closest_one target) source.

(** ** The container protocol of [Bisector] and the window dicts *)

Section Bisector_protocol.
Context {A : Type}.

(** [Bisector.__getitem__], for an integer key. *)
Definition Bisector_getitem (self : Bisector A) (key : Z) : result A :=
  py_getitem (data self) key.

(** [Bisector.__len__] *)
Definition Bisector_len (self : Bisector A) : nat := length (data self).

(** [Bisector.__iter__]: the data in stored order. *)
Definition Bisector_iter (self : Bisector A) : list A := data self.

(** [Bisector.__bool__]: the truth value of the list [self.data]. *)
Definition Bisector_bool (self : Bisector A) : bool :=
  match data self with
  | [] => false
  | _ :: _ => true
  end.

(** The property [Bisector.timestamps]. *)
Definition timestamps (self : Bisector A) : list Z := data_ts self.

(** The dict of [Bisector.init_dict_for_window]: its keys are the keyword
    arguments of [Bisector.__init__]. *)
Record Bisector_init_dict : Type := mkBisectorInitDict {
  dict_data : list A;
  dict_data_ts : list Z;
}.

Definition Bisector_init_dict_for_window (self : Bisector A)
    (ts_window : Z * Z) : Bisector_init_dict :=
  let '(start_idx, stop_idx) := _start_stop_idc_for_window self ts_window in
  {| dict_data := slice (data self) start_idx stop_idx;
     dict_data_ts := slice (data_ts self) start_idx stop_idx |}.

(** The dict of [Affiliator.init_dict_for_window], with the keyword
    arguments of [Affiliator.__init__]. *)
Record Affiliator_init_dict : Type := mkAffiliatorInitDict {
  dict_af_data : list A;
  dict_start_ts : list Z;
  dict_stop_ts : list Z;
}.

Definition Affiliator_init_dict_for_window (self : Affiliator A)
    (ts_window : Z * Z) : Affiliator_init_dict :=
  let '(start_idx, stop_idx) := _start_stop_idc_for_window self ts_window in
  {| dict_af_data := slice (data (bisector self)) start_idx stop_idx;
     dict_start_ts := slice (data_ts (bisector self)) start_idx stop_idx;
     dict_stop_ts := slice (stop_ts self) start_idx stop_idx |}.
End Bisector_protocol.

Arguments Bisector_init_dict : clear implicits.
Arguments Affiliator_init_dict : clear implicits.

(** ** Lists read by an index *)

(** Along a list on which the index [F] does not decrease ([None] counting
    as the greatest index), the filters by index, in index order, are the
    list of the elements with an index, in list order. *)
Definition index_nondecreasing {X} (F : X → option nat) (l : list X) : Prop :=
  ∀ i j x y n, l !! i = Some x → l !! j = Some y → (i ≤ j)%nat →
    F y = Some n → ∃ m, F x = Some m ∧ (m ≤ n)%nat.

(** ** Invariants and postconditions of the migration statements *)

Section migration_logic.
Context {C : Type}.

(** [m] keeps [I], however it ends. *)
Definition preserves {X} (I : world C → Prop) (m : M C X) : Prop :=
  ∀ w r w', I w → m w = (r, w') → I w'.

(** The metadata invariant of a run: [user_info.csv] is as it was,
    [info.csv] exists and agrees with [meta_info] on every key other than
    the version. *)
Definition metadata_kept (user_info : option (gmap string string))
    (meta_info : gmap string string) (w : world C) : Prop :=
  user_info_csv (rec_dir w) = user_info ∧
  ∃ m, info_csv (rec_dir w) = Some m ∧
       ∀ k, k ≠ "Data Format Version"%string → m !! k = meta_info !! k.
End migration_logic.

(** ** The rewriting steps of [pupil_data] *)

(** Python values, as far as the steps look into them: numbers are exact,
    a dict has string keys. *)
#[warnings="-register-all"]
Inductive value : Type :=
  | VNone
  | VNum (x : Q)
  | VStr (s : string)
  | VTuple (l : list value)
  | VList (l : list value)
  | VDict (d : gmap string value).

(** The object [fm.load_object] returns for [pupil_data], as the recorder
    writes it: a dict from topic to a list of data, a datum being a dict.
    It is a tree: no datum is shared between two places. *)
Abbreviation pydict := (gmap string value).
Abbreviation pupil_data := (gmap string (list pydict)).

Definition TypeError : exn := OtherError "TypeError".

(** [d[key]] on a dict *)
Definition dict_getitem (d : pydict) (key : string) : result value :=
  match d !! key with
  | Some v => Ok v
  | None => Raise KeyError
  end.

(** [v[i]] for an index [i] from 0 on: sequences and strings are indexed,
    a dict has no integer key, the other values are not subscriptable. *)
Definition value_getitem (v : value) (i : nat) : result value :=
  match v with
  | VTuple l | VList l => getitem l i
  | VStr s =>
      match String.get i s with
      | Some c => Ok (VStr (String c EmptyString))
      | None => Raise IndexError
      end
  | VDict _ => Raise KeyError
  | VNone | VNum _ => Raise TypeError
  end.

Section pupil_data_steps.
(** Python's [float] on a string: its number, if it spells one. *)
Variable parse_float : string → option Q.

(** [update_recording_v082_to_v083]:
    [if "base" in d: d["base_data"] = d.pop("base")] *)
Definition rename_base (d : pydict) : pydict :=
  match d !! "base" with
  | Some v => <["base_data" := v]> (delete "base" d)
  | None => d
  end.

Definition transform_v082_to_v083 (pd : pupil_data) : result pupil_data :=
  match pd !! "gaze_positions" with
  | Some gaze_positions =>
      Ok (<["gaze_positions" := rename_base <$> gaze_positions]> pd)
  | None => Raise KeyError
  end.

(** [update_recording_v083_to_v086]:
    [for topic in pupil_data.keys(): for d in pupil_data[topic]:
       d["topic"] = topic] *)
Definition transform_v083_to_v086 (pd : pupil_data) : result pupil_data :=
  Ok (map_imap (M:=gmap string) (λ (topic : string) (data : list pydict),
        Some ((λ d : pydict, <["topic" := VStr topic]> d) <$> data)) pd).

(** [min(100.0, max(-100.0, x))]: [max] returns its second argument when
    it is greater than the first, [min] when it is smaller; comparing a
    number with another kind of value raises [TypeError]. *)
Definition clamp (x : value) : result value :=
  match x with
  | VNum x =>
      let m := if Qle_bool x (-100) then (-100)%Q else x in
      Ok (VNum (if Qle_bool 100 m then 100%Q else m))
  | _ => Raise TypeError
  end.

Definition _clamp_norm_point (pos : value) : result value :=
  p0 ← value_getitem pos 0;
  c0 ← clamp p0;
  p1 ← value_getitem pos 1;
  c1 ← clamp p1;
  Ok (VTuple [c0; c1]).

(** The loop body of [update_recording_v086_to_v087]. *)
Definition clamp_gaze (g : pydict) : result pydict :=
  let g := match g !! "topic" with
           | Some _ => g
           | None => <["topic" := VStr "gaze"]> g
           end in
  norm_pos ← dict_getitem g "norm_pos";
  norm_pos ← _clamp_norm_point norm_pos;
  Ok (<["norm_pos" := norm_pos]> g).

(** [pupil_data.get("gaze_positions", [])]: without the key the loop runs
    over the empty default and the object is saved as it is. *)
Definition transform_v086_to_v087 (pd : pupil_data) : result pupil_data :=
  match pd !! "gaze_positions" with
  | Some gaze_positions =>
      gaze_positions ← mapM clamp_gaze gaze_positions;
      Ok (<["gaze_positions" := gaze_positions]> pd)
  | None => Ok pd
  end.

(** [float(x)] *)
Definition py_float (x : value) : result value :=
  match x with
  | VNum x => Ok (VNum x)
  | VStr s =>
      match parse_float s with
      | Some x => Ok (VNum x)
      | None => Raise ValueError
      end
  | _ => Raise TypeError
  end.

(** The loop body of [update_recording_v091_to_v093]:
    [g["norm_pos"] = float(g["norm_pos"][0]), float(g["norm_pos"][1])] *)
Definition float_gaze (g : pydict) : result pydict :=
  pos ← dict_getitem g "norm_pos";
  p0 ← value_getitem pos 0;
  f0 ← py_float p0;
  pos ← dict_getitem g "norm_pos";
  p1 ← value_getitem pos 1;
  f1 ← py_float p1;
  Ok (<["norm_pos" := VTuple [f0; f1]]> g).

Definition transform_v091_to_v093 (pd : pupil_data) : result pupil_data :=
  match pd !! "gaze_positions" with
  | Some gaze_positions =>
      gaze_positions ← mapM float_gaze gaze_positions;
      Ok (<["gaze_positions" := gaze_positions]> pd)
  | None => Ok pd
  end.

(** What each step does to the loaded [pupil_data] between
    [fm.load_object] and [fm.save_object]. *)
Definition pupil_data_transform (s : step) (pd : pupil_data)
    : result pupil_data :=
  match s with
  | v082_to_v083 => transform_v082_to_v083 pd
  | v083_to_v086 => transform_v083_to_v086 pd
  | v086_to_v087 => transform_v086_to_v087 pd
  | v091_to_v093 => transform_v091_to_v093 pd
  | _ => Ok pd
  end.
End pupil_data_steps.

(** A number within the range the clamping keeps. *)
Definition norm_range (x : Q) : Prop := (-100 <= x)%Q ∧ (x <= 100)%Q.

(** A recording for the examples: one gaze datum with the old key [base]
    and a position out of range, one pupil datum. *)
Definition demo_gaze : list pydict :=
  [ {[ "base"%string := VList [VNum 1];
       "norm_pos"%string := VTuple [VNum 150; VNum (1 # 2)] ]} ].

Definition demo_pupil_data : pupil_data :=
  {[ "gaze_positions"%string := demo_gaze;
     "pupil_positions"%string := [ {[ "id"%string := VNum 0 ]} ] ]}.

Definition demo_pupil_world : world pupil_data :=
  mkWorld
    (mkRecording (Some {[ "Data Format Version"%string := "v0.8.2"%string ]})
       None {[ "pupil_data"%string := demo_pupil_data ]})
    [].

(** ** The check for a recording without world video *)

(** What [np.load] returns: an array of one dimension with its entries,
    or an array of another number of dimensions. *)
Inductive ndarray : Type :=
  | Array1 (entries : list Q)
  | ArrayND.

(** [min(a, b)] and [max(a, b)] of Python, which return [b] only when it is
    strictly smaller (greater) than [a]; [a] is the running bound. *)
Definition py_min (a : bound) (b : Q) : bound :=
  match a with
  | NegInf => NegInf
  | Finite x => if Qle_bool x b then Finite x else Finite b
  | PosInf => Finite b
  end.

Definition py_max (a : bound) (b : Q) : bound :=
  match a with
  | NegInf => Finite b
  | Finite x => if Qle_bool b x then Finite x else Finite b
  | PosInf => PosInf
  end.

Definition bound_lt (x y : bound) : bool :=
  match x, y with
  | NegInf, NegInf | PosInf, _ | _, NegInf => false
  | Finite a, Finite b => negb (Qle_bool b a)
  | NegInf, _ | _, PosInf => true
  end.

(** [np.arange(start, stop, step)]: [ceil((stop - start) / step)] entries
    [start + i * step], with the exact quotient and sums.  numpy rounds
    them to binary64, so its entries can differ from these in the last
    digit, and its length by one where the quotient is within a rounding
    error of an integer.  With [start < stop] and a positive step both have
    a first entry, which is [start], and ascend; no more is used. *)
Definition np_arange (start stop step : Q) : list Q :=
  (λ i : nat, start + inject_Z (Z.of_nat i) * step)%Q
    <$> seq 0 (Z.to_nat (Qceiling ((stop - start) / step))).

Definition valid_ext : list string :=
  [".mp4"; ".mkv"; ".avi"; ".h264"; ".mjpeg"]%string.

(** The object written to [world.fake]. *)
Definition fake_world (frame_rate : Q) : value :=
  VDict {[ "frame_rate"%string := VNum frame_rate;
           "frame_size"%string := VTuple [VNum 1280; VNum 720];
           "version"%string := VNum 0 ]}.

Section worldless.
(** [C]: the content of a file. *)
Context {C : Type}.

(** The names of a directory in the order the system lists them, which
    [glob.glob] keeps. *)
Variable listdir : gmap string C → list string.
(** [np.load] on the content of a file, [np.save] of an array of one
    dimension, and the serialisation of [fm.save_object]. *)
Variable np_load : C → result ndarray.
Variable np_save : list Q → C.
Variable dump_object : value → C.

(** [glob.glob(os.path.join(rec_dir, pattern))], as names in [rec_dir]. *)
Definition glob (fs : gmap string C) (pattern : string) : list string :=
  filter (λ name, fnmatch pattern name = true) (listdir fs).

(** The body of the [try] in the loop over the eye timestamp files. *)
Definition eye_range (fs : gmap string C) (f : string)
    (min_ts max_ts : bound) : result (bound * bound) :=
  eye_ts ← match fs !! f with
           | Some c => np_load c
           | None => Raise FileNotFoundError
           end;
  match eye_ts with
  | Array1 entries =>
      if bool_decide (1 < length entries)%nat
      then Ok (py_min min_ts (List.hd 0%Q entries),
               py_max max_ts (List.last entries 0%Q))
      else Raise AssertionError
  | ArrayND => Raise AssertionError
  end.

Fixpoint eye_loop (fs : gmap string C) (names : list string)
    (min_ts max_ts : bound) : result (bound * bound) :=
  match names with
  | [] => Ok (min_ts, max_ts)
  | f :: names' =>
      match eye_range fs f min_ts max_ts with
      | Ok (min_ts', max_ts') => eye_loop fs names' min_ts' max_ts'
      | Raise FileNotFoundError | Raise AssertionError =>
          eye_loop fs names' min_ts max_ts
      | Raise e => Raise e
      end
  end.

Definition existing_videos (fs : gmap string C) : list string :=
  filter (λ f, (splitext f).2 ∈ valid_ext) (glob fs "world.*").

(** [check_for_worldless_recording], as the work of the step on the files
    of the recording: the outcome and the files it leaves.  [np.save] adds
    the suffix [.npy] to the name it is given.  [np.arange] takes finite
    bounds and raises [ValueError] on the others, which the assertion
    before it excludes. *)
Definition worldless_file_work (fs : gmap string C)
    : result () * gmap string C :=
  match existing_videos fs with
  | _ :: _ => (Ok (), fs)
  | [] =>
      match eye_loop fs (glob fs "eye*_timestamps.npy") PosInf NegInf with
      | Raise e => (Raise e, fs)
      | Ok (min_ts, max_ts) =>
          if bound_lt NegInf min_ts && bound_lt min_ts max_ts
             && bound_lt max_ts PosInf
          then
            match min_ts, max_ts with
            | Finite min_ts, Finite max_ts =>
                let frame_rate := 30%Q in
                let timestamps := np_arange min_ts max_ts (1 / frame_rate) in
                (Ok (),
                 <["world.fake"%string := dump_object (fake_world frame_rate)]>
                   (<["world_timestamps.npy"%string := np_save timestamps]> fs))
            | _, _ => (Raise ValueError, fs)
            end
          else (Raise AssertionError, fs)
      end
  end.

(** The first and last entry of an eye timestamp file the loop uses. *)
Definition usable (fs : gmap string C) (f : string) : option (Q * Q) :=
  match fs !! f with
  | Some c =>
      match np_load c with
      | Ok (Array1 entries) =>
          if bool_decide (1 < length entries)%nat
          then Some (List.hd 0%Q entries, List.last entries 0%Q)
          else None
      | _ => None
      end
  | None => None
  end.
End worldless.

(** The names the two patterns of the check stand for, spelled out. *)
Definition is_video_name (name : string) : Prop :=
  (∃ rest, name = "world." +:+ rest) ∧
  ∃ stem ext, ext ∈ valid_ext ∧ name = stem +:+ ext.

Definition is_eye_name (name : string) : Prop :=
  ∃ mid, name = "eye" +:+ mid +:+ "_timestamps.npy".

(** Files for the examples: arrays [np.save] wrote, and objects
    [fm.save_object] wrote, which [np.load] refuses. *)
Inductive demo_content : Type :=
  | NpyFile (a : list Q)
  | ObjectFile (v : value).

Definition demo_np_load (c : demo_content) : result ndarray :=
  match c with
  | NpyFile a => Ok (Array1 a)
  | ObjectFile _ => Raise ValueError
  end.

Definition demo_worldless : gmap string demo_content → result () * gmap string demo_content :=
  worldless_file_work listdir_keys demo_np_load NpyFile ObjectFile.

Definition demo_eye_files : gmap string demo_content :=
  {[ "eye0_timestamps.npy"%string := NpyFile [1; 2; 3]%Q;
     "eye1_timestamps.npy"%string := NpyFile [(1 # 2); 2]%Q;
     "eye1.mp4"%string := ObjectFile VNone ]}.

(** ** The recordings below a dropped folder *)

(** What is at a path: a file, with what [csv_utils.read_key_value_file]
    returns or raises on it, or a directory, with its entries in the order
    [os.listdir] gives them. *)
#[warnings="-register-all"]
Inductive fsnode : Type :=
  | File (key_values : result (gmap string string))
  | Dir (entries : list (string * fsnode)).

(** The entry of a directory with a given name. *)
Fixpoint entry {A} (entries : list (string * A)) (name : string) : option A :=
  match entries with
  | [] => None
  | (n, x) :: entries' =>
      if bool_decide (n = name) then Some x else entry entries' name
  end.

Definition IsADirectoryError : exn := OtherError "IsADirectoryError".

(** [load_meta_info], on the entries of [rec_dir]: [open] raises on a
    missing file and on a directory. *)
Definition load_meta_info_dir (rec_dir : list (string * fsnode))
    : result (gmap string string) :=
  let meta_info_path :=
    if bool_decide (is_Some (entry rec_dir "info.csv"))
    then "info.csv"%string else "user_info.csv"%string in
  match entry rec_dir meta_info_path with
  | None => Raise FileNotFoundError
  | Some (Dir _) => Raise IsADirectoryError
  | Some (File key_values) => key_values
  end.

(** [is_pupil_rec_dir]; [None] stands for a path where nothing is. *)
Definition is_pupil_rec_dir (rec_dir : option fsnode) : bool :=
  match rec_dir with
  | Some (Dir entries) =>
      match load_meta_info_dir entries with
      | Ok meta_info => true
      | Raise e => false
      end
  | _ => false
  end.

(** [s.split(os.sep)]: the pieces between the separators, at least one. *)
Fixpoint split_sep (s : string) : list string :=
  match s with
  | EmptyString => [EmptyString]
  | String c s' =>
      if Ascii.eqb c "/" then EmptyString :: split_sep s'
      else match split_sep s' with
           | piece :: pieces => String c piece :: pieces
           | [] => [String c EmptyString]
           end
  end.

Fixpoint endswith_sep (s : string) : bool :=
  match s with
  | EmptyString => false
  | String c EmptyString => Ascii.eqb c "/"
  | String _ s' => endswith_sep s'
  end.

(** [os.path.join(a, b)] *)
Definition path_join (a b : string) : string :=
  if String.prefix "/" b then b
  else if bool_decide (a = EmptyString) || endswith_sep a then a +:+ b
  else a +:+ "/" +:+ b.

(** A [QTreeWidgetItem]: the text of its column 0 and its children. *)
#[warnings="-register-all"]
Inductive item : Type :=
  | Item (text : string) (children : list item).

Definition setText (tree : item) (text : string) : item :=
  match tree with Item _ children => Item text children end.

Definition addChild (tree child : item) : item :=
  match tree with Item text children => Item text (children ++ [child]) end.

(** The loop of [getTree] over [os.listdir(path)]. *)
Definition getTree_loop
    (getTree : string → fsnode → item * list string * list string)
    (path cur_di : string)
    : list (string * fsnode) → item → list string → list string →
      item * list string * list string :=
  fix loop dirs tree recordings level :=
    match dirs with
    | [] => (tree, recordings, level)
    | (di, node) :: dirs' =>
        if String.prefix "." di then loop dirs' tree recordings level
        else
          let di_path := path_join path di in
          let di_tree := Item EmptyString [] in
          let '(di_tree, rec, lvl) := getTree di_path node in
          if bool_decide (0 < length rec)%nat then
            let di_tree := setText di_tree di in
            let tree := setText tree cur_di in
            let tree := addChild tree di_tree in
            let new_level := (λ lev, cur_di +:+ "_" +:+ lev) <$> lvl in
            loop dirs' tree (recordings ++ rec) (level ++ new_level)
          else loop dirs' tree recordings level
    end.

(** [getTree(path)] for what is at [path]; the tree is a new item (the
    default, and what the recursive calls pass). *)
Fixpoint getTree (path : string) (node : fsnode)
    : item * list string * list string :=
  match node with
  | File _ => (Item EmptyString [], [], [])
  | Dir entries =>
      let cur_di := List.last (split_sep path) EmptyString in
      if is_pupil_rec_dir (Some node)
      then (setText (Item EmptyString []) cur_di, [path], [cur_di])
      else getTree_loop getTree path cur_di entries (Item EmptyString []) [] []
  end.

(** The node a sequence of names leads to. *)
Fixpoint resolve (node : fsnode) (names : list string) : option fsnode :=
  match names with
  | [] => Some node
  | name :: names' =>
      match node with
      | Dir entries =>
          match entry entries name with
          | Some node' => resolve node' names'
          | None => None
          end
      | File _ => None
      end
  end.

Fixpoint has_sep (s : string) : bool :=
  match s with
  | EmptyString => false
  | String c s' => Ascii.eqb c "/" || has_sep s'
  end.

(** The directories of a file system: the names of a directory differ from
    each other and hold no separator. *)
#[warnings="-register-all"]
Inductive wf_node : fsnode → Prop :=
  | wf_File key_values : wf_node (File key_values)
  | wf_Dir entries :
      NoDup entries.*1 →
      Forall (λ e, has_sep e.1 = false ∧ wf_node e.2) entries →
      wf_node (Dir entries).

(** The level name of the directory reached from [cur_di] by [names]. *)
Fixpoint level_name (cur_di : string) (names : list string) : string :=
  match names with
  | [] => cur_di
  | name :: names' => cur_di +:+ "_" +:+ level_name name names'
  end.

(** The level names read off a tree: the texts from the root to each leaf,
    joined by [_]. *)
Fixpoint leaf_levels (tree : item) : list string :=
  match tree with
  | Item text [] => [text]
  | Item text children =>
      (λ lev, text +:+ "_" +:+ lev)
        <$> (fix leaves (cs : list item) : list string :=
               match cs with
               | [] => []
               | c :: cs' => leaf_levels c ++ leaves cs'
               end) children
  end.

(** What [getTree] finds for a path and a level name: a recording
    directory reached by names that are not hidden, through directories
    that are no recordings. *)
Definition topmost_recording (path : string) (node : fsnode)
    (rec lvl : string) : Prop :=
  ∃ names rec_dir,
    rec = foldl path_join path names ∧
    lvl = level_name (List.last (split_sep path) EmptyString) names ∧
    resolve node names = Some rec_dir ∧
    is_pupil_rec_dir (Some rec_dir) = true ∧
    Forall (λ name, String.prefix "." name = false) names ∧
    ∀ k above, (k < length names)%nat → resolve node (take k names) = Some above →
               is_pupil_rec_dir (Some above) = false.

(** The entries the loop of [getTree] takes results from. *)
Definition visits (getTree : string → fsnode → item * list string * list string)
    (path : string) (dirs : list (string * fsnode)) : list (string * fsnode) :=
  filter (λ e, String.prefix "." e.1 = false ∧
               (getTree (path_join path e.1) e.2).1.2 ≠ []) dirs.

(** The recording [update_recording_to_recent] works on, for a directory:
    the two metadata files as far as they can be read, and the other
    entries. *)
Definition readable (node : option fsnode) : option (gmap string string) :=
  match node with
  | Some (File (Ok key_values)) => Some key_values
  | _ => None
  end.

Definition recording_of (entries : list (string * fsnode))
    : recording fsnode :=
  mkRecording (readable (entry entries "info.csv"))
    (readable (entry entries "user_info.csv"))
    (list_to_map
       (filter (λ e, e.1 ≠ "info.csv"%string ∧ e.1 ≠ "user_info.csv"%string)
          entries)).

(** [s.index(c)] for a character [c] *)
Fixpoint str_index (s : string) (c : ascii) : result nat :=
  match s with
  | EmptyString => Raise ValueError
  | String d s' =>
      if Ascii.eqb d c then Ok 0%nat
      else i ← str_index s' c; Ok (S i)
  end.

(** [lvl[lvl.index('_')+1:]], the level name [clicked_export] uses when
    the first level is omitted. *)
Definition omit_first_level (lvl : string) : result string :=
  i ← str_index lvl "_";
  Ok (String.substring (i + 1) (String.length lvl - (i + 1)) lvl).

(** The names [clicked_export] passes to [process_recording] and to
    [process_recording_annotations] for a recording and its level name:
    the target directory and the two file names. *)
Definition export_names (group omit : bool) (target_path : string)
    (rec lvl : string) : result (string * string * string) :=
  let name := "pupil_positions"%string in
  lvl ← (if omit then omit_first_level lvl else Ok lvl);
  let target := if negb group then path_join rec "exports" else target_path in
  let name := if negb group then name else name +:+ "_" +:+ lvl in
  let pupil_csv := name +:+ ".csv" in
  let name := "annotations"%string in
  let name := if group then name +:+ "_" +:+ lvl else name in
  Ok (target, pupil_csv, name +:+ ".csv").

Fixpoint has_char (c : ascii) (s : string) : bool :=
  match s with
  | EmptyString => false
  | String d s' => Ascii.eqb d c || has_char c s'
  end.

(** A folder for the examples: two recordings below [a], one of them in a
    hidden directory, and a recording inside a recording. *)
Definition demo_recording (inner : list (string * fsnode)) : fsnode :=
  Dir (("info.csv"%string, File (Ok ∅)) :: inner).

Definition demo_folder : fsnode :=
  Dir [ ("a"%string,
         Dir [ ("r1"%string,
                demo_recording [("nested"%string, demo_recording [])]);
               (".hidden"%string, Dir [("r2"%string, demo_recording [])]);
               ("notes.txt"%string, File (Ok ∅)) ]);
        ("b"%string, Dir [("r3"%string, demo_recording [])]) ].

(** ** The export of the pupil data of a recording *)

(** [v[key]] for a string key: only a dict has one. *)
Definition value_getkey (v : value) (key : string) : result value :=
  match v with
  | VDict d => dict_getitem d key
  | _ => Raise TypeError
  end.

(** [v.get(key, default)] *)
Definition value_get (v : value) (key : string) (default_value : value)
    : result value :=
  match v with
  | VDict d => Ok (default default_value (d !! key))
  | _ => Raise AttributeError
  end.

Definition extract_eyeid_diameters (pupil_datum : value)
    : result (value * value * value * value * value * value) :=
  id ← value_getkey pupil_datum "id";
  confidence ← value_getkey pupil_datum "confidence";
  diameter ← value_getkey pupil_datum "diameter";
  diameter_3d ← value_get pupil_datum "diameter_3d" (VNum 0);
  norm_pos ← value_getkey pupil_datum "norm_pos";
  norm_pos_x ← value_getitem norm_pos 0;
  norm_pos ← value_getkey pupil_datum "norm_pos";
  norm_pos_y ← value_getitem norm_pos 1;
  Ok (id, confidence, diameter, diameter_3d, norm_pos_x, norm_pos_y).

Definition csv_header : list string :=
  ["eye_id"; "timestamp"; "confidence"; "diameter"; "diameter_3d";
   "norm_pos_x"; "norm_pos_y"]%string.

(** The body of the loop of [load_and_yield_data]: the row yielded for a
    timestamp and a deserialised payload. *)
Definition yield_row (timestamp : Q) (datum : value) : result (list value) :=
  '(eye_id, conf, dia_2d, dia_3d, pos_x, pos_y) ← extract_eyeid_diameters datum;
  Ok [eye_id; VNum timestamp; conf; dia_2d; dia_3d; pos_x; pos_y].

(** A generator, run to its end: the rows it yields, and the exception it
    ends with, if any. *)
Fixpoint yield_rows (pairs : list (Q * (string * value)))
    : list (list value) * option exn :=
  match pairs with
  | [] => ([], None)
  | (timestamp, (topic, payload)) :: pairs' =>
      match yield_row timestamp payload with
      | Ok row => let '(rows, e) := yield_rows pairs' in (row :: rows, e)
      | Raise e => ([], Some e)
      end
  end.

(** The path [process_recording] writes to. *)
Definition csv_out_path (recording csv_out out_directory : string) : string :=
  if bool_decide (String.length out_directory = 0)%nat
  then path_join recording csv_out
  else path_join out_directory csv_out.

Section export.
(** [C]: the content of a file. *)
Context {C : Type}.

(** [np.load] on a timestamp file, an array of one dimension;
    the records of topic and deserialised payload [msgpack.Unpacker] reads
    from a file; the file [csv.writer] leaves for the rows written. *)
Variable np_load : C → result (list Q).
Variable read_pldata : C → list (string * value).
Variable csv_file : list (list value) → C.

(** Opening a file for reading. *)
Definition open_r (fs : gmap string C) (path : string) : result C :=
  match fs !! path with
  | Some c => Ok c
  | None => Raise FileNotFoundError
  end.

(** [load_and_yield_data(directory)], run to its end on the files [fs]. *)
Definition load_and_yield_data (fs : gmap string C) (directory : string)
    : list (list value) * option exn :=
  let topic := "pupil"%string in
  let offline := path_join (path_join directory "offline_data")
                   ("offline_" +:+ topic +:+ "_timestamps.npy") in
  let '(rows, e) :=
    match
      '(data_ts, msgpack_file) ←
        (if negb (bool_decide (is_Some (fs !! offline))) then
           let ts_file := path_join directory (topic +:+ "_timestamps.npy") in
           data_ts ← (c ← open_r fs ts_file; np_load c);
           Ok (data_ts, path_join directory (topic +:+ ".pldata"))
         else
           let ts_file := offline in
           data_ts ← (c ← open_r fs ts_file; np_load c);
           Ok (data_ts,
               path_join (path_join directory "offline_data")
                 ("offline_" +:+ topic +:+ ".pldata")));
      fh ← open_r fs msgpack_file;
      Ok (zip data_ts (read_pldata fh))
    with
    | Ok pairs => yield_rows pairs
    | Raise e => ([], Some e)
    end in
  (rows, match e with
         | Some FileNotFoundError => None
         | _ => e
         end).

(** [process_recording]: the outcome and the files it leaves.  The CSV
    file is opened, and so emptied, before the generator reads its files;
    what it holds in the end are the header and the rows written before
    the generator ended.  Its directory exists. *)
Definition process_recording (recording csv_out out_directory : string)
    (overwrite : bool) (fs : gmap string C) : result () * gmap string C :=
  let csv_out_path := csv_out_path recording csv_out out_directory in
  if bool_decide (is_Some (fs !! csv_out_path)) && negb overwrite
  then (Ok (), fs)
  else
    let opened := <[csv_out_path := csv_file []]> fs in
    let '(extracted_rows, e) := load_and_yield_data opened recording in
    (match e with
     | None => Ok ()
     | Some e => Raise e
     end,
     <[csv_out_path := csv_file ((VStr <$> csv_header) :: extracted_rows)]> fs).

End export.

(** Files for the examples: timestamps, records of topic and payload, and
    the rows of a CSV file. *)
Inductive export_content : Type :=
  | TimestampsFile (data_ts : list Q)
  | PldataFile (records : list (string * value))
  | CsvFile (rows : list (list value)).

Definition export_np_load (c : export_content) : result (list Q) :=
  match c with
  | TimestampsFile data_ts => Ok data_ts
  | _ => Raise ValueError
  end.

Definition export_read_pldata (c : export_content) : list (string * value) :=
  match c with
  | PldataFile records => records
  | _ => []
  end.

(** A recording with three timestamps and two data, the second without the
    keys of a pupil datum. *)
Definition demo_export_files : gmap string export_content :=
  {[ "rec/pupil_timestamps.npy"%string := TimestampsFile [1; 2; 3]%Q;
     "rec/pupil.pldata"%string :=
       PldataFile
         [ ("pupil"%string,
            VDict {[ "id"%string := VNum 0;
                     "confidence"%string := VNum 1;
                     "diameter"%string := VNum 20;
                     "norm_pos"%string := VTuple [VNum (1 # 2); VNum (1 # 3)] ]});
           ("pupil"%string, VDict {[ "id"%string := VNum 1 ]}) ] ]}.

(** * Properties *)

(** ** Lists, sorting and binary search *)

Lemma result_bind_Ok {A B} (m : result A) (f : A → result B) (b : B) :
  m ≫= f = Ok b ↔ ∃ a, m = Ok a ∧ f a = Ok b.
Proof.
  destruct m as [a|e]; simpl; split.
  - eauto.
  - intros (a' & Ha & Hf). by simplify_eq.
  - done.
  - by intros (? & ? & ?).
Qed.

Lemma getitem_Ok {A} (l : list A) i x : getitem l i = Ok x ↔ l !! i = Some x.
Proof. unfold getitem. destruct (l !! i); naive_solver. Qed.

Lemma getitem_Raise {A} (l : list A) i e :
  getitem l i = Raise e ↔ (length l ≤ i)%nat ∧ e = IndexError.
Proof.
  unfold getitem. destruct (l !! i) eqn:E.
  - apply lookup_lt_Some in E. split; [done | intros [? _]; lia].
  - apply lookup_ge_None in E. split; [intros [= <-]; done | intros [_ ->]; done].
Qed.

Lemma take_idc_Ok {A} (arr : list A) idc l :
  take_idc arr idc = Ok l ↔ Forall2 (λ i x, arr !! i = Some x) idc l.
Proof.
  revert l. induction idc as [|i idc IH]; intros l; simpl.
  - split; [intros [= <-]; constructor | by inversion 1].
  - rewrite result_bind_Ok. split.
    + intros (x & Hx & Hl). apply getitem_Ok in Hx. apply result_bind_Ok in Hl as (xs & Hxs & [= <-]).
      constructor; [done | by apply IH].
    + inversion 1 as [|? x ? xs Hx Hxs]; subst. exists x. split; [by apply getitem_Ok|].
      apply result_bind_Ok. exists xs. split; [by apply IH | done].
Qed.

Lemma take_idc_total {A} (arr : list A) idc :
  Forall (λ i, i < length arr)%nat idc → ∃ l, take_idc arr idc = Ok l.
Proof.
  induction 1 as [|i idc Hi _ [l IH]].
  - by exists [].
  - destruct (lookup_lt_is_Some_2 arr i Hi) as [x Hx].
    exists (x :: l). apply take_idc_Ok. constructor; [done | by apply take_idc_Ok].
Qed.

Lemma take_idc_length {A} (arr : list A) idc l :
  take_idc arr idc = Ok l → length l = length idc.
Proof. intros H%take_idc_Ok. by apply Forall2_length in H. Qed.

Lemma take_idc_seq {A} (pre arr : list A) :
  take_idc (pre ++ arr) (seq (length pre) (length arr)) = Ok arr.
Proof.
  revert pre. induction arr as [|x arr IH]; intros pre; [done|].
  apply take_idc_Ok. simpl. constructor.
  - by rewrite list_lookup_middle.
  - apply take_idc_Ok. specialize (IH (pre ++ [x])).
    rewrite <- app_assoc, length_app in IH. simpl in IH.
    by replace (length pre + 1)%nat with (S (length pre)) in IH by lia.
Qed.

Lemma take_idc_perm {A} (arr : list A) idc idc' l :
  idc ≡ₚ idc' → take_idc arr idc = Ok l →
  ∃ l', take_idc arr idc' = Ok l' ∧ l ≡ₚ l'.
Proof.
  intros Hp. revert l. induction Hp as [|i idc idc' _ IH|i j idc|idc1 idc2 idc3 _ IH1 _ IH2];
    intros l Hl.
  - exists l. done.
  - apply take_idc_Ok in Hl. inversion Hl as [|? x ? xs Hx Hxs]; subst.
    apply take_idc_Ok in Hxs. destruct (IH _ Hxs) as (l' & Hl' & Hperm).
    exists (x :: l'). split; [|by constructor].
    apply take_idc_Ok. constructor; [done | by apply take_idc_Ok].
  - apply take_idc_Ok in Hl. inversion Hl as [|? x ? xs Hx Hxs]; subst.
    inversion Hxs as [|? y ? ys Hy Hys]; subst.
    exists (y :: x :: ys). split; [|by constructor].
    apply take_idc_Ok. by repeat constructor.
  - destruct (IH1 _ Hl) as (l2 & Hl2 & Hp2).
    destruct (IH2 _ Hl2) as (l3 & Hl3 & Hp3).
    exists l3. split; [done | by etrans].
Qed.

(** Indexing by a permutation of all the indices reorders the array. *)
Lemma take_idc_permutation {A} (arr : list A) idc l :
  idc ≡ₚ seq 0 (length arr) → take_idc arr idc = Ok l → l ≡ₚ arr.
Proof.
  intros Hp Hl. destruct (take_idc_perm _ _ _ _ Hp Hl) as (l' & Hl' & Hperm).
  pose proof (take_idc_seq [] arr) as Hs. simpl in Hs. congruence.
Qed.

Lemma take_idc_zip {A B} (xs : list A) (ys : list B) idc lx ly :
  take_idc xs idc = Ok lx → take_idc ys idc = Ok ly →
  take_idc (zip xs ys) idc = Ok (zip lx ly).
Proof.
  rewrite !take_idc_Ok. intros Hx. revert ly.
  induction Hx as [|i x idc lx Hi _ IH]; intros ly Hy; inversion Hy; subst; simpl.
  - constructor.
  - constructor; [|by apply IH].
    rewrite lookup_zip_with. by simplify_option_eq.
Qed.

Lemma take_idc_fmap {A B} (f : A → B) (xs : list A) idc lx :
  take_idc xs idc = Ok lx → take_idc (f <$> xs) idc = Ok (f <$> lx).
Proof.
  rewrite !take_idc_Ok. induction 1; simpl; constructor; [|done].
  rewrite list_lookup_fmap. by simplify_option_eq.
Qed.

Section sort_by_facts.
Context {A : Type} (key : A → Z).

Lemma insert_by_perm x l : insert_by key x l ≡ₚ x :: l.
Proof.
  induction l as [|y l IH]; simpl; [done|].
  case_bool_decide; [done|]. rewrite IH. apply Permutation_swap.
Qed.

Lemma sort_by_perm l : sort_by key l ≡ₚ l.
Proof.
  induction l as [|x l IH]; simpl; [done|].
  by rewrite insert_by_perm, IH.
Qed.

Lemma insert_by_sorted x l :
  StronglySorted Z.le (key <$> l) →
  StronglySorted Z.le (key <$> insert_by key x l).
Proof.
  induction l as [|y l IH]; simpl; intros Hs.
  - repeat constructor.
  - apply StronglySorted_cons in Hs as [Hy Hs].
    case_bool_decide as Hxy; simpl.
    + apply StronglySorted_cons. split.
      * constructor; [done|]. eapply Forall_impl; [exact Hy|]. simpl. lia.
      * by apply StronglySorted_cons.
    + apply StronglySorted_cons. split; [|by apply IH].
      rewrite (insert_by_perm x l). simpl. constructor; [lia | done].
Qed.

Lemma sort_by_sorted l : StronglySorted Z.le (key <$> sort_by key l).
Proof.
  induction l as [|x l IH]; simpl; [constructor|]. by apply insert_by_sorted.
Qed.
End sort_by_facts.

Lemma StronglySorted_lookup_le (l : list Z) i j x y :
  StronglySorted Z.le l → l !! i = Some x → l !! j = Some y →
  (i ≤ j)%nat → x ≤ y.
Proof.
  intros Hs. revert i j. induction Hs as [|z l _ IH Hz]; intros i j Hi Hj Hij.
  - done.
  - destruct i as [|i], j as [|j]; simpl in *; simplify_eq; try lia.
    + rewrite Forall_forall in Hz. apply Hz. by eapply list_elem_of_lookup_2.
    + eapply IH; eauto. lia.
Qed.

Lemma binsearch_left_S fuel arr key lo hi :
  binsearch_left (S fuel) arr key lo hi =
  if bool_decide (lo < hi)%nat then
    match arr !! (lo + (hi - lo) / 2)%nat with
    | Some mid_val =>
        if bool_decide (mid_val < key)
        then binsearch_left fuel arr key (lo + (hi - lo) / 2 + 1)%nat hi
        else binsearch_left fuel arr key lo (lo + (hi - lo) / 2)%nat
    | None => lo
    end
  else lo.
Proof. reflexivity. Qed.

(** On a sorted array the binary search finds the partition point: the
    number of halvings allowed is enough, and the index returned separates
    the elements below [key] from the others. *)
Lemma binsearch_left_sorted fuel arr key lo hi :
  StronglySorted Z.le arr →
  (lo ≤ hi ≤ length arr)%nat → (hi - lo ≤ fuel)%nat →
  (∀ i x, arr !! i = Some x → (i < lo)%nat → x < key) →
  (∀ i x, arr !! i = Some x → (hi ≤ i)%nat → key ≤ x) →
  let r := binsearch_left fuel arr key lo hi in
  (lo ≤ r ≤ hi)%nat ∧ ∀ i x, arr !! i = Some x → (i < r)%nat ↔ x < key.
Proof.
  intros Hs. revert lo hi.
  induction fuel as [|fuel IH]; intros lo hi Hb Hf Hlo Hhi r; subst r;
    [simpl | rewrite binsearch_left_S].
  - assert (lo = hi) as -> by lia. split; [lia|]. intros i x Hi. split; [by eauto|].
    intros Hx. destruct (decide (i < hi)%nat); [done|]. specialize (Hhi i x Hi). lia.
  - case_bool_decide as Hlt; cycle 1.
    { assert (lo = hi) as -> by lia. split; [lia|]. intros i x Hi. split; [by eauto|].
      intros Hx. destruct (decide (i < hi)%nat); [done|]. specialize (Hhi i x Hi). lia. }
    pose proof (Nat.div_mod_eq (hi - lo) 2) as Hdm.
    pose proof (Nat.mod_upper_bound (hi - lo) 2) as Hmod.
    set (mid := (lo + (hi - lo) / 2)%nat) in *.
    assert (lo ≤ mid < hi)%nat as Hmid by (unfold mid; lia).
    destruct (lookup_lt_is_Some_2 arr mid) as [m Hm]; [lia|]. rewrite Hm.
    case_bool_decide as Hmk.
    + edestruct (IH (mid + 1)%nat hi) as [Hr1 Hr2]; [lia | unfold mid; lia | | done |].
      * intros i x Hi Him. destruct (decide (i < lo)%nat); [by eauto|].
        pose proof (StronglySorted_lookup_le arr i mid x m Hs Hi Hm). lia.
      * split; [lia | done].
    + edestruct (IH lo mid) as [Hr1 Hr2]; [lia | unfold mid; lia | done | |].
      * intros i x Hi Him. destruct (decide (hi ≤ i)%nat); [by eauto|].
        pose proof (StronglySorted_lookup_le arr mid i m x Hs Hm Hi). lia.
      * split; [lia | done].
Qed.

Lemma searchsorted_sorted arr key :
  StronglySorted Z.le arr →
  (searchsorted arr key ≤ length arr)%nat ∧
  ∀ i x, arr !! i = Some x → (i < searchsorted arr key)%nat ↔ x < key.
Proof.
  intros Hs. unfold searchsorted.
  edestruct (binsearch_left_sorted (length arr) arr key 0 (length arr)) as [H1 H2];
    [done | lia | lia | intros; lia | | split; [lia | done]].
  intros i x Hi Hle. apply lookup_lt_Some in Hi. lia.
Qed.

(** A predicate that holds exactly on the positions [lo .. hi-1] selects the
    slice [l[lo:hi]]. *)
Lemma filter_slice {A} (P : A → Prop) `{Hdec : !∀ x, Decision (P x)} (l : list A) lo hi :
  (∀ i x, l !! i = Some x → P x ↔ (lo ≤ i < hi)%nat) →
  filter P l = slice l lo hi.
Proof.
  unfold slice. revert lo hi. induction l as [|x l IH]; intros lo hi H.
  - by rewrite drop_nil, take_nil.
  - rewrite filter_cons. destruct lo as [|lo].
    + rewrite drop_0, Nat.sub_0_r. destruct hi as [|hi].
      * rewrite decide_False; [|intros Hx; apply (H 0%nat x) in Hx; [lia | done]].
        rewrite (IH 0%nat 0%nat); [by rewrite take_0|].
        intros i y Hi. rewrite (H (S i) y Hi). lia.
      * rewrite decide_True; [|apply (H 0%nat x); [done | lia]].
        simpl. f_equal. rewrite (IH 0%nat hi); [by rewrite drop_0, Nat.sub_0_r|].
        intros i y Hi. rewrite (H (S i) y Hi). lia.
    + rewrite decide_False; [|intros Hx; apply (H 0%nat x) in Hx; [lia | done]].
      simpl. rewrite (IH lo (pred hi)).
      * f_equal. lia.
      * intros i y Hi. rewrite (H (S i) y Hi). lia.
Qed.

Lemma slice_zip {A B} (xs : list A) (ys : list B) lo hi :
  slice (zip xs ys) lo hi = zip (slice xs lo hi) (slice ys lo hi).
Proof. unfold slice. by rewrite zip_with_drop, zip_with_take. Qed.

Lemma filter_none {A} (P : A → Prop) `{Hdec : !∀ x, Decision (P x)} (l : list A) :
  Forall (λ x, ¬ P x) l → filter P l = [].
Proof.
  induction 1 as [|x l Hx _ IH]; [done|].
  rewrite filter_cons, decide_False by done. exact IH.
Qed.

Lemma sublist_elem_of {A} (l1 l2 : list A) x :
  x ∈ l1 → l1 `sublist_of` l2 → x ∈ l2.
Proof. intros Hx Hsub. by apply (sublist_subseteq _ _ Hsub). Qed.

Lemma elem_of_app_left {A} (l1 l2 : list A) x : x ∈ l1 → x ∈ l1 ++ l2.
Proof. intros. apply elem_of_app. by left. Qed.

Lemma elem_of_app_right {A} (l1 l2 : list A) x : x ∈ l2 → x ∈ l1 ++ l2.
Proof. intros. apply elem_of_app. by right. Qed.

(** ** The timestamp indices *)

Lemma stable_argsort_perm ts : stable_argsort ts ≡ₚ seq 0 (length ts).
Proof. apply sort_by_perm. Qed.

Lemma stable_argsort_sorted ts l :
  take_idc ts (stable_argsort ts) = Ok l → StronglySorted Z.le l.
Proof.
  intros Hl%take_idc_Ok.
  assert (l = (λ i, default 0 (ts !! i)) <$> stable_argsort ts) as ->.
  { induction Hl as [|i x idc l Hi _ IH]; simpl; [done|]. rewrite Hi. simpl. by f_equal. }
  apply sort_by_sorted.
Qed.

Lemma StronglySorted_slice (l : list Z) lo hi :
  StronglySorted Z.le l → StronglySorted Z.le (slice l lo hi).
Proof.
  intros Hs. unfold slice.
  rewrite <- (take_drop lo l) in Hs. apply StronglySorted_app_1_r in Hs.
  rewrite <- (take_drop (hi - lo) (drop lo l)) in Hs.
  by apply StronglySorted_app_1_l in Hs.
Qed.

Lemma list_insert_at_perm {X} i (x : X) l : list_insert_at i x l ≡ₚ x :: l.
Proof.
  unfold list_insert_at. rewrite <- Permutation_middle. by rewrite take_drop.
Qed.

Lemma list_insert_at_length {X} i (x : X) l :
  length (list_insert_at i x l) = S (length l).
Proof. by rewrite list_insert_at_perm. Qed.

Lemma list_insert_at_zip {X Y} i (x : X) (y : Y) xs ys :
  length xs = length ys →
  zip (list_insert_at i x xs) (list_insert_at i y ys)
  = list_insert_at i (x, y) (zip xs ys).
Proof.
  unfold list_insert_at. revert xs ys.
  induction i as [|i IH]; intros [|x' xs] [|y' ys] Hlen; simpl in *; try done.
  f_equal. apply IH. lia.
Qed.

Section Bisector_facts.
Context {A : Type}.
Variable argsort : list Z → list nat.
Hypothesis argsort_perm : ∀ ts, argsort ts ≡ₚ seq 0 (length ts).
Hypothesis argsort_sorted :
  ∀ ts l, take_idc ts (argsort ts) = Ok l → StronglySorted Z.le l.

Implicit Types (b : Bisector A) (af : Affiliator A).

Lemma Bisector_init_total (data0 : list A) ts0 :
  length data0 = length ts0 → ∃ b, Bisector_init argsort data0 ts0 = Ok b.
Proof.
  intros Hlen. unfold Bisector_init. rewrite bool_decide_false by (intros ?; done).
  destruct data0 as [|x data0]; [by eauto|].
  assert (Forall (λ i, i < length ts0)%nat (argsort ts0)) as Hb.
  { rewrite (argsort_perm ts0). apply Forall_forall. intros i Hi%elem_of_seq. lia. }
  destruct (take_idc_total ts0 _ Hb) as [ts Hts]. rewrite <- Hlen in Hb.
  destruct (take_idc_total (x :: data0) _ Hb) as [d Hd].
  exists (mkBisector d ts (argsort ts0)). by rewrite Hts, Hd.
Qed.

Lemma Bisector_init_Ok (data0 : list A) ts0 b :
  Bisector_init argsort data0 ts0 = Ok b →
  length data0 = length ts0 ∧
  Bisector_inv b ∧
  sorted_idc b ≡ₚ seq 0 (length data0) ∧
  take_idc data0 (sorted_idc b) = Ok (data b) ∧
  take_idc ts0 (sorted_idc b) = Ok (data_ts b).
Proof.
  unfold Bisector_init. case_bool_decide as Hlen; [done|].
  destruct data0 as [|x data0].
  - intros [= <-]. destruct ts0; [|done]. repeat split; simpl; try done. constructor.
  - intros (ts & Hts & (d & Hd & [= <-])%result_bind_Ok)%result_bind_Ok.
    unfold Bisector_inv; simpl. repeat split; try done.
    + apply take_idc_length in Hd, Hts. congruence.
    + by eapply argsort_sorted.
    + change (argsort ts0 ≡ₚ seq 0 (length (x :: data0))). rewrite Hlen. apply argsort_perm.
Qed.

Lemma Bisector_init_perm (data0 : list A) ts0 b :
  Bisector_init argsort data0 ts0 = Ok b →
  zip (data b) (data_ts b) ≡ₚ zip data0 ts0.
Proof.
  intros (Hlen & _ & Hp & Hd & Hts)%Bisector_init_Ok.
  eapply take_idc_permutation; [|by apply take_idc_zip].
  rewrite length_zip_with_l_eq; done.
Qed.

Lemma Bisector_init_ts_perm (data0 : list A) ts0 b :
  Bisector_init argsort data0 ts0 = Ok b → data_ts b ≡ₚ ts0.
Proof.
  intros (Hlen & _ & Hp & Hd & Hts)%Bisector_init_Ok.
  eapply take_idc_permutation; [|done]. by rewrite <- Hlen.
Qed.

Lemma by_ts_found b ts :
  Bisector_inv b → ts ∈ data_ts b →
  ∃ d, by_ts b ts = Ok d ∧ (d, ts) ∈ zip (data b) (data_ts b).
Proof.
  intros [Hlen Hs] (j & Hj)%list_elem_of_lookup_1.
  destruct (searchsorted_sorted (data_ts b) ts Hs) as [Hr Hpart].
  set (r := searchsorted (data_ts b) ts) in *.
  assert (r ≤ j)%nat as Hrj.
  { pose proof (Hpart j ts Hj) as Hjj. lia. }
  destruct (lookup_lt_is_Some_2 (data_ts b) r) as [y Hy];
    [apply lookup_lt_Some in Hj; lia|].
  destruct (lookup_lt_is_Some_2 (data b) r) as [d Hd];
    [apply lookup_lt_Some in Hy; lia|].
  assert (y = ts) as ->.
  { pose proof (StronglySorted_lookup_le _ r j y ts Hs Hy Hj Hrj).
    pose proof (Hpart r y Hy) as Hrr. lia. }
  exists d. split.
  - unfold by_ts. fold r. unfold getitem. rewrite Hd, Hy. simpl.
    by rewrite bool_decide_true.
  - apply list_elem_of_lookup_2 with r. rewrite lookup_zip_with, Hd, Hy. done.
Qed.

Lemma by_ts_not_found b ts :
  ts ∉ data_ts b → by_ts b ts = Raise ValueError.
Proof.
  intros Hnot. unfold by_ts, getitem.
  destruct (data b !! _) as [d|]; simpl; [|done].
  destruct (data_ts b !! _) as [y|] eqn:Hy; simpl; [|done].
  case_bool_decide as Heq; [|done]. subst y.
  destruct Hnot. by eapply list_elem_of_lookup_2.
Qed.

Lemma by_ts_window_filter b a c :
  Bisector_inv b →
  let lo := searchsorted (data_ts b) a in
  let hi := searchsorted (data_ts b) c in
  by_ts_window b (a, c) = slice (data b) lo hi ∧
  zip (slice (data b) lo hi) (slice (data_ts b) lo hi)
  = filter (λ p, a ≤ p.2 < c) (zip (data b) (data_ts b)).
Proof.
  intros [Hlen Hs] lo hi. split; [done|].
  rewrite <- slice_zip. symmetry. apply filter_slice.
  intros i [d t] Hi. apply lookup_zip_with_Some in Hi as (? & ? & [= <- <-] & Hd & Ht).
  simpl.
  destruct (searchsorted_sorted (data_ts b) a Hs) as [_ Ha].
  destruct (searchsorted_sorted (data_ts b) c Hs) as [_ Hc].
  specialize (Ha i _ Ht). specialize (Hc i _ Ht). fold lo in Ha. fold hi in Hc. lia.
Qed.

Lemma Mutable_Bisector_insert_inv b ts d :
  Bisector_inv b →
  Bisector_inv (Mutable_Bisector_insert b ts d) ∧
  zip (data (Mutable_Bisector_insert b ts d))
      (data_ts (Mutable_Bisector_insert b ts d))
  ≡ₚ (d, ts) :: zip (data b) (data_ts b).
Proof.
  intros [Hlen Hs]. unfold Mutable_Bisector_insert, Bisector_inv; simpl.
  destruct (searchsorted_sorted (data_ts b) ts Hs) as [Hr Hpart].
  set (r := searchsorted (data_ts b) ts) in *.
  split; [split|].
  - rewrite !list_insert_at_length. by rewrite Hlen.
  - unfold list_insert_at. rewrite <- (take_drop r (data_ts b)) in Hs.
    apply StronglySorted_app in Hs as (Hcross & Hs1 & Hs2).
    apply StronglySorted_app. split_and!; [|done|].
    + intros x1 x2 [i Hi]%list_elem_of_lookup_1 Hx2.
      apply lookup_take_Some in Hi as [Hi Hir].
      assert (x1 < ts) by (apply (Hpart i x1 Hi); lia).
      apply elem_of_cons in Hx2 as [->|Hx2]; [lia|].
      apply Hcross; [|done]. apply list_elem_of_lookup_2 with i.
      by apply lookup_take_Some.
    + apply StronglySorted_cons. split; [|done].
      apply Forall_forall. intros x [i Hi]%list_elem_of_lookup_1.
      rewrite lookup_drop in Hi.
      pose proof (Hpart _ x Hi) as Hrr. lia.
  - rewrite list_insert_at_zip by done. apply list_insert_at_perm.
Qed.

(** C7.  [by_ts] on a constructed index returns a datum paired with [ts]
    exactly when [ts] occurs in the timestamps the index was built from, and
    raises [ValueError] (the not-found error) otherwise: in particular for a
    [ts] outside the range of the index and for the empty index. *)
Theorem by_ts_iff_present (data0 : list A) ts0 b ts :
  Bisector_init argsort data0 ts0 = Ok b →
  (ts ∈ ts0 → ∃ d, by_ts b ts = Ok d ∧ (d, ts) ∈ zip data0 ts0) ∧
  (ts ∉ ts0 → by_ts b ts = Raise ValueError) ∧
  ((∀ t, t ∈ ts0 → t < ts ∨ ts < t) → by_ts b ts = Raise ValueError) ∧
  (ts0 = [] → by_ts b ts = Raise ValueError).
Proof.
  intros Hinit.
  pose proof (Bisector_init_Ok _ _ _ Hinit) as (_ & Hinv & _).
  pose proof (Bisector_init_perm _ _ _ Hinit) as Hzip.
  pose proof (Bisector_init_ts_perm _ _ _ Hinit) as Hts.
  assert (ts ∉ ts0 → by_ts b ts = Raise ValueError) as Hnot.
  { intros Hn. apply by_ts_not_found. by rewrite Hts. }
  split_and!; [|done| |].
  - intros Hin. rewrite <- Hts in Hin.
    destruct (by_ts_found b ts Hinv Hin) as (d & Hd & Hdt).
    exists d. split; [done|]. by rewrite <- Hzip.
  - intros Hall. apply Hnot. intros Hin. specialize (Hall _ Hin). lia.
  - intros ->. apply Hnot. apply not_elem_of_nil.
Qed.

(** C8.  [by_ts_window] on a constructed index returns one contiguous slice
    of the data, whose timestamps ascend, and which holds exactly the input
    elements with [a ≤ t < c]: it is empty when there is none. *)
Theorem by_ts_window_exact (data0 : list A) ts0 b a c :
  Bisector_init argsort data0 ts0 = Ok b →
  let r := by_ts_window b (a, c) in
  (∃ lo hi : nat, r = slice (data b) lo hi ∧
     let rts := slice (data_ts b) lo hi in
     length rts = length r ∧ StronglySorted Z.le rts ∧
     zip r rts ≡ₚ filter (λ p, a ≤ p.2 < c) (zip data0 ts0)) ∧
  ((∀ t, t ∈ ts0 → ¬ (a ≤ t < c)) → r = []).
Proof.
  intros Hinit r.
  pose proof (Bisector_init_Ok _ _ _ Hinit) as (Hlen0 & Hinv & _).
  pose proof (Bisector_init_perm _ _ _ Hinit) as Hzip.
  destruct (by_ts_window_filter b a c Hinv) as [Hr Hf]. fold r in Hr.
  destruct Hinv as [Hlen Hs].
  assert (zip r (slice (data_ts b) (searchsorted (data_ts b) a)
                   (searchsorted (data_ts b) c))
          ≡ₚ filter (λ p, a ≤ p.2 < c) (zip data0 ts0)) as Hperm.
  { rewrite Hr, Hf. by rewrite Hzip. }
  assert (length (slice (data_ts b) (searchsorted (data_ts b) a)
                    (searchsorted (data_ts b) c)) = length r) as Hlr.
  { rewrite Hr. unfold slice. rewrite !length_take, !length_drop. lia. }
  split.
  - eexists _, _. split; [exact Hr|]. split_and!; [done | by apply StronglySorted_slice | done].
  - intros Hnone.
    assert (filter (λ p : A * Z, a ≤ p.2 < c) (zip data0 ts0) = []) as Hnil.
    { apply filter_none. apply Forall_forall. intros [d t] Hin. simpl.
      apply Hnone. apply (list_elem_of_fmap_2 snd) in Hin. simpl in Hin.
      rewrite snd_zip in Hin by lia. done. }
    rewrite Hnil in Hperm. apply Permutation_nil_r in Hperm.
    destruct r; [done|]. destruct (slice (data_ts b) _ _); simpl in *; done.
Qed.

(** C9.  The invariant of the index, equal lengths and ascending timestamps,
    is established by the construction, which reorders both arrays by the
    one permutation [sorted_idc] and accepts the empty input, and is
    preserved by [Mutable_Bisector.insert], which adds the new pair. *)
Theorem Bisector_invariant_maintained :
  (∀ (data0 : list A) ts0, length data0 = length ts0 →
     ∃ b, Bisector_init argsort data0 ts0 = Ok b ∧ Bisector_inv b ∧
          sorted_idc b ≡ₚ seq 0 (length data0) ∧
          take_idc data0 (sorted_idc b) = Ok (data b) ∧
          take_idc ts0 (sorted_idc b) = Ok (data_ts b) ∧
          zip (data b) (data_ts b) ≡ₚ zip data0 ts0) ∧
  (∀ (data0 : list A) ts0, length data0 ≠ length ts0 →
     Bisector_init argsort data0 ts0 = Raise ValueError) ∧
  Bisector_init argsort (@nil A) [] = Ok (mkBisector [] [] []) ∧
  Bisector_inv (mkBisector (@nil A) [] []) ∧
  (∀ b ts (d : A), Bisector_inv b →
     Bisector_inv (Mutable_Bisector_insert b ts d) ∧
     zip (data (Mutable_Bisector_insert b ts d))
         (data_ts (Mutable_Bisector_insert b ts d))
     ≡ₚ (d, ts) :: zip (data b) (data_ts b)).
Proof.
  split_and!.
  - intros data0 ts0 Hlen. destruct (Bisector_init_total data0 ts0 Hlen) as [b Hb].
    exists b. split; [done|].
    pose proof (Bisector_init_Ok _ _ _ Hb) as (_ & ? & ? & ? & ?).
    split_and!; try done. by apply Bisector_init_perm.
  - intros data0 ts0 Hlen. unfold Bisector_init. by rewrite bool_decide_true.
  - reflexivity.
  - split; [done | constructor].
  - apply Mutable_Bisector_insert_inv.
Qed.

Lemma Affiliator_init_Ok (data0 : list A) starts stops af :
  Affiliator_init argsort data0 starts stops = Ok af →
  Bisector_init argsort data0 starts = Ok (bisector af) ∧
  take_idc stops (sorted_idc (bisector af)) = Ok (stop_ts af).
Proof.
  unfold Affiliator_init.
  intros (b & Hb & (st & Hst & [= <-])%result_bind_Ok)%result_bind_Ok. done.
Qed.

(** C6, as amended.  When the stop array of a constructed [Affiliator] is
    ascending as well, [by_ts_window] returns exactly the intervals with
    [stop ≥ a] and [start < c]; the range starts at the first index whose
    stop is [≥ a] and ends at the first index whose start is [≥ c]. *)
Theorem Affiliator_window_sorted_stops (data0 : list A) starts stops af a c :
  Affiliator_init argsort data0 starts stops = Ok af →
  StronglySorted Z.le (stop_ts af) →
  let start_idx := searchsorted (stop_ts af) a in
  let stop_idx := searchsorted (data_ts (bisector af)) c in
  by_ts_window af (a, c) = (filter (overlaps a c) (intervals af)).*1 ∧
  by_ts_window af (a, c) = slice (data (bisector af)) start_idx stop_idx ∧
  first_index_ge (stop_ts af) a start_idx ∧
  first_index_ge (data_ts (bisector af)) c stop_idx ∧
  (length stops = length data0 →
   intervals af ≡ₚ zip data0 (zip starts stops)).
Proof.
  intros (Hb & Hst)%Affiliator_init_Ok Hss start_idx stop_idx.
  pose proof (Bisector_init_Ok _ _ _ Hb) as (Hlen0 & [Hlen Hs] & Hp & Hd & Hts).
  destruct (searchsorted_sorted (stop_ts af) a Hss) as [Ha1 Ha].
  destruct (searchsorted_sorted (data_ts (bisector af)) c Hs) as [Hc1 Hc].
  fold start_idx in Ha1, Ha. fold stop_idx in Hc1, Hc.
  assert (length (stop_ts af) = length (data (bisector af))) as Hlst.
  { apply take_idc_length in Hst, Hd. congruence. }
  assert (∀ arr key r, (r ≤ length arr)%nat →
            (∀ i x, arr !! i = Some x → (i < r)%nat ↔ x < key) →
            first_index_ge arr key r) as Hfirst.
  { intros arr key r Hr Hpart. split_and!; [done | intros i x Hi; by apply Hpart |].
    intros x Hx. pose proof (Hpart r x Hx). lia. }
  split_and!; [|done|by apply Hfirst|by apply Hfirst|].
  - unfold intervals.
    rewrite (filter_slice _ _ start_idx stop_idx).
    + rewrite slice_zip, fst_zip; [done|].
      unfold slice.
      rewrite !length_take, !length_drop, !length_zip_with. lia.
    + intros i [d [s e]] Hi.
      apply lookup_zip_with_Some in Hi as (? & [s' e'] & [= <- <- <-] & _ & Hi).
      apply lookup_zip_with_Some in Hi as (? & ? & [= <- <-] & Hsi & Hei).
      unfold overlaps; simpl. specialize (Ha i _ Hei). specialize (Hc i _ Hsi). lia.
  - intros Hlen2. unfold intervals.
    eapply take_idc_permutation; [|apply take_idc_zip; [exact Hd | by apply take_idc_zip]].
    rewrite length_zip_with_l_eq; [done|]. rewrite length_zip_with_l_eq; lia.
Qed.
End Bisector_facts.

(** *** The scenarios of the specification, and instances *)

Local Open Scope string_scope.

Example scenario1_construct :
  Bisector_init stable_argsort ["a"; "b"; "c"] [5; 1; 3]
  = Ok (mkBisector ["b"; "c"; "a"] [1; 3; 5] [1; 2; 0]%nat).
Proof. reflexivity. Qed.

Example scenario1_lookup_exact :
  by_ts (mkBisector ["b"; "c"; "a"] [1; 3; 5] [1; 2; 0]%nat) 3 = Ok "c" ∧
  by_ts (mkBisector ["b"; "c"; "a"] [1; 3; 5] [1; 2; 0]%nat) 4 = Raise ValueError ∧
  by_ts (mkBisector ["b"; "c"; "a"] [1; 3; 5] [1; 2; 0]%nat) 9 = Raise ValueError ∧
  by_ts (mkBisector (@nil string) [] []) 3 = Raise ValueError.
Proof. repeat split. Qed.

Example scenario1_lookup_window :
  by_ts_window (mkBisector ["b"; "c"; "a"] [1; 3; 5] [1; 2; 0]%nat) (2, 6)
  = ["c"; "a"].
Proof. reflexivity. Qed.

Example scenario4_interval_overlap :
  (af ← Affiliator_init stable_argsort ["x"; "y"; "z"] [0; 10; 20] [5; 15; 25];
   Ok (by_ts_window af (4, 12))) = Ok ["x"; "y"].
Proof. reflexivity. Qed.

Lemma by_ts_iff_present_witness :
  let b := mkBisector ["b"; "c"; "a"] [1; 3; 5] [1; 2; 0]%nat in
  Bisector_init stable_argsort ["a"; "b"; "c"] [5; 1; 3] = Ok b ∧
  (3 ∈ [5; 1; 3] → ∃ d, by_ts b 3 = Ok d ∧ (d, 3) ∈ zip ["a"; "b"; "c"] [5; 1; 3]).
Proof.
  split; [reflexivity|].
  exact (proj1 (by_ts_iff_present stable_argsort stable_argsort_perm
                  stable_argsort_sorted ["a"; "b"; "c"] [5; 1; 3] _ 3 eq_refl)).
Defined.

Lemma by_ts_window_exact_witness :
  let b := mkBisector ["b"; "c"; "a"] [1; 3; 5] [1; 2; 0]%nat in
  Bisector_init stable_argsort ["a"; "b"; "c"] [5; 1; 3] = Ok b ∧
  by_ts_window b (2, 6) = ["c"; "a"] ∧
  ((∀ t, t ∈ [5; 1; 3] → ¬ (7 ≤ t < 9)) → by_ts_window b (7, 9) = []).
Proof.
  split; [reflexivity|]. split; [reflexivity|].
  exact (proj2 (by_ts_window_exact stable_argsort stable_argsort_perm
                  stable_argsort_sorted ["a"; "b"; "c"] [5; 1; 3] _ 7 9 eq_refl)).
Defined.

Lemma Bisector_invariant_maintained_witness :
  let b := mkBisector ["b"; "c"; "a"] [1; 3; 5] [1; 2; 0]%nat in
  Bisector_inv b ∧
  Mutable_Bisector_insert b 4 "d" = mkBisector ["b"; "c"; "d"; "a"] [1; 3; 4; 5] [1; 2; 0]%nat ∧
  Bisector_inv (Mutable_Bisector_insert b 4 "d").
Proof.
  assert (Bisector_inv (mkBisector ["b"; "c"; "a"] [1; 3; 5] [1; 2; 0]%nat)) as Hinv.
  { split; [reflexivity|]. repeat constructor; lia. }
  split; [exact Hinv|]. split; [reflexivity|].
  exact (proj1 (proj2 (proj2 (proj2 (proj2
    (Bisector_invariant_maintained stable_argsort stable_argsort_perm
       stable_argsort_sorted)))) _ 4 "d" Hinv)).
Defined.

(** C6, as stated, fails: the stop array is searched as if it were sorted,
    and it need not be.  With the intervals (0,100), (1,2), (3,4) and the
    window [3,10), the interval (0,100) overlaps the window and is not
    returned, and the range does not start at the first index whose stop is
    [≥ 3]. *)
Lemma Affiliator_window_unsorted_stops :
  ∃ af, Affiliator_init stable_argsort ["A"; "B"; "C"] [0; 1; 3] [100; 2; 4]
        = Ok af ∧
    by_ts_window af (3, 10) = ["C"] ∧
    (filter (overlaps 3 10) (intervals af)).*1 = ["A"; "C"] ∧
    searchsorted (stop_ts af) 3 = 2%nat ∧
    ¬ first_index_ge (stop_ts af) 3 (searchsorted (stop_ts af) 3).
Proof.
  eexists. split; [reflexivity|]. split; [reflexivity|]. split; [reflexivity|].
  split; [reflexivity|].
  intros (_ & Hbefore & _).
  assert (100 < 3) as Habs by (apply (Hbefore 0%nat 100 eq_refl); vm_compute; lia).
  lia.
Qed.

Lemma Affiliator_window_sorted_stops_witness :
  ∃ af, Affiliator_init stable_argsort ["x"; "y"; "z"] [0; 10; 20] [5; 15; 25]
        = Ok af ∧
    StronglySorted Z.le (stop_ts af) ∧
    by_ts_window af (4, 12) = (filter (overlaps 4 12) (intervals af)).*1.
Proof.
  eexists. split; [reflexivity|].
  assert (StronglySorted Z.le [5; 15; 25]) as Hs by (repeat constructor; lia).
  split; [exact Hs|].
  exact (proj1 (Affiliator_window_sorted_stops stable_argsort stable_argsort_perm
                  stable_argsort_sorted ["x"; "y"; "z"] [0; 10; 20] [5; 15; 25]
                  _ 4 12 eq_refl Hs)).
Defined.

Local Close Scope string_scope.

(** ** Frame correlation *)

Lemma Qle_bool_inject_mono (t t' : Z) (m : Q) :
  t ≤ t' → Qle_bool (inject_Z t') m = true → Qle_bool (inject_Z t) m = true.
Proof.
  intros Hle H. apply Qle_bool_iff in H. apply Qle_bool_iff.
  eapply Qle_trans; [|exact H]. rewrite <- Zle_Qle. exact Hle.
Qed.

Lemma alter_fmap_seq {X} (g : X → X) (h : nat → X) f n :
  alter g f (h <$> seq 0 n)
  = (λ i, if decide (i = f) then g (h i) else h i) <$> seq 0 n.
Proof.
  apply list_eq. intros i.
  destruct (decide (i = f)) as [->|Hne].
  - rewrite list_lookup_alter_eq, !list_lookup_fmap.
    destruct (seq 0 n !! f) as [j|] eqn:Hj; simpl; [|done].
    apply lookup_seq in Hj as [-> _]. simpl. by rewrite decide_True.
  - rewrite list_lookup_alter_ne by done. rewrite !list_lookup_fmap.
    destruct (seq 0 n !! i) as [j|] eqn:Hj; simpl; [|done].
    apply lookup_seq in Hj as [-> _]. simpl. by rewrite decide_False.
Qed.

Section correlate_facts.
Context {P : Type}.
Implicit Types (d : datum P) (data : list (datum P)).

Lemma midpoints_lookup (ts : list Z) i :
  midpoints ts !! i
  = t0 ← ts !! i; t1 ← ts !! S i; Some (midpoint t0 t1).
Proof.
  revert i. induction ts as [|t0 ts IH]; intros i; [done|].
  destruct ts as [|t1 ts]; [by destruct i|].
  destruct i as [|i]; [done|]. apply (IH i).
Qed.

Lemma midpoints_length (ts : list Z) :
  length (midpoints ts) = (length ts - 1)%nat.
Proof.
  induction ts as [|t0 ts IH]; [done|].
  destruct ts as [|t1 ts]; [done|]. simpl in *. rewrite IH. lia.
Qed.

Lemma first_frame_Some (mids : list Q) t i :
  first_frame mids t = Some i ↔
  ∃ m, mids !! i = Some m ∧ Qle_bool (inject_Z t) m = true ∧
       ∀ j m', (j < i)%nat → mids !! j = Some m' →
               Qle_bool (inject_Z t) m' = false.
Proof.
  revert i. induction mids as [|m mids IH]; intros i; simpl.
  - split; [done | by intros (? & ? & _)].
  - destruct (Qle_bool (inject_Z t) m) eqn:Hm.
    + split.
      * intros [= <-]. exists m. split_and!; [done..|]. intros; lia.
      * intros (m' & Hi & _ & Hbefore). destruct i as [|i]; [done|].
        specialize (Hbefore 0%nat m). rewrite Hm in Hbefore.
        discriminate Hbefore; [lia | done].
    + destruct i as [|i].
      * split; [intros (? & _ & [=])%fmap_Some|].
        intros (m' & [= <-] & Hle & _). congruence.
      * rewrite fmap_Some. split.
        -- intros (i' & Hff & [= ->]). apply IH in Hff as (m' & Hi & Hle & Hbefore).
           exists m'. split_and!; [done..|].
           intros [|j] m'' Hj Hjm; simpl in Hjm; [congruence|].
           eapply Hbefore; [|done]. lia.
        -- intros (m' & Hi & Hle & Hbefore). exists i. split; [|done].
           apply IH. exists m'. split_and!; [done..|].
           intros j m'' Hj Hjm. apply (Hbefore (S j) m''); [lia | done].
Qed.

Lemma first_frame_None (mids : list Q) t :
  first_frame mids t = None ↔
  ∀ m, m ∈ mids → Qle_bool (inject_Z t) m = false.
Proof.
  induction mids as [|m mids IH]; simpl.
  - split; [intros _ m Hm; by apply elem_of_nil in Hm | done].
  - destruct (Qle_bool (inject_Z t) m) eqn:Hm.
    + split; [done|]. intros Hall. rewrite (Hall m) in Hm; [done|]. by left.
    + rewrite fmap_None, IH. split.
      * intros Hall m' [->|Hm']%elem_of_cons; [done | by apply Hall].
      * intros Hall m' Hm'. apply Hall. by right.
Qed.

Lemma first_frame_lt_length (mids : list Q) t i :
  first_frame mids t = Some i → (i < length mids)%nat.
Proof.
  intros (m & Hm & _)%first_frame_Some. by apply lookup_lt_Some in Hm.
Qed.

Lemma correlate_loop_buckets fuel data (ts : list Z) f k :
  StronglySorted Z.le (timestamp <$> data) →
  ((length data - k) + (length ts - f) ≤ fuel)%nat →
  (∀ j m k' d, (j < f)%nat → midpoints ts !! j = Some m →
     (k ≤ k')%nat → data !! k' = Some d →
     Qle_bool (inject_Z (timestamp d)) m = false) →
  correlate_loop fuel data ts f k
    ((λ i, filter (in_bucket (midpoints ts) i) (take k data))
       <$> seq 0 (length ts))
  = Ok ((λ i, filter (in_bucket (midpoints ts) i) data) <$> seq 0 (length ts)).
Proof.
  intros Hs. revert f k.
  assert (∀ f k, (length data ≤ k ∨ length ts ≤ f + 1)%nat →
    (∀ j m k' d, (j < f)%nat → midpoints ts !! j = Some m →
       (k ≤ k')%nat → data !! k' = Some d →
       Qle_bool (inject_Z (timestamp d)) m = false) →
    ((λ i, filter (in_bucket (midpoints ts) i) (take k data))
       <$> seq 0 (length ts))
    = ((λ i, filter (in_bucket (midpoints ts) i) data) <$> seq 0 (length ts)))
    as Hdone.
  { intros f k Hend Hpast. apply list_fmap_ext. intros _ i _.
    rewrite <- (take_drop k data) at 2. rewrite filter_app.
    rewrite (filter_none _ (drop k data)); [by rewrite app_nil_r|].
    apply Forall_forall. intros d [k' Hk']%list_elem_of_lookup_1.
    rewrite lookup_drop in Hk'. intros (m & Hm & Hle & _)%first_frame_Some.
    destruct Hend as [Hend|Hend]; [apply lookup_lt_Some in Hk'; lia|].
    assert (i < f)%nat as Hif.
    { rewrite midpoints_lookup in Hm.
      destruct (ts !! i) eqn:?; simpl in Hm; [|done].
      destruct (ts !! S i) eqn:Hsi; simpl in Hm; [|done].
      apply lookup_lt_Some in Hsi. lia. }
    rewrite (Hpast i m (k + k')%nat d Hif Hm) in Hle; [done | lia | done]. }
  induction fuel as [|fuel IH]; intros f k Hfuel Hpast.
  - simpl. f_equal. apply (Hdone f k); [lia | done].
  - simpl. unfold getitem.
    destruct (data !! k) as [d|] eqn:Hd; simpl; cycle 1.
    { f_equal. apply lookup_ge_None in Hd. apply (Hdone f k); [lia | done]. }
    destruct (ts !! f) as [t0|] eqn:Ht0; simpl; cycle 1.
    { f_equal. apply lookup_ge_None in Ht0. apply (Hdone f k); [lia | done]. }
    destruct (ts !! (f + 1)%nat) as [t1|] eqn:Ht1; simpl; cycle 1.
    { f_equal. apply lookup_ge_None in Ht1. apply (Hdone f k); [lia | done]. }
    assert (midpoints ts !! f = Some (midpoint t0 t1)) as Hmf.
    { rewrite midpoints_lookup, Ht0. simpl.
      replace (S f) with (f + 1)%nat by lia. by rewrite Ht1. }
    apply lookup_lt_Some in Ht1 as Hf1. apply lookup_lt_Some in Hd as Hk.
    destruct (Qle_bool (inject_Z (timestamp d)) (midpoint t0 t1)) eqn:Hle.
    + rewrite alter_fmap_seq.
      assert (in_bucket (midpoints ts) f d) as Hin.
      { apply first_frame_Some. exists (midpoint t0 t1). split_and!; [done..|].
        intros j m' Hj Hm'. by apply (Hpast j m' k d). }
      rewrite <- (IH f (k + 1)%nat); [|lia|].
      * f_equal. apply list_fmap_ext. intros _ i _.
        replace (k + 1)%nat with (S k) by lia.
        rewrite (take_S_r _ _ _ Hd), filter_app, filter_cons, filter_nil.
        destruct (decide (i = f)) as [->|Hne].
        -- by rewrite decide_True.
        -- rewrite decide_False; [by rewrite app_nil_r|].
           unfold in_bucket in *. congruence.
      * intros j m k' d' Hj Hm Hk' Hd'. apply (Hpast j m k' d'); [done..|lia|done].
    + apply (IH (f + 1)%nat k); [lia|].
      intros j m k' d' Hj Hm Hk' Hd'.
      destruct (decide (j = f)) as [->|Hne]; [|apply (Hpast j m k' d'); [lia|done..]].
      assert (m = midpoint t0 t1) as -> by congruence.
      destruct (Qle_bool (inject_Z (timestamp d')) _) eqn:Hle'; [|done].
      rewrite (Qle_bool_inject_mono (timestamp d) (timestamp d')) in Hle; [done| |done].
      eapply (StronglySorted_lookup_le _ k k'); [exact Hs| | |done];
        rewrite list_lookup_fmap; by simplify_option_eq.
Qed.

Lemma concat_filter_by_index {X} (F : X → option nat) (l : list X) n :
  concat ((λ i, filter (λ x, F x = Some i) l) <$> seq 0 n)
  ≡ₚ filter (index_below F n) l.
Proof.
  induction n as [|n IH].
  - simpl. rewrite filter_none; [done|].
    apply Forall_forall. intros x _. unfold index_below. destruct (F x); lia.
  - rewrite seq_S, fmap_app, concat_app, IH. simpl. rewrite app_nil_r.
    clear IH. induction l as [|x l IHl]; [done|].
    rewrite !filter_cons.
    assert (index_below F (S n) x ↔ index_below F n x ∨ F x = Some n) as Hn.
    { unfold index_below. destruct (F x) as [i|]; [|split; [done | intros [[]|[=]]]].
      split; [intros ?; destruct (decide (i = n)); [subst; by right | left; lia]|].
      intros [?|[= ->]]; lia. }
    assert (¬ (index_below F n x ∧ F x = Some n)) as Hex.
    { unfold index_below. intros [H1 H2]. rewrite H2 in H1. lia. }
    destruct (decide (index_below F n x)), (decide (F x = Some n)),
      (decide (index_below F (S n) x)); try (exfalso; tauto); simpl.
    + by rewrite IHl.
    + rewrite <- Permutation_middle. by rewrite IHl.
    + done.
Qed.

Lemma replicate_nil_buckets (mids : list Q) n s :
  replicate n [] = (λ i, filter (in_bucket (P:=P) mids i) []) <$> seq s n.
Proof. revert s. induction n as [|n IH]; intros s; simpl; [done|]. by rewrite <- IH. Qed.

Lemma correlate_data_Ok (h : gmap positive (pyobj P)) data_ref ts_ref l ts0 :
  h !! data_ref = Some (DataList l) → h !! ts_ref = Some (TimestampSeq ts0) →
  correlate_data data_ref ts_ref h
  = (Ok ((λ i, filter (in_bucket (midpoints ts0) i) (sort_by timestamp l))
           <$> seq 0 (length ts0)),
     <[data_ref := DataList (sort_by timestamp l)]> h).
Proof.
  intros Hd Ht. unfold correlate_data. rewrite Hd, Ht. f_equal.
  pose proof (correlate_loop_buckets
    (length (sort_by timestamp l) + length ts0) (sort_by timestamp l) ts0 0 0)
    as Hloop.
  rewrite take_0 in Hloop.
  rewrite <- Hloop; [|apply sort_by_sorted | lia | intros; lia].
  f_equal. apply replicate_nil_buckets.
Qed.

Lemma midpoint_mono (a b c d : Z) :
  a ≤ c → b ≤ d → (midpoint a b <= midpoint c d)%Q.
Proof.
  intros Hac Hbd. rewrite Zle_Qle in Hac, Hbd. unfold midpoint.
  apply Qmult_le_compat_r; [by apply Qplus_le_compat|]. discriminate.
Qed.

Lemma midpoints_sorted_last (ts : list Z) j m' m :
  StronglySorted Z.le ts → midpoints ts !! j = Some m' →
  last (midpoints ts) = Some m → (m' <= m)%Q.
Proof.
  intros Hs Hj Hlast. rewrite last_lookup in Hlast.
  apply lookup_lt_Some in Hj as Hlt.
  set (k := pred (length (midpoints ts))) in *.
  assert (j ≤ k)%nat by lia. clearbody k.
  rewrite midpoints_lookup in Hj, Hlast.
  destruct (ts !! j) as [a|] eqn:Ha; simpl in Hj; [|done].
  destruct (ts !! S j) as [b|] eqn:Hb; simpl in Hj; [|done].
  destruct (ts !! k) as [c|] eqn:Hc; simpl in Hlast; [|done].
  destruct (ts !! S k) as [d|] eqn:Hd; simpl in Hlast; [|done].
  simplify_eq. apply midpoint_mono.
  - eapply (StronglySorted_lookup_le ts j); [done..|lia].
  - eapply (StronglySorted_lookup_le ts (S j)); [done..|lia].
Qed.

(** C5, as amended.  [correlate_data] returns one bucket per frame
    timestamp.  Over the events sorted by timestamp, an event lies in bucket
    [i] exactly when its timestamp is at most the midpoint of frames [i] and
    [i+1] and after the midpoints of all earlier frames; no event lies in
    two buckets, none is duplicated; the events that lie in no bucket are
    those after every computable midpoint, which for ascending frame
    timestamps means: after the last one. *)
Theorem correlate_data_buckets (h : gmap positive (pyobj P)) data_ref ts_ref
    l ts0 :
  h !! data_ref = Some (DataList l) → h !! ts_ref = Some (TimestampSeq ts0) →
  ∃ buckets,
    (correlate_data data_ref ts_ref h).1 = Ok buckets ∧
    length buckets = length ts0 ∧
    (∀ i bucket, buckets !! i = Some bucket →
       bucket = filter (in_bucket (midpoints ts0) i) (sort_by timestamp l)) ∧
    (∀ i d, (∃ bucket, buckets !! i = Some bucket ∧ d ∈ bucket) ↔
       d ∈ l ∧ ∃ m, midpoints ts0 !! i = Some m ∧
         (inject_Z (timestamp d) <= m)%Q ∧
         ∀ j m', (j < i)%nat → midpoints ts0 !! j = Some m' →
                 (m' < inject_Z (timestamp d))%Q) ∧
    (∀ i j bi bj d, buckets !! i = Some bi → buckets !! j = Some bj →
       d ∈ bi → d ∈ bj → i = j) ∧
    concat buckets ⊆+ l ∧
    (∀ d, d ∈ l →
       (∀ bucket, bucket ∈ buckets → d ∉ bucket) ↔
       (∀ m, m ∈ midpoints ts0 → (m < inject_Z (timestamp d))%Q)) ∧
    (StronglySorted Z.le ts0 →
     ∀ d m, d ∈ l → last (midpoints ts0) = Some m →
       (∀ bucket, bucket ∈ buckets → d ∉ bucket) ↔
       (m < inject_Z (timestamp d))%Q).
Proof.
  intros Hd Ht. rewrite (correlate_data_Ok h data_ref ts_ref l ts0 Hd Ht).
  eexists. split; [reflexivity|].
  set (sorted := sort_by timestamp l). set (mids := midpoints ts0).
  assert (∀ i bucket,
    ((λ i, filter (in_bucket mids i) sorted) <$> seq 0 (length ts0)) !! i
      = Some bucket →
    bucket = filter (in_bucket mids i) sorted) as Hlook.
  { intros i bucket Hi. rewrite list_lookup_fmap in Hi.
    destruct (seq 0 (length ts0) !! i) as [i'|] eqn:Hi'; simpl in Hi; [|done].
    apply lookup_seq in Hi' as [-> _]. by simplify_eq. }
  assert (∀ i d, in_bucket mids i d ↔
    ∃ m, mids !! i = Some m ∧ (inject_Z (timestamp d) <= m)%Q ∧
      ∀ j m', (j < i)%nat → mids !! j = Some m' →
              (m' < inject_Z (timestamp d))%Q) as Hchar.
  { intros i d. unfold in_bucket. rewrite first_frame_Some.
    split; intros (m & Hm & Hle & Hbefore); exists m; (split; [done|]).
    - split; [by apply Qle_bool_iff|]. intros j m' Hj Hm'.
      apply Qnot_le_lt. intros Hc%Qle_bool_iff. by rewrite (Hbefore j m') in Hc.
    - split; [by apply Qle_bool_iff|]. intros j m' Hj Hm'.
      destruct (Qle_bool _ m') eqn:Hc; [|done].
      apply Qle_bool_iff in Hc. apply Qle_not_lt in Hc. destruct Hc. by eapply Hbefore. }
  assert (∀ d, (∀ m, m ∈ mids → (m < inject_Z (timestamp d))%Q) →
    ∀ bucket, bucket ∈ (λ i, filter (in_bucket mids i) sorted)
                         <$> seq 0 (length ts0) → d ∉ bucket) as Hdrop.
  { intros d Hafter bucket (i & -> & _)%list_elem_of_fmap
      (Hin & _)%list_elem_of_filter.
    apply Hchar in Hin as (m & Hm & Hle & _).
    apply Qle_not_lt in Hle. destruct Hle. apply Hafter.
    by eapply list_elem_of_lookup_2. }
  assert (∀ d, d ∈ l →
    (∀ bucket, bucket ∈ (λ i, filter (in_bucket mids i) sorted)
                          <$> seq 0 (length ts0) → d ∉ bucket) →
    ∀ m, m ∈ mids → (m < inject_Z (timestamp d))%Q) as Hkept.
  { intros d Hdl Hnone m Hm. apply Qnot_le_lt. intros Hle%Qle_bool_iff.
    destruct (first_frame mids (timestamp d)) as [i|] eqn:Hff.
    + apply first_frame_lt_length in Hff as Hi. unfold mids in Hi.
      rewrite midpoints_length in Hi.
      apply (Hnone (filter (in_bucket mids i) sorted)).
      * apply list_elem_of_fmap. exists i. split; [done|].
        apply elem_of_seq. lia.
      * apply list_elem_of_filter. split; [done|]. unfold sorted.
        by rewrite sort_by_perm.
    + rewrite first_frame_None in Hff. by rewrite (Hff m Hm) in Hle. }
  split_and!.
  - by rewrite length_fmap, length_seq.
  - exact Hlook.
  - intros i d. split.
    + intros (bucket & Hb & Hin). rewrite (Hlook _ _ Hb) in Hin.
      apply list_elem_of_filter in Hin as [Hin Hd']. split.
      * unfold sorted in Hd'. by rewrite sort_by_perm in Hd'.
      * by apply Hchar.
    + intros (Hin & Hm). apply Hchar in Hm as Hb.
      destruct Hm as (m & Hm & _).
      assert (i < length ts0)%nat as Hi.
      { apply lookup_lt_Some in Hm. unfold mids in Hm.
        rewrite midpoints_length in Hm. lia. }
      exists (filter (in_bucket mids i) sorted). split.
      * rewrite list_lookup_fmap, lookup_seq_lt by done. done.
      * apply list_elem_of_filter. split; [done|]. unfold sorted.
        by rewrite sort_by_perm.
  - intros i j bi bj d Hi Hj Hdi Hdj.
    rewrite (Hlook _ _ Hi) in Hdi. rewrite (Hlook _ _ Hj) in Hdj.
    apply list_elem_of_filter in Hdi as [Hdi _].
    apply list_elem_of_filter in Hdj as [Hdj _].
    unfold in_bucket in *. congruence.
  - unfold in_bucket. rewrite (concat_filter_by_index
      (λ d, first_frame mids (timestamp d)) sorted (length ts0)).
    etrans; [apply sublist_submseteq, sublist_filter|].
    unfold sorted. by rewrite sort_by_perm.
  - intros d Hdl. split; [by apply Hkept | apply Hdrop].
  - intros Hs d m Hdl Hlast. split.
    + intros Hnone. apply (Hkept d Hdl Hnone).
      rewrite last_lookup in Hlast. by eapply list_elem_of_lookup_2.
    + intros Hlt. apply Hdrop. intros m' [j Hj]%list_elem_of_lookup_1.
      eapply Qle_lt_trans; [|exact Hlt]. by eapply midpoints_sorted_last.
Qed.

(** C10.  [correlate_data] writes through its first argument: after the
    call the caller's list holds the same events sorted ascending by
    timestamp; the frame timestamps, and every other object, are as
    before. *)
Theorem correlate_data_sorts_in_place (h : gmap positive (pyobj P))
    data_ref ts_ref l ts0 :
  h !! data_ref = Some (DataList l) → h !! ts_ref = Some (TimestampSeq ts0) →
  let h' := (correlate_data data_ref ts_ref h).2 in
  h' !! data_ref = Some (DataList (sort_by timestamp l)) ∧
  sort_by timestamp l ≡ₚ l ∧
  StronglySorted Z.le (timestamp <$> sort_by timestamp l) ∧
  h' !! ts_ref = Some (TimestampSeq ts0) ∧
  (∀ r, r ≠ data_ref → h' !! r = h !! r).
Proof.
  intros Hd Ht. rewrite (correlate_data_Ok h data_ref ts_ref l ts0 Hd Ht). simpl.
  assert (data_ref ≠ ts_ref) as Hne by (intros ->; congruence).
  split_and!.
  - by rewrite lookup_insert_eq.
  - apply sort_by_perm.
  - apply sort_by_sorted.
  - by rewrite lookup_insert_ne.
  - intros r Hr. by rewrite lookup_insert_ne.
Qed.
End correlate_facts.

(** *** The frame-correlation scenario, and instances *)

Example scenario2_trailing_drop :
  (correlate_data 1 2 (demo_heap [1; 6; 9; 14; 29; 35] [0; 10; 20; 30])).1
  = Ok [events_of [1]; events_of [6; 9; 14]; []; []].
Proof. vm_compute. reflexivity. Qed.

Lemma correlate_data_buckets_witness :
  let h := demo_heap [1; 6; 9; 14; 29; 35] [0; 10; 20; 30] in
  h !! 1%positive = Some (DataList (events_of [1; 6; 9; 14; 29; 35])) ∧
  h !! 2%positive = Some (TimestampSeq [0; 10; 20; 30]) ∧
  ∃ buckets, (correlate_data 1 2 h).1 = Ok buckets ∧ length buckets = 4%nat.
Proof.
  split; [reflexivity|]. split; [reflexivity|].
  destruct (correlate_data_buckets
              (demo_heap [1; 6; 9; 14; 29; 35] [0; 10; 20; 30]) 1 2
              (events_of [1; 6; 9; 14; 29; 35]) [0; 10; 20; 30]
              eq_refl eq_refl) as (buckets & Hrun & Hlen & _).
  exists buckets. split; [exact Hrun | exact Hlen].
Defined.

(** C5, as stated, fails where it says that an event after the last
    computable midpoint lies in no bucket: the frame timestamps need not
    ascend.  With frames [0, 100, 0, 0] the last midpoint is 0, and the
    event at 10 lies after it and in the first bucket. *)
Lemma correlate_data_after_last_midpoint :
  (correlate_data 1 2 (demo_heap [10] [0; 100; 0; 0])).1
  = Ok [events_of [10]; []; []; []] ∧
  last (midpoints [0; 100; 0; 0]) = Some (midpoint 0 0) ∧
  (midpoint 0 0 < inject_Z 10)%Q.
Proof. split; [vm_compute; reflexivity|]. split; reflexivity. Qed.

Lemma correlate_data_sorts_in_place_witness :
  let h := demo_heap [35; 1; 14; 6] [0; 10] in
  h !! 1%positive = Some (DataList (events_of [35; 1; 14; 6])) ∧
  h !! 2%positive = Some (TimestampSeq [0; 10]) ∧
  (correlate_data 1 2 h).2 !! 1%positive
  = Some (DataList (sort_by timestamp (events_of [35; 1; 14; 6]))) ∧
  sort_by timestamp (events_of [35; 1; 14; 6]) = events_of [1; 6; 14; 35].
Proof.
  split; [reflexivity|]. split; [reflexivity|].
  split; [|reflexivity].
  exact (proj1 (correlate_data_sorts_in_place
                  (demo_heap [35; 1; 14; 6] [0; 10]) 1 2
                  (events_of [35; 1; 14; 6]) [0; 10] eq_refl eq_refl)).
Defined.

(** ** The migration run *)

Section migration_facts.
Context {C : Type}.
Variable read_rec_version : gmap string string → result SemanticVersion.
Variable file_work : step → gmap string C → result () * gmap string C.
Variable transform : step → C → result C.

Abbreviation run :=
  (update_recording_to_recent read_rec_version file_work transform).
Abbreviation ok_calls p := ((λ s : step, (s, @None exn)) <$> p).

(** *** Statements that log nothing *)

Ltac solve_quiet :=
  intros w;
  repeat (unfold mbind, M_bind, mret, M_mret, raise, lift, get_rec, put_rec,
            try_except, do_file_work, load_object, save_object,
            load_meta_info, update_meta_info, _update_info_version_to; simpl);
  repeat (case_match; simpl in *; simplify_eq); done.

Lemma quiet_load_meta_info : quiet (load_meta_info (C:=C)).
Proof. solve_quiet. Qed.
Lemma quiet_update_meta_info m : quiet (update_meta_info (C:=C) m).
Proof. solve_quiet. Qed.
Lemma quiet_lift {X} (r : result X) : quiet (lift (C:=C) r).
Proof. solve_quiet. Qed.
Lemma quiet_convert_pupil_mobile :
  quiet (convert_pupil_mobile_recording_to_v094 file_work).
Proof. unfold convert_pupil_mobile_recording_to_v094. solve_quiet. Qed.
Lemma quiet_bytes_to_unicode : quiet (update_recording_bytes_to_unicode file_work).
Proof. unfold update_recording_bytes_to_unicode. solve_quiet. Qed.
Lemma quiet_v073_to_v074 : quiet (update_recording_v073_to_v074 file_work).
Proof. unfold update_recording_v073_to_v074. solve_quiet. Qed.
Lemma quiet_v05_to_v074 : quiet (update_recording_v05_to_v074 file_work).
Proof. unfold update_recording_v05_to_v074. solve_quiet. Qed.
Lemma quiet_v04_to_v074 : quiet (update_recording_v04_to_v074 file_work).
Proof. unfold update_recording_v04_to_v074. solve_quiet. Qed.
Lemma quiet_v03_to_v074 : quiet (update_recording_v03_to_v074 file_work).
Proof. unfold update_recording_v03_to_v074. solve_quiet. Qed.
Lemma quiet_v074_to_v082 : quiet (update_recording_v074_to_v082 (C:=C)).
Proof. unfold update_recording_v074_to_v082. solve_quiet. Qed.
Lemma quiet_v082_to_v083 : quiet (update_recording_v082_to_v083 transform).
Proof. unfold update_recording_v082_to_v083. solve_quiet. Qed.
Lemma quiet_v083_to_v086 : quiet (update_recording_v083_to_v086 transform).
Proof. unfold update_recording_v083_to_v086. solve_quiet. Qed.
Lemma quiet_v086_to_v087 : quiet (update_recording_v086_to_v087 transform).
Proof. unfold update_recording_v086_to_v087. solve_quiet. Qed.
Lemma quiet_v087_to_v091 : quiet (update_recording_v087_to_v091 (C:=C)).
Proof. unfold update_recording_v087_to_v091. solve_quiet. Qed.
Lemma quiet_v091_to_v093 : quiet (update_recording_v091_to_v093 transform).
Proof. unfold update_recording_v091_to_v093. solve_quiet. Qed.
Lemma quiet_v093_to_v094 : quiet (update_recording_v093_to_v094 file_work).
Proof. unfold update_recording_v093_to_v094. solve_quiet. Qed.
Lemma quiet_v094_to_v0913 retry :
  quiet (update_recording_v094_to_v0913 file_work retry).
Proof.
  unfold update_recording_v094_to_v0913, update_recording_v094_to_v0913_body.
  solve_quiet.
Qed.
Lemma quiet_v0913_to_v0915 : quiet (update_recording_v0913_to_v0915 file_work).
Proof. unfold update_recording_v0913_to_v0915. solve_quiet. Qed.
Lemma quiet_v0915_v13 : quiet (update_recording_v0915_v13 file_work).
Proof. unfold update_recording_v0915_v13. solve_quiet. Qed.
Lemma quiet_v13_v14 : quiet (update_recording_v13_v14 (C:=C)).
Proof. unfold update_recording_v13_v14. solve_quiet. Qed.
Lemma quiet_v14_v18 : quiet (update_recording_v14_v18 file_work).
Proof. unfold update_recording_v14_v18. solve_quiet. Qed.
Lemma quiet_v18_v19 : quiet (update_recording_v18_v19 file_work).
Proof. unfold update_recording_v18_v19. solve_quiet. Qed.
Lemma quiet_check_for_worldless : quiet (check_for_worldless_recording file_work).
Proof. unfold check_for_worldless_recording. solve_quiet. Qed.

Create HintDb quiet.
#[local] Hint Resolve quiet_load_meta_info quiet_update_meta_info quiet_lift
  quiet_convert_pupil_mobile quiet_bytes_to_unicode quiet_v073_to_v074
  quiet_v05_to_v074 quiet_v04_to_v074 quiet_v03_to_v074 quiet_v074_to_v082
  quiet_v082_to_v083 quiet_v083_to_v086 quiet_v086_to_v087 quiet_v087_to_v091
  quiet_v091_to_v093 quiet_v093_to_v094 quiet_v094_to_v0913
  quiet_v0913_to_v0915 quiet_v0915_v13 quiet_v13_v14 quiet_v14_v18
  quiet_v18_v19 quiet_check_for_worldless : quiet.

(** *** One statement at a time *)

Lemma bind_inv {X Y} (m : M C X) (k : X → M C Y) w r w' :
  (m ≫= k) w = (r, w') →
  (∃ e, m w = (Raise e, w') ∧ r = Raise e) ∨
  (∃ x w1, m w = (Ok x, w1) ∧ k x w1 = (r, w')).
Proof.
  unfold mbind, M_bind. destruct (m w) as [[x|e] w1]; intros H.
  - right. eauto.
  - left. exists e. by simplify_eq.
Qed.

Lemma quiet_step {X Y} (m : M C X) (k : X → M C Y) p w r w' :
  quiet m → calls w = ok_calls p → (m ≫= k) w = (r, w') →
  (∃ e, r = Raise e ∧ interrupted e (calls w')) ∨
  (∃ x w1, m w = (Ok x, w1) ∧ calls w1 = ok_calls p ∧ k x w1 = (r, w')).
Proof.
  intros Hq Hp [(e & Hm & ->)|(x & w1 & Hm & Hk)]%bind_inv.
  - left. exists e. split; [done|]. exists p. left.
    specialize (Hq w). rewrite Hm in Hq. simpl in Hq. congruence.
  - right. exists x, w1. split_and!; [done| |done].
    specialize (Hq w). rewrite Hm in Hq. simpl in Hq. congruence.
Qed.

Lemma call_step {Y} s (m : M C ()) (k : () → M C Y) p w r w' :
  quiet m → calls w = ok_calls p → (call s m ≫= k) w = (r, w') →
  (∃ e, r = Raise e ∧ interrupted e (calls w')) ∨
  (∃ w1, calls w1 = ok_calls (p ++ [s]) ∧ k () w1 = (r, w')).
Proof.
  intros Hq Hp [(e & Hm & ->)|(x & w1 & Hm & Hk)]%bind_inv;
    unfold call in Hm; specialize (Hq w);
    destruct (m w) as [[[]|e'] w2]; simplify_eq; simpl in *.
  - left. exists e. split; [done|]. exists p. right. exists s. congruence.
  - right. eexists. split; [|done]. simpl. rewrite fmap_app. simpl. congruence.
Qed.

Lemma when_call_step {Y} (b : bool) s (m : M C ()) (k : () → M C Y) p w r w' :
  quiet m → calls w = ok_calls p → (when b (call s m) ≫= k) w = (r, w') →
  (∃ e, r = Raise e ∧ interrupted e (calls w')) ∨
  (∃ w1, calls w1 = ok_calls (p ++ if b then [s] else []) ∧
         k () w1 = (r, w')).
Proof.
  intros Hq Hp H. destruct b; simpl in H.
  - by eapply call_step.
  - right. exists w. rewrite app_nil_r. done.
Qed.

Lemma bind_assoc_at {X Y Z} (m : M C X) (f : X → M C Y) (g : Y → M C Z) w :
  ((m ≫= f) ≫= g) w = (m ≫= λ x, f x ≫= g) w.
Proof. unfold mbind, M_bind. by destruct (m w) as [[x|e] w1]. Qed.

Lemma mret_bind_at {X Y} (x : X) (k : X → M C Y) w : (mret x ≫= k) w = k x w.
Proof. reflexivity. Qed.

Tactic Notation "step_quiet" hyp(H) "as" ident(x) ident(w1) ident(Hm) ident(Hc) :=
  eapply quiet_step in H; [|auto with quiet|eassumption];
  destruct H as [(? & -> & ?)|(x & w1 & Hm & Hc & H)]; [left; eauto|].
Tactic Notation "step_call" hyp(H) "as" ident(w1) ident(Hc) :=
  first [eapply when_call_step in H; [|auto with quiet|eassumption]
        |eapply call_step in H; [|auto with quiet|eassumption]];
  destruct H as [(? & -> & ?)|(w1 & Hc & H)]; [left; eauto|].
Ltac step_calls H :=
  repeat (let w1 := fresh "w" in let Hc := fresh "Hc" in step_call H as w1 Hc).

(** The if/elif chain of the conversions to v0.7.4, with what follows it. *)
Lemma legacy_chain_step {Y} (k : bool → M C Y) v p w r w' :
  calls w = ok_calls p →
  ((if bool_decide (version_le (VersionFormat 0 7 4) v) then mret false
    else if bool_decide (version_le (VersionFormat 0 7 3) v) then
      call v073_to_v074 (update_recording_v073_to_v074 file_work);; mret false
    else if bool_decide (version_le (VersionFormat 0 5 0) v) then
      call v05_to_v074 (update_recording_v05_to_v074 file_work);; mret false
    else if bool_decide (version_le (VersionFormat 0 4 0) v) then
      call v04_to_v074 (update_recording_v04_to_v074 file_work);; mret false
    else if bool_decide (version_le (VersionFormat 0 3 0) v) then
      call v03_to_v074 (update_recording_v03_to_v074 file_work);; mret false
    else logger_Error "This recording is too old. Sorry.";; mret true)
   ≫= k) w = (r, w') →
  (∃ e, r = Raise e ∧ interrupted e (calls w')) ∨
  (∃ w1, version_le (VersionFormat 0 3 0) v ∧
         calls w1 = ok_calls (p ++ legacy_conversion v) ∧
         k false w1 = (r, w')).
Proof.
  intros Hp H. unfold legacy_conversion.
  assert (∀ a b, version_le a b → version_le (VersionFormat 0 3 0) a →
            version_le (VersionFormat 0 3 0) b) as Htrans.
  { intros [] []. unfold version_le, version_lt; simpl. lia. }
  repeat case_bool_decide;
    try (rewrite bind_assoc_at in H; step_call H as w1 Hc1; rewrite mret_bind_at in H;
         right; eexists; split_and!; [|eassumption|eassumption];
         eapply Htrans; [eassumption|]; unfold version_le, version_lt; simpl; lia).
  - rewrite mret_bind_at in H. right. exists w. rewrite app_nil_r.
    split_and!; [|done..]. eapply Htrans; [eassumption|].
    unfold version_le, version_lt; simpl; lia.
  - left. rewrite bind_assoc_at in H. unfold logger_Error, raise, mbind, M_bind in H.
    simplify_eq. eexists. split; [done|]. exists p. by left.
Qed.

Lemma run_outcome w r w' :
  calls w = [] → run w = (r, w') →
  (∃ e, r = Raise e ∧ interrupted e (calls w')) ∨
  (∃ meta_info v,
      r = Ok () ∧
      (load_meta_info w).1 = Ok meta_info ∧
      declared_version read_rec_version w = Ok v ∧
      version_le (VersionFormat 0 3 0) v ∧
      calls w'
      = ok_calls (steps_planned (is_unversioned_pupil_mobile meta_info) v)).
Proof.
  intros Hc H. unfold update_recording_to_recent in H.
  change (calls w = ok_calls []) in Hc.
  step_quiet H as meta_info w1 Hload Hc1. step_quiet H as u w2 Hupd Hc2.
  set (mobile := is_unversioned_pupil_mobile meta_info) in *.
  match type of H with (_ ≫= ?k) _ = _ =>
    assert ((∃ e, r = Raise e ∧ interrupted e (calls w')) ∨
            ∃ w3, calls w3 = ok_calls ([] ++ if mobile then [pupil_mobile_to_v094] else []) ∧
                  k (if mobile then <["Data Format Version" := "v0.9.4"%string]> meta_info
                     else meta_info) w3 = (r, w')) as Hmid
  end.
  { destruct mobile.
    - rewrite bind_assoc_at in H. step_call H as w3 Hc3.
      rewrite bind_assoc_at in H. step_quiet H as u' w4 Hupd' Hc4.
      rewrite mret_bind_at in H. right. eauto.
    - rewrite mret_bind_at in H. right. eauto. }
  clear H. destruct Hmid as [?|(w3 & Hc3 & Hrest)]; [by left|].
  simpl in Hrest. step_quiet Hrest as v w4 Hv Hc4.
  step_call Hrest as w5 Hc5.
  eapply legacy_chain_step in Hrest; [|eassumption].
  destruct Hrest as [?|(w6 & Hv3 & Hc6 & Hrest)]; [by left|].
  simpl in Hrest. step_calls Hrest.
  unfold mret, M_mret in Hrest. simplify_eq.
  right. exists meta_info, v.
  assert (declared_version read_rec_version w = Ok v) as Hdecl.
  { unfold declared_version. rewrite Hload. simpl.
    unfold lift in Hv. by simplify_eq. }
  split_and!; [done | by rewrite Hload | done | done |].
  match goal with H : calls w' = _ |- _ => rewrite H end.
  f_equal. unfold steps_planned, steps_before_check, steps_after_check, gated.
  rewrite <- !app_assoc. reflexivity.
Qed.

Lemma bind_ok_at {X Y} (m : M C X) (k : X → M C Y) w x w1 :
  m w = (Ok x, w1) → (m ≫= k) w = k x w1.
Proof. intros H. unfold mbind, M_bind. by rewrite H. Qed.

Lemma bind_raise_at {X Y} (m : M C X) (k : X → M C Y) w e w1 :
  m w = (Raise e, w1) → (m ≫= k) w = (Raise e, w1).
Proof. intros H. unfold mbind, M_bind. by rewrite H. Qed.

Lemma load_meta_info_pure (w : world C) :
  load_meta_info w = ((load_meta_info w).1, w).
Proof.
  unfold load_meta_info, mbind, M_bind, get_rec. simpl.
  by repeat case_match.
Qed.

(** *** What a step that raises leaves behind *)

Lemma update_info_version_raise (new_version : string) (w : world C) e w' :
  _update_info_version_to new_version w = (Raise e, w') → w' = w.
Proof.
  unfold _update_info_version_to, load_meta_info, update_meta_info, get_rec,
    put_rec, raise, mbind, M_bind, mret, M_mret. simpl.
  repeat case_match; intros; by simplify_eq.
Qed.

Lemma do_file_work_metadata s (w : world C) :
  info_csv (rec_dir (do_file_work file_work s w).2) = info_csv (rec_dir w) ∧
  user_info_csv (rec_dir (do_file_work file_work s w).2)
  = user_info_csv (rec_dir w).
Proof. unfold do_file_work. by destruct (file_work s _) as [r fs]. Qed.

(** A step of the form [file work; write the version]. *)
Lemma file_work_then_version_raise s new_version (w : world C) e w' :
  (do_file_work file_work s;; _update_info_version_to new_version) w
  = (Raise e, w') →
  info_csv (rec_dir w') = info_csv (rec_dir w) ∧
  user_info_csv (rec_dir w') = user_info_csv (rec_dir w).
Proof.
  intros [(e' & Hm & _)|(x & w1 & Hm & Hk)]%bind_inv.
  - pose proof (do_file_work_metadata s w) as H. by rewrite Hm in H.
  - apply update_info_version_raise in Hk as ->.
    pose proof (do_file_work_metadata s w) as H. by rewrite Hm in H.
Qed.

(** A step of the form [load pupil_data; rewrite; save; write the
    version]. *)
Lemma pupil_data_step_raise s new_version (w : world C) e w' :
  (pupil_data ← load_object "pupil_data";
   pupil_data ← lift (transform s pupil_data);
   save_object pupil_data "pupil_data";;
   _update_info_version_to new_version) w = (Raise e, w') →
  info_csv (rec_dir w') = info_csv (rec_dir w) ∧
  user_info_csv (rec_dir w') = user_info_csv (rec_dir w).
Proof.
  intros [(e' & Hm & _)|(c & w1 & Hm & Hk)]%bind_inv;
    unfold load_object, get_rec, raise, mbind, M_bind, mret, M_mret in Hm;
    simpl in Hm; destruct (files (rec_dir w) !! "pupil_data"); simplify_eq;
    [done|].
  apply bind_inv in Hk as [(e' & Hm & _)|(c' & w2 & Hm & Hk)];
    unfold lift in Hm; simplify_eq; [done|].
  apply bind_inv in Hk as [(e' & Hm & _)|(u & w3 & Hm & Hk)];
    unfold save_object, get_rec, put_rec, mbind, M_bind in Hm; simpl in Hm;
    simplify_eq.
  by apply update_info_version_raise in Hk as ->.
Qed.

Lemma pupil_data_step_missing s new_version (w : world C) :
  files (rec_dir w) !! "pupil_data" = None →
  (pupil_data ← load_object "pupil_data";
   pupil_data ← lift (transform s pupil_data);
   save_object pupil_data "pupil_data";;
   _update_info_version_to new_version) w = (Raise FileNotFoundError, w).
Proof.
  intros Hnone. unfold load_object, get_rec, raise, mbind, M_bind. simpl.
  by rewrite Hnone.
Qed.

Lemma step_raise_metadata s (w : world C) e w' :
  step_function file_work transform s w = (Raise e, w') →
  info_csv (rec_dir w') = info_csv (rec_dir w) ∧
  user_info_csv (rec_dir w') = user_info_csv (rec_dir w).
Proof.
  assert (∀ s' e0, do_file_work file_work s' w = (Raise e0, w') →
            info_csv (rec_dir w') = info_csv (rec_dir w) ∧
            user_info_csv (rec_dir w') = user_info_csv (rec_dir w)) as Hfw.
  { intros s' e0 H. pose proof (do_file_work_metadata s' w) as Hm.
    by rewrite H in Hm. }
  destruct s; simpl; intros H;
    try (by eapply Hfw);
    try (by apply update_info_version_raise in H as ->);
    try (by eapply pupil_data_step_raise);
    try (by eapply file_work_then_version_raise).
  - (* bytes_to_unicode *)
    unfold update_recording_bytes_to_unicode in H.
    apply bind_inv in H as [(e' & Hm & _)|(x & w1 & Hm & Hk)].
    + by eapply Hfw.
    + pose proof (do_file_work_metadata bytes_to_unicode w) as Hmeta.
      rewrite Hm in Hmeta. simpl in Hmeta.
      unfold get_rec, put_rec, raise, mbind, M_bind in Hk. simpl in Hk.
      destruct (info_csv (rec_dir w1)) eqn:Hinfo; rewrite ?Hinfo in Hk;
        simplify_eq. by rewrite Hinfo.
  - (* v094_to_v0913: the body raised, the handler's clause raises *)
    unfold update_recording_v094_to_v0913, try_except, raise in H.
    destruct (update_recording_v094_to_v0913_body file_work w)
      as [[[]|e'] w1] eqn:Hbody; simplify_eq.
    by eapply file_work_then_version_raise.
Qed.

End migration_facts.

(** *** The run as the source has it *)

Section source_run.
Context {C : Type}.
Variable file_work : step → gmap string C → result () * gmap string C.
Variable transform : step → C → result C.

Abbreviation src_run :=
  (update_recording_to_recent read_rec_version_unbound file_work transform).

(** Every outcome of a run of the source: no metadata; the Pupil Mobile
    conversion raised; or [NameError] at line 218, after the conversion
    where it applies, and before any other step. *)
Lemma unbound_run_outcome (w : world C) :
  match (load_meta_info w).1 with
  | Raise e => src_run w = (Raise e, w)
  | Ok meta_info =>
      if is_unversioned_pupil_mobile meta_info then
        match file_work pupil_mobile_to_v094 (files (rec_dir w)) with
        | (Raise e, fs) =>
            src_run w
            = (Raise e,
               mkWorld (mkRecording (Some meta_info)
                          (user_info_csv (rec_dir w)) fs)
                 (calls w ++ [(pupil_mobile_to_v094, Some e)]))
        | (Ok _, fs) =>
            src_run w
            = (Raise NameError,
               mkWorld (mkRecording
                          (Some (<["Data Format Version" := "v0.9.4"%string]>
                                   meta_info))
                          (user_info_csv (rec_dir w)) fs)
                 (calls w ++ [(pupil_mobile_to_v094, None)]))
        end
      else
        src_run w
        = (Raise NameError,
           mkWorld (mkRecording (Some meta_info) (user_info_csv (rec_dir w))
                      (files (rec_dir w)))
             (calls w))
  end.
Proof.
  destruct w as [[info user fs] cs].
  unfold update_recording_to_recent, load_meta_info, update_meta_info,
    convert_pupil_mobile_recording_to_v094, do_file_work, call, get_rec,
    put_rec, raise, lift, read_rec_version_unbound, mbind, M_bind, mret,
    M_mret.
  simpl.
  destruct info as [meta_info|]; [|destruct user as [meta_info|]]; simpl;
    try done;
    destruct (is_unversioned_pupil_mobile meta_info); simpl; try done;
    destruct (file_work pupil_mobile_to_v094 fs) as [[[]|e] fs']; done.
Qed.

(** The steps a run of the source calls: none, or the Pupil Mobile
    conversion alone; and the run raises. *)
Lemma unbound_run_steps (w : world C) r w' :
  src_run w = (r, w') →
  ∃ e l, r = Raise e ∧ steps_called w' = steps_called w ++ l ∧
         (l = [] ∨ l = [pupil_mobile_to_v094]).
Proof.
  intros Hrun. pose proof (unbound_run_outcome w) as H. rewrite Hrun in H.
  destruct (load_meta_info w).1 as [meta_info|e].
  - destruct (is_unversioned_pupil_mobile meta_info).
    + destruct (file_work pupil_mobile_to_v094 _) as [[[]|e] fs];
        simplify_eq; eexists _, [pupil_mobile_to_v094];
        (split_and!; [done| |by right]);
        unfold steps_called; simpl; by rewrite fmap_app.
    + simplify_eq. exists NameError, []. rewrite app_nil_r. by split_and!; [..|left].
  - simplify_eq. exists e, []. rewrite app_nil_r. by split_and!; [..|left].
Qed.

(** C1.  The call of [check_for_worldless_recording] stands at line 263 of
    [update_recording_to_recent], under no condition, but no run of the
    source gets there: [read_rec_version] is bound nowhere, so every run
    raises before line 219, having called no step or the Pupil Mobile
    conversion alone.  The check is executed in no run. *)
Theorem worldless_check_never_reached (w : world C) r w' :
  src_run w = (r, w') →
  ∃ e l, r = Raise e ∧ steps_called w' = steps_called w ++ l ∧
         worldless_check ∉ l.
Proof.
  intros (e & l & -> & Hl & Hcases)%unbound_run_steps.
  exists e, l. split_and!; [done..|].
  destruct Hcases as [->| ->]; [apply not_elem_of_nil|].
  by intros ?%list_elem_of_singleton.
Qed.

(** C2.  The incremental updates are tested one after the other at lines
    239-268, and for every version below the newest threshold the plan of
    the specification holds at least one of them; a run of the source calls
    none: it raises at line 218, where the version would be read, if not
    before. *)
Theorem incremental_steps_never_run (w : world C) r w' v :
  calls w = [] → src_run w = (r, w') →
  version_lt v (VersionFormat 1 9 0) →
  (∃ e, r = Raise e) ∧
  v18_v19 ∈ MigrationPlan_compute v ∧
  ∀ s, s ∈ MigrationPlan_compute v → s ∉ steps_called w'.
Proof.
  intros Hc (e & l & -> & Hl & Hcases)%unbound_run_steps Hv.
  split; [by exists e|]. split.
  - unfold MigrationPlan_compute. apply list_elem_of_fmap.
    exists (VersionFormat 1 9 0, v18_v19). split; [done|].
    apply list_elem_of_filter. split; [done|].
    unfold migration_table.
    repeat first [apply list_elem_of_here | apply list_elem_of_further].
  - intros s Hs. rewrite Hl. unfold steps_called. rewrite Hc. simpl.
    destruct Hcases as [->| ->]; [apply not_elem_of_nil|].
    intros ->%list_elem_of_singleton.
    unfold MigrationPlan_compute in Hs.
    apply list_elem_of_fmap in Hs as ([t s'] & Heq & Hin). simpl in Heq. subst s'.
    apply list_elem_of_filter in Hin as [_ Hin]. unfold migration_table in Hin.
    repeat (apply elem_of_cons in Hin as [[=]|Hin]).
    by apply elem_of_nil in Hin.
Qed.

(** C3.  A run of the source does not get to compare the version: on a
    recording that declares one, whichever it is, the run raises
    [NameError] at line 218.  It has rewritten [info.csv] with the metadata
    it loaded and called no step.  The refusal of lines 234-236 is never
    reached (as written it calls [logger.Error], which a logger does not
    have, and then returns). *)
Theorem too_old_recording_raises_NameError (w : world C) meta_info version :
  (load_meta_info w).1 = Ok meta_info →
  meta_info !! "Data Format Version" = Some version →
  src_run w
  = (Raise NameError,
     mkWorld (mkRecording (Some meta_info) (user_info_csv (rec_dir w))
                (files (rec_dir w)))
       (calls w)).
Proof.
  intros Hload Hversion. pose proof (unbound_run_outcome w) as H.
  rewrite Hload in H.
  unfold is_unversioned_pupil_mobile in H. rewrite Hversion in H.
  rewrite (bool_decide_false (Some version = None)) in H by done.
  by rewrite andb_false_r in H.
Qed.
End source_run.

(** *** Runs of the migration on concrete recordings *)

Local Open Scope string_scope.

(** The run of the source on a recording that declares v1.5: [NameError],
    no call, and [info.csv] written back as it was. *)
Lemma worldless_check_never_reached_witness :
  update_recording_to_recent read_rec_version_unbound demo_file_work
    demo_transform (demo_world "v1.5" (Some "x"))
  = (Raise NameError, demo_world "v1.5" (Some "x")) ∧
  ∃ l : list step,
    steps_called (demo_world "v1.5" (Some "x"))
    = (steps_called (demo_world "v1.5" (Some "x")) ++ l)%list ∧
    worldless_check ∉ l.
Proof.
  assert (update_recording_to_recent read_rec_version_unbound demo_file_work
            demo_transform (demo_world "v1.5" (Some "x"))
          = (Raise NameError, demo_world "v1.5" (Some "x"))) as Hrun
    by (by vm_compute).
  split; [exact Hrun|].
  destruct (worldless_check_never_reached demo_file_work demo_transform
              (demo_world "v1.5" (Some "x")) _ _ Hrun)
    as (e & l & _ & Hl & Hnot).
  exists l. split; [exact Hl | exact Hnot].
Defined.

(** On the same recording the plan of the specification for v1.5 holds the
    two updates gated on v1.8 and v1.9; the run calls neither. *)
Lemma incremental_steps_never_run_witness :
  update_recording_to_recent read_rec_version_unbound demo_file_work
    demo_transform (demo_world "v1.5" (Some "x"))
  = (Raise NameError, demo_world "v1.5" (Some "x")) ∧
  MigrationPlan_compute (VersionFormat 1 5 0) = [v14_v18; v18_v19] ∧
  steps_called (demo_world "v1.5" (Some "x")) = [] ∧
  ∀ s, s ∈ MigrationPlan_compute (VersionFormat 1 5 0) →
       s ∉ steps_called (demo_world "v1.5" (Some "x")).
Proof.
  assert (update_recording_to_recent read_rec_version_unbound demo_file_work
            demo_transform (demo_world "v1.5" (Some "x"))
          = (Raise NameError, demo_world "v1.5" (Some "x"))) as Hrun
    by (by vm_compute).
  assert (version_lt (VersionFormat 1 5 0) (VersionFormat 1 9 0)) as Hlt
    by (apply (bool_decide_unpack _); by vm_compute).
  split; [exact Hrun|]. split; [by vm_compute|]. split; [reflexivity|].
  exact (proj2 (proj2 (incremental_steps_never_run demo_file_work
                         demo_transform (demo_world "v1.5" (Some "x")) _ _
                         (VersionFormat 1 5 0) eq_refl Hrun Hlt))).
Defined.

(** The run of the source on a recording that declares 0.2, the too-old
    version of the specification's scenario. *)
Lemma too_old_recording_raises_NameError_witness :
  update_recording_to_recent read_rec_version_unbound demo_file_work
    demo_transform (demo_world "0.2" (Some "x"))
  = (Raise NameError, demo_world "0.2" (Some "x")).
Proof.
  exact (too_old_recording_raises_NameError demo_file_work demo_transform
           (demo_world "0.2" (Some "x")) {[ "Data Format Version" := "0.2" ]}
           "0.2" eq_refl eq_refl).
Defined.



Local Close Scope string_scope.

Lemma py_getitem_of_nat {A} (l : list A) (n : nat) :
  py_getitem l (Z.of_nat n) = getitem l n.
Proof.
  unfold py_getitem. rewrite bool_decide_true by lia. by rewrite Nat2Z.id.
Qed.

Lemma py_getitem_Ok {A} (l : list A) i x :
  py_getitem l i = Ok x ↔
  (0 ≤ i ∧ l !! Z.to_nat i = Some x) ∨
  (- Z.of_nat (length l) ≤ i < 0 ∧
   l !! Z.to_nat (Z.of_nat (length l) + i) = Some x).
Proof.
  unfold py_getitem. case_bool_decide as Hpos; [|case_bool_decide as Hneg].
  - rewrite getitem_Ok. split; [by left|]. intros [[_ Hx]|[Hi _]]; [done|lia].
  - rewrite getitem_Ok. split; [intros Hx; right; split; [lia|done]|].
    intros [[Hi _]|[_ Hx]]; [lia|done].
  - split; [done|]. intros [[Hi _]|[Hi _]]; lia.
Qed.

Lemma py_getitem_in_range {A} (l : list A) i :
  (∃ x, py_getitem l i = Ok x) ↔
  - Z.of_nat (length l) ≤ i < Z.of_nat (length l).
Proof.
  split.
  - intros [x [[? Hx]|[? Hx]]%py_getitem_Ok];
      apply lookup_lt_Some in Hx; lia.
  - intros Hi. destruct (decide (0 ≤ i)).
    + destruct (lookup_lt_is_Some_2 l (Z.to_nat i)) as [x Hx]; [lia|].
      exists x. apply py_getitem_Ok. by left.
    + destruct (lookup_lt_is_Some_2 l (Z.to_nat (Z.of_nat (length l) + i)))
        as [x Hx]; [lia|].
      exists x. apply py_getitem_Ok. right. split; [lia|done].
Qed.

Lemma py_getitem_Raise {A} (l : list A) i e :
  py_getitem l i = Raise e → e = IndexError.
Proof.
  unfold py_getitem, getitem. repeat case_bool_decide; repeat case_match; congruence.
Qed.

(** *** [enclosing_window] *)

Lemma enclosing_window_nat (ts : list Z) (i : nat) t :
  ts !! i = Some t →
  enclosing_window ts (Z.of_nat i) =
  Ok (match i with
      | O => NegInf
      | S j => Finite (midpoint t (default 0 (ts !! j)))
      end,
      match ts !! S i with
      | Some t' => Finite (midpoint t' t)
      | None => PosInf
      end).
Proof.
  intros Ht. pose proof (lookup_lt_Some _ _ _ Ht) as Hlt.
  unfold enclosing_window.
  assert (py_getitem ts (Z.of_nat i) = Ok t) as ->
    by (by rewrite py_getitem_of_nat; apply getitem_Ok).
  destruct i as [|j].
  - rewrite (bool_decide_false (0 < Z.of_nat 0)) by lia. simpl.
    case_bool_decide as Hlast.
    + destruct (lookup_lt_is_Some_2 ts 1) as [t' Ht']; [lia|].
      replace (Z.of_nat 0 + 1) with (Z.of_nat 1) by lia. rewrite py_getitem_of_nat.
      apply getitem_Ok in Ht' as Hg. rewrite Hg. simpl. by rewrite Ht'.
    + rewrite lookup_ge_None_2 by lia. done.
  - rewrite (bool_decide_true (0 < Z.of_nat (S j))) by lia.
    destruct (lookup_lt_is_Some_2 ts j) as [tb Htb]; [lia|].
    replace (Z.of_nat (S j) - 1) with (Z.of_nat j) by lia.
    rewrite py_getitem_of_nat. apply getitem_Ok in Htb as Hg. rewrite Hg.
    simpl. rewrite Htb. simpl.
    case_bool_decide as Hlast.
    + destruct (lookup_lt_is_Some_2 ts (S (S j))) as [t' Ht']; [lia|].
      replace (Z.of_nat (S j) + 1) with (Z.of_nat (S (S j))) by lia.
      rewrite py_getitem_of_nat. apply getitem_Ok in Ht' as Hg'. rewrite Hg'.
      simpl. by rewrite Ht'.
    + rewrite (lookup_ge_None_2 ts (S (S j))) by lia. done.
Qed.

(** X1.  The enclosing windows of consecutive indices tile the time axis:
    the first one starts at minus infinity, the last one ends at plus
    infinity, and each one ends exactly where the next one starts. *)
Theorem enclosing_windows_tile (ts : list Z) (i : nat) :
  (i < length ts)%nat →
  ∃ lo hi,
    enclosing_window ts (Z.of_nat i) = Ok (lo, hi) ∧
    (lo = NegInf ↔ i = 0%nat) ∧
    (hi = PosInf ↔ S i = length ts) ∧
    ((S i < length ts)%nat →
       ∃ hi', enclosing_window ts (Z.of_nat i + 1) = Ok (hi, hi')).
Proof.
  intros Hi. destruct (lookup_lt_is_Some_2 ts i Hi) as [t Ht].
  rewrite (enclosing_window_nat ts i t Ht). eexists _, _.
  split; [reflexivity|]. split_and!.
  - destruct i; [done|]. split; [done|lia].
  - destruct (ts !! S i) eqn:Hn.
    + apply lookup_lt_Some in Hn. split; [done|lia].
    + apply lookup_ge_None_1 in Hn. split; [lia|done].
  - intros Hn. destruct (lookup_lt_is_Some_2 ts (S i) Hn) as [t' Ht'].
    replace (Z.of_nat i + 1) with (Z.of_nat (S i)) by lia.
    rewrite (enclosing_window_nat ts (S i) t' Ht'), Ht, Ht'. simpl.
    eexists. reflexivity.
Qed.

(** X3.  [enclosing_window] returns exactly for the indices Python accepts,
    [-len <= idx < len], and raises [IndexError] for every other one; so it
    does on an empty sequence. *)
Theorem enclosing_window_index_range (ts : list Z) (idx : Z) :
  ((∃ w, enclosing_window ts idx = Ok w) ↔
   - Z.of_nat (length ts) ≤ idx < Z.of_nat (length ts)) ∧
  (¬ (- Z.of_nat (length ts) ≤ idx < Z.of_nat (length ts)) →
   enclosing_window ts idx = Raise IndexError).
Proof.
  assert (- Z.of_nat (length ts) ≤ idx < Z.of_nat (length ts) →
          ∃ w, enclosing_window ts idx = Ok w) as Hin.
  { intros Hr. destruct (decide (0 ≤ idx)) as [Hpos|Hneg].
    - destruct (lookup_lt_is_Some_2 ts (Z.to_nat idx)) as [t Ht]; [lia|].
      pose proof (enclosing_window_nat ts _ t Ht) as Hw.
      rewrite Z2Nat.id in Hw by done. eauto.
    - unfold enclosing_window.
      rewrite (bool_decide_false (0 < idx)) by lia. simpl.
      destruct (proj2 (py_getitem_in_range ts idx) Hr) as [t ->]. simpl.
      rewrite bool_decide_true by lia.
      destruct (proj2 (py_getitem_in_range ts (idx + 1))) as [t' ->]; [lia|].
      simpl. eauto. }
  assert (¬ (- Z.of_nat (length ts) ≤ idx < Z.of_nat (length ts)) →
          enclosing_window ts idx = Raise IndexError) as Hout.
  { intros Hr. unfold enclosing_window.
    assert (py_getitem ts idx = Raise IndexError) as Hnow.
    { destruct (py_getitem ts idx) as [t|e] eqn:Hg.
      - exfalso. apply Hr. apply py_getitem_in_range. eauto.
      - by rewrite (py_getitem_Raise _ _ _ Hg). }
    rewrite Hnow.
    destruct (bool_decide (0 < idx));
      [destruct (py_getitem ts (idx - 1)) as [t|e] eqn:Hg|]; simpl; try done.
    by rewrite (py_getitem_Raise _ _ _ Hg). }
  split; [|done]. split; [|done].
  intros [w Hw]. destruct (decide (- Z.of_nat (length ts) ≤ idx
                                   < Z.of_nat (length ts))) as [|Hn]; [done|].
  rewrite (Hout Hn) in Hw. done.
Qed.

(** *** [exact_window] *)

(** X4.  On a non-empty sequence [exact_window] clamps the end of the index
    range to the last index: for a start index in range and any end index
    from 0 on it returns the timestamps at the start and at
    [min(end, len - 1)], which are in ascending order when the timestamps
    are and the range is not reversed.  On an empty sequence every range
    raises [IndexError]. *)
Theorem exact_window_clamps_end (ts : list Z) (lo hi : nat) :
  (lo < length ts)%nat →
  ∃ t0 t1,
    exact_window ts (Z.of_nat lo, Z.of_nat hi) = Ok (t0, t1) ∧
    ts !! lo = Some t0 ∧
    ts !! (hi `min` pred (length ts))%nat = Some t1 ∧
    (StronglySorted Z.le ts → (lo ≤ hi)%nat → t0 ≤ t1) ∧
    ∀ index_range, exact_window [] index_range = Raise IndexError.
Proof.
  intros Hlo.
  destruct (lookup_lt_is_Some_2 ts lo Hlo) as [t0 Ht0].
  destruct (lookup_lt_is_Some_2 ts (hi `min` pred (length ts))%nat)
    as [t1 Ht1]; [lia|].
  exists t0, t1. split_and!; [|done|done| |].
  - unfold exact_window. simpl. rewrite py_getitem_of_nat.
    rewrite (proj2 (getitem_Ok _ _ _) Ht0). simpl.
    replace (Z.of_nat hi `min` (Z.of_nat (length ts) - 1))
      with (Z.of_nat (hi `min` pred (length ts))%nat) by lia.
    rewrite py_getitem_of_nat. by rewrite (proj2 (getitem_Ok _ _ _) Ht1).
  - intros Hs Hle. eapply (StronglySorted_lookup_le ts lo); eauto. lia.
  - intros [i j]. unfold exact_window, py_getitem. simpl.
    repeat case_bool_decide; simpl; try done; by destruct (Z.to_nat _).
Qed.

(** *** [find_closest] *)

Lemma find_closest_one_sorted (target : list Z) (s : Z) :
  StronglySorted Z.le target → target ≠ [] →
  ∃ i t,
    find_closest_one target s = Ok i ∧
    py_getitem target i = Ok t ∧
    (∀ x, x ∈ target → ¬ (t < x < s) ∧ ¬ (s < x < t)) ∧
    (- 1 ≤ i < Z.of_nat (length target)) ∧
    ((2 ≤ length target)%nat → 0 ≤ i).
Proof.
  intros Hs Hne.
  destruct (searchsorted_sorted target s Hs) as [Hr Hlt].
  unfold find_closest_one, np_clip.
  set (r := searchsorted target s) in *.
  set (n := length target) in *.
  assert (0 < n)%nat as Hn by (subst n; destruct target; [done|simpl; lia]).
  destruct (decide (n = 1)%nat) as [H1|H1].
  - destruct target as [|t0 [|? ?]]; simpl in H1; try done.
    replace (Z.of_nat n - 1) with 0 by lia.
    replace (0 `min` (Z.of_nat r `max` 1)) with 0 by lia.
    change (py_getitem [t0] (0 - 1)) with (Ok (A:=Z) t0).
    change (py_getitem [t0] 0) with (Ok (A:=Z) t0). simpl.
    case_bool_decide; eexists _, t0; (split; [reflexivity|]);
      (split; [reflexivity|]); (split; [|simpl; lia]);
      intros x ->%list_elem_of_singleton; lia.
  - set (idx := (Z.of_nat n - 1) `min` (Z.of_nat r `max` 1)).
    assert (1 ≤ idx ≤ Z.of_nat n - 1) as Hidx by lia.
    destruct (lookup_lt_is_Some_2 target (Z.to_nat (idx - 1))) as [a Ha];
      [lia|].
    destruct (lookup_lt_is_Some_2 target (Z.to_nat idx)) as [b Hb]; [lia|].
    assert (py_getitem target (idx - 1) = Ok a) as ->
      by (apply py_getitem_Ok; left; split; [lia|done]).
    assert (py_getitem target idx = Ok b) as ->
      by (apply py_getitem_Ok; left; split; [lia|done]).
    simpl.
    pose proof (Hlt _ _ Ha) as Hlta. pose proof (Hlt _ _ Hb) as Hltb.
    assert (∀ j x, target !! j = Some x → (j < Z.to_nat idx)%nat → x ≤ a)
      as Hbelow.
    { intros j x Hj Hji.
      eapply (StronglySorted_lookup_le target j (Z.to_nat (idx - 1))); eauto.
      lia. }
    assert (∀ j x, target !! j = Some x → (Z.to_nat idx ≤ j)%nat → b ≤ x)
      as Habove.
    { intros j x Hj Hji.
      eapply (StronglySorted_lookup_le target (Z.to_nat idx) j); eauto. }
    assert (a ≤ b) as Hab
      by (apply (StronglySorted_lookup_le target _ _ a b Hs Ha Hb); lia).
    case_bool_decide as Hcmp.
    + exists (idx - 1), a. split; [done|].
      split; [apply py_getitem_Ok; left; split; [lia|done]|].
      split; [|lia].
      intros x [j Hj]%list_elem_of_lookup.
      destruct (decide (j < Z.to_nat idx)%nat) as [Hji|Hji].
      * pose proof (Hbelow _ _ Hj Hji).
        destruct (decide (Z.to_nat (idx - 1) < r)%nat) as [Hc|Hc].
        -- apply Hlta in Hc. lia.
        -- assert (idx = 1) as Hi1 by lia.
           assert (j = Z.to_nat (idx - 1)) as -> by lia. simplify_eq. lia.
      * pose proof (Habove _ _ Hj ltac:(lia)). lia.
    + exists (idx - 0), b. split; [done|].
      split; [apply py_getitem_Ok; left; split; [lia|];
              by replace (idx - 0) with idx by lia|].
      split; [|lia].
      intros x [j Hj]%list_elem_of_lookup.
      destruct (decide (j < Z.to_nat idx)%nat) as [Hji|Hji].
      * pose proof (Hbelow _ _ Hj Hji).
        destruct (decide (Z.to_nat idx < r)%nat) as [Hc|Hc].
        -- apply Hltb in Hc. lia.
        -- assert (¬ b < s) as Hbs by (intros ?%Hltb; lia).
           destruct (decide (Z.to_nat (idx - 1) < r)%nat) as [Hc'|Hc'].
           ++ apply Hlta in Hc'. lia.
           ++ assert (¬ a < s) as Has by (intros ?%Hlta; lia). lia.
      * pose proof (Habove _ _ Hj ltac:(lia)).
        destruct (decide (Z.to_nat idx < r)%nat) as [Hc|Hc].
        -- apply Hltb in Hc.
           assert (idx = Z.of_nat n - 1) as Hlast by lia.
           assert (j = Z.to_nat idx) as ->.
           { apply lookup_lt_Some in Hj. fold n in Hj. lia. }
           simplify_eq. lia.
        -- assert (¬ b < s) as Hbs by (intros ?%Hltb; lia). lia.
Qed.



Lemma searchsorted_unique (arr : list Z) (key : Z) (r : nat) :
  StronglySorted Z.le arr → (r ≤ length arr)%nat →
  (∀ i x, arr !! i = Some x → (i < r)%nat ↔ x < key) →
  searchsorted arr key = r.
Proof.
  intros Hs Hr Hpart.
  destruct (searchsorted_sorted arr key Hs) as [Hr' Hpart'].
  set (r' := searchsorted arr key) in *.
  destruct (decide (r' = r)) as [|Hne]; [done|]. exfalso.
  destruct (lookup_lt_is_Some_2 arr (r `min` r')%nat) as [x Hx]; [lia|].
  pose proof (Hpart _ _ Hx). pose proof (Hpart' _ _ Hx). lia.
Qed.

Lemma list_insert_at_lookup {X} (k : nat) (x : X) (l : list X) (i : nat) :
  (k ≤ length l)%nat →
  list_insert_at k x l !! i =
  if decide (i < k)%nat then l !! i
  else if decide (i = k) then Some x else l !! pred i.
Proof.
  intros Hk. unfold list_insert_at.
  destruct (decide (i < k)%nat) as [Hlt|Hge].
  - rewrite lookup_app_l by (rewrite length_take; lia).
    by rewrite lookup_take_lt.
  - rewrite lookup_app_r by (rewrite length_take; lia).
    rewrite length_take, Nat.min_l by done.
    destruct (decide (i = k)) as [->|Hne].
    + by rewrite Nat.sub_diag.
    + destruct (i - k)%nat as [|n] eqn:Hn; [lia|]. simpl.
      rewrite lookup_drop. f_equal. lia.
Qed.

Lemma list_insert_at_sorted (l : list Z) ts :
  StronglySorted Z.le l →
  StronglySorted Z.le (list_insert_at (searchsorted l ts) ts l).
Proof.
  intros Hs.
  pose proof (Mutable_Bisector_insert_inv
                (mkBisector (replicate (length l) ()) l []) ts ()) as Hinv.
  unfold Bisector_inv in Hinv. simpl in Hinv.
  rewrite length_replicate in Hinv.
  destruct Hinv as [[_ Hins] _]; done.
Qed.

Lemma searchsorted_insert_same (l : list Z) ts :
  StronglySorted Z.le l →
  searchsorted (list_insert_at (searchsorted l ts) ts l) ts
  = searchsorted l ts.
Proof.
  intros Hs. destruct (searchsorted_sorted l ts Hs) as [Hr Hpart].
  set (k := searchsorted l ts) in *.
  pose proof (list_insert_at_sorted l ts Hs) as Hs'. fold k in Hs'.
  apply searchsorted_unique; [done|rewrite list_insert_at_length; lia|].
  intros i x. rewrite list_insert_at_lookup by done.
  repeat case_decide; intros Hx.
  - by apply Hpart.
  - simplify_eq. lia.
  - pose proof (Hpart _ _ Hx). lia.
Qed.

Lemma searchsorted_insert_other (l : list Z) ts ts' :
  StronglySorted Z.le l → ts' ≠ ts →
  searchsorted (list_insert_at (searchsorted l ts) ts l) ts'
  = if decide (ts' < ts) then searchsorted l ts'
    else S (searchsorted l ts').
Proof.
  intros Hs Hne. destruct (searchsorted_sorted l ts Hs) as [Hk Hpart].
  destruct (searchsorted_sorted l ts' Hs) as [Hr Hpart'].
  set (k := searchsorted l ts) in *. set (r := searchsorted l ts') in *.
  pose proof (list_insert_at_sorted l ts Hs) as Hs'. fold k in Hs'.
  case_decide as Hlt.
  - assert (r ≤ k)%nat as Hrk.
    { destruct (decide (r ≤ k)%nat) as [|Hn]; [done|]. exfalso.
      destruct (lookup_lt_is_Some_2 l k) as [y Hy]; [lia|].
      pose proof (Hpart _ _ Hy). pose proof (Hpart' _ _ Hy). lia. }
    apply searchsorted_unique; [done|rewrite list_insert_at_length; lia|].
    intros i x. rewrite list_insert_at_lookup by done.
    repeat case_decide; intros Hx.
    + by apply Hpart'.
    + simplify_eq. lia.
    + pose proof (Hpart' _ _ Hx). lia.
  - assert (k ≤ r)%nat as Hkr.
    { destruct (decide (k ≤ r)%nat) as [|Hn]; [done|]. exfalso.
      destruct (lookup_lt_is_Some_2 l r) as [y Hy]; [lia|].
      pose proof (Hpart _ _ Hy). pose proof (Hpart' _ _ Hy). lia. }
    apply searchsorted_unique; [done|rewrite list_insert_at_length; lia|].
    intros i x. rewrite list_insert_at_lookup by done.
    repeat case_decide; intros Hx.
    + pose proof (Hpart _ _ Hx). lia.
    + simplify_eq. lia.
    + pose proof (Hpart' _ _ Hx). lia.
Qed.

Lemma take_idc_Raise {X} (arr : list X) idc e :
  take_idc arr idc = Raise e → e = IndexError.
Proof.
  revert e. induction idc as [|i idc IH]; intros e; simpl; [done|].
  unfold getitem. destruct (arr !! i); simpl; [|by intros [= <-]].
  destruct (take_idc arr idc); simpl; [done|]. intros [= <-]. by apply IH.
Qed.

Lemma take_idc_ext {X} (arr arr' : list X) idc :
  Forall (λ i, arr !! i = arr' !! i) idc →
  take_idc arr idc = take_idc arr' idc.
Proof.
  induction 1 as [|i idc Hi _ IH]; simpl; [done|].
  unfold getitem. by rewrite Hi, IH.
Qed.

Section Bisector_more.
Context {A : Type}.
Variable argsort : list Z → list nat.
Hypothesis argsort_perm : ∀ ts, argsort ts ≡ₚ seq 0 (length ts).
Hypothesis argsort_sorted :
  ∀ ts l, take_idc ts (argsort ts) = Ok l → StronglySorted Z.le l.

Implicit Types (b : Bisector A) (af : Affiliator A).

(** X7.  Insertion and exact lookup round-trip: after
    [insert(timestamp, datum)] the lookup of [timestamp] returns [datum],
    also when the timestamp was present before (the new datum is placed in
    front of the equal ones), and the lookup of every other timestamp gives
    what it gave before. *)
Theorem insert_then_by_ts b ts d :
  Bisector_inv b →
  by_ts (Mutable_Bisector_insert b ts d) ts = Ok d ∧
  ∀ ts', ts' ≠ ts →
    by_ts (Mutable_Bisector_insert b ts d) ts' = by_ts b ts'.
Proof.
  intros [Hlen Hs].
  destruct (searchsorted_sorted (data_ts b) ts Hs) as [Hk Hpart].
  split.
  - unfold by_ts, Mutable_Bisector_insert. simpl.
    rewrite searchsorted_insert_same by done.
    unfold getitem. rewrite !list_insert_at_lookup by lia.
    repeat (case_decide; try lia). simpl.
    by rewrite bool_decide_true.
  - intros ts' Hne.
    destruct (searchsorted_sorted (data_ts b) ts' Hs) as [Hr Hpart'].
    unfold by_ts, Mutable_Bisector_insert. simpl.
    rewrite searchsorted_insert_other by done.
    set (k := searchsorted (data_ts b) ts) in *.
    set (r := searchsorted (data_ts b) ts') in *.
    unfold getitem. case_decide as Hlt.
    + rewrite !list_insert_at_lookup by lia.
      destruct (decide (r < k)%nat) as [Hrk|Hrk]; [done|].
      destruct (decide (r = k)) as [Heq|Hneq].
      * destruct (data b !! r) as [x|] eqn:Hx; simpl.
        -- destruct (lookup_lt_is_Some_2 (data_ts b) r) as [y Hy];
             [apply lookup_lt_Some in Hx; lia|].
           rewrite Hy. simpl. pose proof (Hpart _ _ Hy).
           rewrite !bool_decide_false; [done|lia|lia].
        -- simpl. by rewrite bool_decide_false by lia.
      * exfalso.
        destruct (lookup_lt_is_Some_2 (data_ts b) k) as [y Hy]; [lia|].
        pose proof (Hpart _ _ Hy). pose proof (Hpart' _ _ Hy). lia.
    + rewrite !list_insert_at_lookup by lia.
      destruct (decide (S r < k)%nat) as [Hrk|Hrk].
      * exfalso.
        destruct (lookup_lt_is_Some_2 (data_ts b) r) as [y Hy]; [lia|].
        pose proof (Hpart _ _ Hy). pose proof (Hpart' _ _ Hy). lia.
      * destruct (decide (S r = k)) as [Heq|Hneq]; [|done].
        exfalso.
        destruct (lookup_lt_is_Some_2 (data_ts b) r) as [y Hy]; [lia|].
        pose proof (Hpart _ _ Hy). pose proof (Hpart' _ _ Hy). lia.
Qed.

(** X8.  The dict of [init_dict_for_window] round-trips through the
    constructor: a [Bisector] built from its entries exists, holds exactly the pairs of
    the index whose timestamp lies in [[a, b)], keeps the timestamps of the
    dict as they are, and its own lookup of the same window returns all of
    its data. *)
Theorem init_dict_for_window_round_trip b a c :
  Bisector_inv b →
  let d := Bisector_init_dict_for_window b (a, c) in
  ∃ b',
    Bisector_init argsort (dict_data d) (dict_data_ts d) = Ok b' ∧
    Bisector_inv b' ∧
    data_ts b' = dict_data_ts d ∧
    zip (data b') (data_ts b')
      ≡ₚ filter (λ p, a ≤ p.2 < c) (zip (data b) (data_ts b)) ∧
    by_ts_window b' (a, c) = data b'.
Proof.
  intros Hinv d. destruct (by_ts_window_filter b a c Hinv) as [_ Hzip].
  destruct Hinv as [Hlen Hs].
  unfold d, Bisector_init_dict_for_window. simpl.
  set (lo := searchsorted (data_ts b) a) in *.
  set (hi := searchsorted (data_ts b) c) in *.
  assert (length (slice (data b) lo hi) = length (slice (data_ts b) lo hi))
    as Hlen'.
  { unfold slice. rewrite !length_take, !length_drop. lia. }
  destruct (Bisector_init_total argsort argsort_perm _ _ Hlen') as [b' Hb'].
  exists b'. split; [done|].
  destruct (Bisector_init_Ok argsort argsort_perm argsort_sorted _ _ _ Hb')
    as (_ & Hinv' & _ & _ & _).
  pose proof (Bisector_init_perm argsort argsort_perm argsort_sorted _ _ _ Hb')
    as Hperm.
  pose proof (Bisector_init_ts_perm argsort argsort_perm argsort_sorted
                _ _ _ Hb') as Htsperm.
  assert (data_ts b' = slice (data_ts b) lo hi) as Hts.
  { apply (StronglySorted_unique Z.le); [apply Hinv'| |done].
    by apply StronglySorted_slice. }
  split_and!; [done|done|by rewrite Hperm, Hzip|].
  assert (Forall (λ t, a ≤ t < c) (data_ts b')) as Hall.
  { rewrite Hts. apply Forall_forall. intros t [i Hi]%list_elem_of_lookup_1.
    destruct (lookup_lt_is_Some_2 (slice (data b) lo hi) i) as [x Hx];
      [rewrite Hlen'; by eapply lookup_lt_Some|].
    assert ((x, t) ∈ zip (slice (data b) lo hi) (slice (data_ts b) lo hi))
      as Hin.
    { apply list_elem_of_lookup_2 with i.
      rewrite lookup_zip_with, Hx, Hi. done. }
    rewrite Hzip in Hin. by apply list_elem_of_filter in Hin as [? _]. }
  unfold by_ts_window. simpl.
  rewrite (searchsorted_unique (data_ts b') a 0); [|apply Hinv'|lia|].
  - rewrite (searchsorted_unique (data_ts b') c (length (data_ts b')));
      [|apply Hinv'|lia|].
    + unfold slice. rewrite drop_0, Nat.sub_0_r.
      destruct Hinv' as [-> _]. by rewrite take_ge.
    + intros i x Hx. pose proof (lookup_lt_Some _ _ _ Hx).
      rewrite Forall_forall in Hall.
      pose proof (Hall x (list_elem_of_lookup_2 _ _ _ Hx)). lia.
  - intros i x Hx. rewrite Forall_forall in Hall.
    pose proof (Hall x (list_elem_of_lookup_2 _ _ _ Hx)). lia.
Qed.

Lemma Affiliator_init_accepts (data0 : list A) (starts stops : list Z) :
  length data0 = length starts → (length data0 ≤ length stops)%nat →
  ∃ af, Affiliator_init argsort data0 starts stops = Ok af ∧
        length (stop_ts af) = length data0 ∧
        Bisector_inv (bisector af) ∧
        intervals af
          ≡ₚ zip data0 (zip starts (take (length data0) stops)).
Proof.
  intros Hlen Hlong.
  destruct (Bisector_init_total argsort argsort_perm _ _ Hlen) as [b Hb].
  destruct (Bisector_init_Ok argsort argsort_perm argsort_sorted _ _ _ Hb)
    as (_ & Hinv & Hidc & Hd & Hts).
  assert (Forall (λ i, i < length stops)%nat (sorted_idc b)) as Hbound.
  { rewrite Hidc. apply Forall_forall. intros i Hi%elem_of_seq. lia. }
  destruct (take_idc_total stops _ Hbound) as [st Hst].
  exists (mkAffiliator b st). unfold Affiliator_init. rewrite Hb. simpl.
  rewrite Hst. simpl. split; [done|].
  pose proof (take_idc_length _ _ _ Hst) as Hlst.
  split; [by rewrite Hlst, Hidc, length_seq|]. split; [done|].
  unfold intervals. simpl.
  assert (take_idc (take (length data0) stops) (sorted_idc b) = Ok st)
    as Hst'.
  { rewrite <- Hst. apply take_idc_ext. rewrite Hidc.
    apply Forall_forall. intros i Hi%elem_of_seq.
    apply lookup_take_lt. lia. }
  eapply take_idc_permutation;
    [|by apply take_idc_zip; [|apply take_idc_zip]].
  assert (length (zip data0 (zip starts (take (length data0) stops)))
          = length data0) as ->
    by (rewrite !length_zip_with, length_take; lia).
  done.
Qed.

(** X9.  [Affiliator.__init__] checks the length of [start_ts] only.  A
    [stop_ts] that is shorter than the data raises [IndexError] (not the
    [ValueError] of a length mismatch); one that is at least as long is
    accepted, and the entries past the length of the data are dropped
    without notice. *)
Theorem Affiliator_init_stop_length (data0 : list A) (starts stops : list Z) :
  (length data0 ≠ length starts →
   Affiliator_init argsort data0 starts stops = Raise ValueError) ∧
  (length data0 = length starts → (length stops < length data0)%nat →
   Affiliator_init argsort data0 starts stops = Raise IndexError) ∧
  (length data0 = length starts → (length data0 ≤ length stops)%nat →
   ∃ af, Affiliator_init argsort data0 starts stops = Ok af ∧
         length (stop_ts af) = length data0 ∧
         intervals af
           ≡ₚ zip data0 (zip starts (take (length data0) stops))).
Proof.
  split_and!.
  - intros Hne. unfold Affiliator_init, Bisector_init.
    by rewrite bool_decide_true.
  - intros Hlen Hshort.
    destruct (Bisector_init_total argsort argsort_perm _ _ Hlen) as [b Hb].
    unfold Affiliator_init. rewrite Hb. simpl.
    destruct (Bisector_init_Ok argsort argsort_perm argsort_sorted _ _ _ Hb)
      as (_ & _ & Hidc & _ & _).
    destruct (take_idc stops (sorted_idc b)) as [st|e] eqn:Hst; simpl.
    + exfalso. apply take_idc_Ok in Hst.
      assert (length stops ∈ sorted_idc b) as Hin.
      { rewrite Hidc. apply elem_of_seq. lia. }
      apply list_elem_of_lookup_1 in Hin as [k Hk].
      destruct (Forall2_lookup_l _ _ _ _ _ Hst Hk) as (x & _ & Hx).
      apply lookup_lt_Some in Hx. lia.
    + by rewrite (take_idc_Raise _ _ _ Hst).
  - intros Hlen Hlong.
    destruct (Affiliator_init_accepts _ _ _ Hlen Hlong)
      as (af & Haf & Hst & _ & Hiv).
    by exists af.
Qed.

(** X10.  The window dict of an [Affiliator] holds co-indexed slices: its
    three lists have one length, their triples are a contiguous run of the
    intervals of the index, and an [Affiliator] built from the dict exists
    and holds exactly these intervals. *)
Theorem Affiliator_init_dict_round_trip (data0 : list A) starts stops af a c :
  Affiliator_init argsort data0 starts stops = Ok af →
  let d := Affiliator_init_dict_for_window af (a, c) in
  let run := zip (dict_af_data d) (zip (dict_start_ts d) (dict_stop_ts d)) in
  length (dict_af_data d) = length (dict_start_ts d) ∧
  length (dict_start_ts d) = length (dict_stop_ts d) ∧
  run = slice (intervals af) (searchsorted (stop_ts af) a)
          (searchsorted (data_ts (bisector af)) c) ∧
  run `sublist_of` intervals af ∧
  ∃ af', Affiliator_init argsort (dict_af_data d) (dict_start_ts d)
           (dict_stop_ts d) = Ok af' ∧
         data_ts (bisector af') = dict_start_ts d ∧
         intervals af' ≡ₚ run.
Proof.
  intros Haf d run.
  destruct (Affiliator_init_Ok argsort _ _ _ _ Haf) as [Hb Hst].
  destruct (Bisector_init_Ok argsort argsort_perm argsort_sorted _ _ _ Hb)
    as (_ & [Hlen Hs] & _ & Hd & _).
  pose proof (take_idc_length _ _ _ Hst) as Hlst.
  pose proof (take_idc_length _ _ _ Hd) as Hld.
  unfold run, d, Affiliator_init_dict_for_window. simpl.
  set (lo := searchsorted (stop_ts af) a).
  set (hi := searchsorted (data_ts (bisector af)) c).
  assert (length (slice (data (bisector af)) lo hi)
          = length (slice (data_ts (bisector af)) lo hi)) as Hl1.
  { unfold slice. rewrite !length_take, !length_drop. lia. }
  assert (length (slice (data_ts (bisector af)) lo hi)
          = length (slice (stop_ts af) lo hi)) as Hl2.
  { unfold slice. rewrite !length_take, !length_drop. lia. }
  split_and!; [done|done| | |].
  - unfold intervals. by rewrite !slice_zip.
  - rewrite <- !slice_zip. unfold slice, intervals.
    etrans; [apply sublist_take|apply sublist_drop].
  - destruct (Affiliator_init_accepts _ _ (slice (stop_ts af) lo hi) Hl1)
      as (af' & Haf' & _ & [_ Hs'] & Hiv); [lia|].
    exists af'. split; [done|].
    destruct (Affiliator_init_Ok argsort _ _ _ _ Haf') as [Hb' _].
    split.
    + apply (StronglySorted_unique Z.le); [done|by apply StronglySorted_slice|].
      by eapply Bisector_init_ts_perm.
    + rewrite Hiv. by rewrite take_ge by lia.
Qed.

(** X11.  The container protocol of a constructed [Bisector]: its length is
    that of the input, it is true iff the input is not empty, iteration
    yields the input data, an integer subscript is accepted exactly in
    [-len, len), and a subscript from 0 on returns a datum of the input
    paired with the timestamp at the same position of [timestamps], which
    ascend: [b[0]] has a smallest and [b[-1]] a greatest timestamp. *)
Theorem Bisector_container_protocol (data0 : list A) ts0 b :
  Bisector_init argsort data0 ts0 = Ok b →
  Bisector_len b = length data0 ∧
  (Bisector_bool b = true ↔ data0 ≠ []) ∧
  Bisector_iter b ≡ₚ data0 ∧
  (∀ k, (∃ d, Bisector_getitem b k = Ok d) ↔
        - Z.of_nat (length data0) ≤ k < Z.of_nat (length data0)) ∧
  (∀ (k : nat) d, Bisector_getitem b (Z.of_nat k) = Ok d →
     ∃ t, timestamps b !! k = Some t ∧ (d, t) ∈ zip data0 ts0 ∧
          (k = 0%nat → ∀ t', t' ∈ ts0 → t ≤ t')) ∧
  (∀ d, Bisector_getitem b (-1) = Ok d →
     ∃ t, last (timestamps b) = Some t ∧ (d, t) ∈ zip data0 ts0 ∧
          ∀ t', t' ∈ ts0 → t' ≤ t).
Proof.
  intros Hb.
  destruct (Bisector_init_Ok argsort argsort_perm argsort_sorted _ _ _ Hb)
    as (Hlen0 & [Hlen Hs] & Hidc & Hd & Hts).
  pose proof (Bisector_init_perm argsort argsort_perm argsort_sorted _ _ _ Hb)
    as Hperm.
  pose proof (Bisector_init_ts_perm argsort argsort_perm argsort_sorted
                _ _ _ Hb) as Htsperm.
  pose proof (take_idc_length _ _ _ Hd) as Hld.
  assert (length (data b) = length data0) as Hl
    by (by rewrite Hld, Hidc, length_seq).
  assert (data b ≡ₚ data0) as Hdperm.
  { rewrite <- (fst_zip (data b) (data_ts b)) by lia.
    rewrite <- (fst_zip data0 ts0) by lia. by rewrite Hperm. }
  unfold Bisector_len, Bisector_bool, Bisector_iter, Bisector_getitem,
    timestamps.
  split_and!; [done| |done| | |].
  - destruct (data b), data0; simpl in Hl; try done.
  - intros k. rewrite py_getitem_in_range. by rewrite Hl.
  - intros k d. rewrite py_getitem_of_nat. intros Hk%getitem_Ok.
    destruct (lookup_lt_is_Some_2 (data_ts b) k) as [t Ht];
      [apply lookup_lt_Some in Hk; lia|].
    exists t. split; [done|]. split.
    + rewrite <- Hperm. apply list_elem_of_lookup_2 with k.
      rewrite lookup_zip_with, Hk, Ht. done.
    + intros -> t'. rewrite <- Htsperm. intros [j Hj]%list_elem_of_lookup_1.
      eapply (StronglySorted_lookup_le (data_ts b) 0 j); eauto. lia.
  - intros d [[? _]|[Hr Hk]]%py_getitem_Ok; [lia|].
    replace (Z.to_nat (Z.of_nat (length (data b)) + -1))
      with (pred (length (data b))) in Hk by lia.
    destruct (lookup_lt_is_Some_2 (data_ts b) (pred (length (data b))))
      as [t Ht]; [lia|].
    exists t. split_and!.
    + by rewrite last_lookup, Hlen.
    + rewrite <- Hperm. apply list_elem_of_lookup_2 with (pred (length (data b))).
      rewrite lookup_zip_with, Hk, Ht. done.
    + intros t'. rewrite <- Htsperm. intros [j Hj]%list_elem_of_lookup_1.
      eapply (StronglySorted_lookup_le (data_ts b) j); eauto.
      apply lookup_lt_Some in Hj. lia.
Qed.
End Bisector_more.

(** *** More on [correlate_data] *)

Lemma first_frame_mono (mids : list Q) (t t' : Z) i' :
  t ≤ t' → first_frame mids t' = Some i' →
  ∃ i, first_frame mids t = Some i ∧ (i ≤ i')%nat.
Proof.
  intros Hle. revert i'. induction mids as [|m mids IH]; intros i'; [done|].
  simpl. destruct (Qle_bool (inject_Z t') m) eqn:Hm'.
  - intros [= <-]. rewrite (Qle_bool_inject_mono t t' m Hle Hm'). eauto.
  - destruct (first_frame mids t') as [j'|]; [|done]. intros [= <-].
    destruct (Qle_bool (inject_Z t) m); [exists 0%nat; split; [done|lia]|].
    destruct (IH j' eq_refl) as (j & -> & Hj). exists (S j). split; [done|lia].
Qed.

Lemma index_nondecreasing_cons {X} (F : X → option nat) x (l : list X) :
  index_nondecreasing F (x :: l) → index_nondecreasing F l.
Proof.
  intros H i j y z n Hi Hj Hij. apply (H (S i) (S j)); [done|done|lia].
Qed.

Lemma concat_filter_by_index_eq {X} (F : X → option nat) (l : list X) n :
  index_nondecreasing F l →
  concat ((λ i, filter (λ x, F x = Some i) l) <$> seq 0 n)
  = filter (index_below F n) l.
Proof.
  intros Hmono. induction n as [|n IH].
  - simpl. rewrite filter_none; [done|].
    apply Forall_forall. intros x _. unfold index_below. destruct (F x); lia.
  - rewrite seq_S, fmap_app, concat_app, IH. simpl. rewrite app_nil_r.
    clear IH. induction l as [|x l IHl]; [done|].
    specialize (IHl (index_nondecreasing_cons _ _ _ Hmono)).
    rewrite !filter_cons.
    assert (index_below F (S n) x ↔ index_below F n x ∨ F x = Some n) as Hn.
    { unfold index_below. destruct (F x) as [i|]; [|split; [done | intros [[]|[=]]]].
      split; [intros ?; destruct (decide (i = n)); [subst; by right | left; lia]|].
      intros [?|[= ->]]; lia. }
    assert (¬ (index_below F n x ∧ F x = Some n)) as Hex.
    { unfold index_below. intros [H1 H2]. rewrite H2 in H1. lia. }
    destruct (decide (index_below F n x)), (decide (F x = Some n)),
      (decide (index_below F (S n) x)); try (exfalso; tauto); simpl.
    + by rewrite IHl.
    + rewrite <- IHl. rewrite (filter_none (index_below F n) l); [done|].
      apply Forall_forall. intros y [j Hj]%list_elem_of_lookup_1 Hy.
      unfold index_below in Hy. destruct (F y) as [k|] eqn:Hk; [|done].
      destruct (Hmono 0%nat (S j) x y k eq_refl Hj ltac:(lia) Hk)
        as (m & Hm & Hmk).
      congruence || (rewrite Hm in *; simplify_eq; lia).
    + done.
Qed.

Lemma filter_prefix {X} (P : X → Prop) `{Hdec : !∀ x, Decision (P x)}
    (l : list X) :
  (∀ i j x y, l !! i = Some x → l !! j = Some y → (i ≤ j)%nat → P y → P x) →
  filter P l = take (length (filter P l)) l.
Proof.
  induction l as [|x l IH]; intros Hdown; [done|].
  rewrite filter_cons. destruct (decide (P x)) as [Hx|Hx]; simpl.
  - f_equal. apply IH. intros i j y z Hi Hj Hij.
    apply (Hdown (S i) (S j)); [done|done|lia].
  - rewrite filter_none; [done|]. apply Forall_forall.
    intros y [j Hj]%list_elem_of_lookup_1 Hy.
    apply Hx. apply (Hdown 0%nat (S j) x y eq_refl Hj); [lia|done].
Qed.

Lemma StronglySorted_sublist (l1 l2 : list Z) :
  l1 `sublist_of` l2 → StronglySorted Z.le l2 → StronglySorted Z.le l1.
Proof.
  induction 1 as [|x l1 l2 Hsub IH|x l1 l2 Hsub IH]; intros Hs; [done| |].
  - apply StronglySorted_inv in Hs as [Hs Hall]. constructor; [by apply IH|].
    rewrite Forall_forall in Hall |- *. intros y Hy. apply Hall.
    by eapply sublist_elem_of.
  - apply StronglySorted_inv in Hs as [Hs _]. by apply IH.
Qed.

Section correlate_more.
Context {P : Type}.
Implicit Types (l : list (datum P)) (d : datum P).

Lemma first_frame_nondecreasing (mids : list Q) l :
  StronglySorted Z.le (timestamp <$> l) →
  index_nondecreasing (λ d, first_frame mids (timestamp d)) l.
Proof.
  intros Hs i j x y n Hi Hj Hij Hn.
  apply (first_frame_mono mids (timestamp x) (timestamp y) n); [|done].
  eapply (StronglySorted_lookup_le (timestamp <$> l) i j); [done| | |done];
    rewrite list_lookup_fmap; [by rewrite Hi|by rewrite Hj].
Qed.

(** X12.  The bucket of the last frame is always empty, since its midpoint
    would need a frame after it; with fewer than two frame timestamps no
    event is assigned at all. *)
Theorem correlate_data_last_bucket_empty (h : gmap positive (pyobj P))
    data_ref ts_ref l ts0 :
  h !! data_ref = Some (DataList l) → h !! ts_ref = Some (TimestampSeq ts0) →
  ∃ buckets,
    (correlate_data data_ref ts_ref h).1 = Ok buckets ∧
    (∀ bucket, last buckets = Some bucket → bucket = []) ∧
    ((length ts0 ≤ 1)%nat → Forall (λ bucket, bucket = []) buckets).
Proof.
  intros Hd Ht. rewrite (correlate_data_Ok h _ _ _ _ Hd Ht). simpl.
  eexists. split; [reflexivity|].
  assert (∀ i bucket,
    ((λ i, filter (in_bucket (midpoints ts0) i) (sort_by timestamp l))
       <$> seq 0 (length ts0)) !! i = Some bucket →
    (length ts0 ≤ S i)%nat → bucket = []) as Hempty.
  { intros i bucket Hi Hlast. rewrite list_lookup_fmap in Hi.
    destruct (seq 0 (length ts0) !! i) as [k|] eqn:Hk; [|done].
    apply lookup_seq in Hk as [-> _]. simpl in Hi. injection Hi as <-.
    apply filter_none, Forall_forall. intros d _ Hin.
    apply first_frame_lt_length in Hin. rewrite midpoints_length in Hin. lia. }
  split.
  - intros bucket Hlast. rewrite last_lookup in Hlast.
    apply Hempty in Hlast; [done|]. rewrite length_fmap, length_seq. lia.
  - intros Hshort. apply Forall_forall.
    intros bucket [i Hi]%list_elem_of_lookup_1.
    apply Hempty in Hi; [done|]. lia.
Qed.

(** X14.  Read in frame order, the buckets of [correlate_data] are a prefix
    of the events in ascending timestamp order (the stable sort the call
    leaves in [data]): only trailing events are left out, and no bucket
    reorders its events. *)
Theorem correlate_data_buckets_prefix (h : gmap positive (pyobj P))
    data_ref ts_ref l ts0 :
  h !! data_ref = Some (DataList l) → h !! ts_ref = Some (TimestampSeq ts0) →
  ∃ buckets k,
    (correlate_data data_ref ts_ref h).1 = Ok buckets ∧
    (correlate_data data_ref ts_ref h).2 !! data_ref
      = Some (DataList (sort_by timestamp l)) ∧
    concat buckets = take k (sort_by timestamp l) ∧
    StronglySorted Z.le (timestamp <$> concat buckets) ∧
    Forall (λ bucket, StronglySorted Z.le (timestamp <$> bucket)) buckets.
Proof.
  intros Hd Ht. rewrite (correlate_data_Ok h _ _ _ _ Hd Ht). simpl.
  set (sorted := sort_by timestamp l).
  set (F := λ d, first_frame (midpoints ts0) (timestamp d)).
  pose proof (sort_by_sorted timestamp l) as Hs. fold sorted in Hs.
  pose proof (first_frame_nondecreasing (midpoints ts0) sorted Hs) as Hmono.
  assert (concat ((λ i, filter (in_bucket (midpoints ts0) i) sorted)
                    <$> seq 0 (length ts0))
          = take (length (filter (index_below F (length ts0)) sorted)) sorted)
    as Hconcat.
  { etrans; [exact (concat_filter_by_index_eq F sorted (length ts0) Hmono)|].
    apply filter_prefix. intros i j x y Hi Hj Hij. unfold index_below.
    destruct (F y) as [n|] eqn:Hn; [|done]. intros Hlt.
    destruct (Hmono i j x y n Hi Hj Hij Hn) as (m & Hm & Hmn).
    change (F x = Some m) in Hm. rewrite Hm. lia. }
  eexists _, _. split; [reflexivity|]. split; [by rewrite lookup_insert_eq|].
  split; [exact Hconcat|].
  assert (∀ l1 l2 : list (datum P), l1 `sublist_of` l2 →
            StronglySorted Z.le (timestamp <$> l2) →
            StronglySorted Z.le (timestamp <$> l1)) as Hsub.
  { intros l1 l2 Hsl Hs2.
    eapply StronglySorted_sublist; [|exact Hs2]. by apply fmap_sublist. }
  split.
  - rewrite Hconcat. apply (Hsub _ sorted); [apply sublist_take|done].
  - apply Forall_forall. intros bucket [i Hi]%list_elem_of_lookup_1.
    rewrite list_lookup_fmap in Hi.
    destruct (seq 0 (length ts0) !! i); [|done]. simpl in Hi.
    injection Hi as <-. apply (Hsub _ sorted); [apply sublist_filter|done].
Qed.
End correlate_more.

Section migration_more.
Context {C : Type}.
Variable read_rec_version : gmap string string → result SemanticVersion.
Variable file_work : step → gmap string C → result () * gmap string C.
Variable transform : step → C → result C.

Abbreviation run' :=
  (update_recording_to_recent read_rec_version file_work transform).

(** *** Rules *)

Lemma preserves_bind {X Y} (I : world C → Prop) (m : M C X) (k : X → M C Y) :
  preserves I m → (∀ x, preserves I (k x)) → preserves I (m ≫= k).
Proof.
  intros Hm Hk w r w' HI. unfold mbind, M_bind.
  destruct (m w) as [[x|e] w1] eqn:Hmw.
  - apply (Hk x w1). by eapply Hm.
  - intros [= <- <-]. by eapply Hm.
Qed.

Lemma preserves_mret {X} (I : world C → Prop) (x : X) : preserves I (mret x).
Proof. intros w r w' HI [= <- <-]. done. Qed.

Lemma preserves_raise {X} (I : world C → Prop) e :
  preserves I (raise (X:=X) e).
Proof. intros w r w' HI [= <- <-]. done. Qed.

Lemma preserves_lift {X} (I : world C → Prop) (r : result X) :
  preserves I (lift r).
Proof. intros w r' w' HI [= <- <-]. done. Qed.

Lemma preserves_when (I : world C → Prop) b (m : M C ()) :
  preserves I m → preserves I (when b m).
Proof. destruct b; [done|]. intros _. apply preserves_mret. Qed.

Lemma preserves_try_except {X} (I : world C → Prop) (m : M C X) h :
  preserves I m → (∀ e, preserves I (h e)) → preserves I (try_except m h).
Proof.
  intros Hm Hh w r w' HI. unfold try_except.
  destruct (m w) as [[x|e] w1] eqn:Hmw.
  - intros [= <- <-]. by eapply Hm.
  - apply (Hh e w1). by eapply Hm.
Qed.

(** *** The metadata invariant *)

Section kept.
Variable user_info : option (gmap string string).
Variable meta_info : gmap string string.

Abbreviation kept := (metadata_kept (C:=C) user_info meta_info).

Lemma preserves_call s (m : M C ()) : preserves kept m → preserves kept (call s m).
Proof.
  intros Hm w r w' HI. unfold call.
  destruct (m w) as [r1 w1] eqn:Hmw. intros [= <- <-].
  by apply (Hm _ _ _ HI) in Hmw.
Qed.

Lemma preserves_do_file_work s : preserves kept (do_file_work file_work s).
Proof.
  intros w r w' HI. unfold do_file_work.
  destruct (file_work s (files (rec_dir w))) as [r1 fs]. intros [= <- <-].
  done.
Qed.

Lemma preserves_load_object path : preserves kept (load_object (C:=C) path).
Proof.
  intros w r w' HI. unfold load_object, get_rec, raise, mbind, M_bind, mret,
    M_mret. simpl.
  destruct (files (rec_dir w) !! path); intros [= <- <-]; done.
Qed.

Lemma preserves_save_object c path : preserves kept (save_object (C:=C) c path).
Proof. intros w r w' HI [= <- <-]. done. Qed.

Lemma preserves_update_info_version_to new_version :
  preserves kept (_update_info_version_to (C:=C) new_version).
Proof.
  intros w r w' [Hu (m & Hm & Hk)].
  unfold _update_info_version_to, load_meta_info, update_meta_info, get_rec,
    put_rec, mbind, M_bind, mret, M_mret. simpl. rewrite Hm. simpl.
  intros [= <- <-]. split; [done|]. eexists. split; [done|].
  intros k Hne. rewrite lookup_insert_ne by done. by apply Hk.
Qed.

Lemma preserves_bytes_to_unicode :
  preserves kept (update_recording_bytes_to_unicode file_work).
Proof.
  unfold update_recording_bytes_to_unicode.
  apply preserves_bind; [apply preserves_do_file_work|]. intros _.
  intros w r w' HI. pose proof HI as [Hu (m & Hm & Hk)].
  unfold get_rec, put_rec, mbind, M_bind. simpl. rewrite Hm.
  intros [= <- <-]. split; [done|]. eauto.
Qed.

Ltac solve_preserves :=
  repeat first
    [ apply preserves_update_info_version_to
    | apply preserves_do_file_work
    | apply preserves_load_object
    | apply preserves_save_object
    | apply preserves_lift
    | apply preserves_raise
    | apply preserves_mret
    | apply preserves_bytes_to_unicode
    | apply preserves_bind; [|intros ?]
    | apply preserves_try_except; [|intros ?]
    | progress case_match ].

Lemma preserves_step_bodies :
  preserves kept (convert_pupil_mobile_recording_to_v094 file_work) ∧
  preserves kept (update_recording_v073_to_v074 file_work) ∧
  preserves kept (update_recording_v05_to_v074 file_work) ∧
  preserves kept (update_recording_v04_to_v074 file_work) ∧
  preserves kept (update_recording_v03_to_v074 file_work) ∧
  preserves kept (update_recording_v074_to_v082 (C:=C)) ∧
  preserves kept (update_recording_v082_to_v083 transform) ∧
  preserves kept (update_recording_v083_to_v086 transform) ∧
  preserves kept (update_recording_v086_to_v087 transform) ∧
  preserves kept (update_recording_v087_to_v091 (C:=C)) ∧
  preserves kept (update_recording_v091_to_v093 transform) ∧
  preserves kept (update_recording_v093_to_v094 file_work) ∧
  preserves kept (update_recording_v094_to_v0913 file_work true) ∧
  preserves kept (update_recording_v0913_to_v0915 file_work) ∧
  preserves kept (update_recording_v0915_v13 file_work) ∧
  preserves kept (update_recording_v13_v14 (C:=C)) ∧
  preserves kept (check_for_worldless_recording file_work) ∧
  preserves kept (update_recording_v14_v18 file_work) ∧
  preserves kept (update_recording_v18_v19 file_work).
Proof.
  unfold convert_pupil_mobile_recording_to_v094,
    update_recording_v073_to_v074, update_recording_v05_to_v074,
    update_recording_v04_to_v074, update_recording_v03_to_v074,
    update_recording_v074_to_v082, update_recording_v082_to_v083,
    update_recording_v083_to_v086, update_recording_v086_to_v087,
    update_recording_v087_to_v091, update_recording_v091_to_v093,
    update_recording_v093_to_v094, update_recording_v094_to_v0913,
    update_recording_v094_to_v0913_body,
    update_recording_v0913_to_v0915, update_recording_v0915_v13,
    update_recording_v13_v14, check_for_worldless_recording,
    update_recording_v14_v18, update_recording_v18_v19.
  split_and!; solve_preserves.
Qed.

Lemma preserves_update_meta_info m :
  (∀ k, k ≠ "Data Format Version"%string → m !! k = meta_info !! k) →
  preserves kept (update_meta_info (C:=C) m).
Proof.
  intros Hm w r w' [Hu _] [= <- <-]. split; [done|]. eauto.
Qed.

Ltac solve_kept Hm :=
  let H := fresh in
  destruct preserves_step_bodies as (? & ? & ? & ? & ? & ? & ? & ? & ? & ? &
    ? & ? & ? & ? & ? & ? & ? & ? & ?);
  unfold logger_Error;
  repeat first
    [ assumption
    | apply preserves_mret
    | apply preserves_raise
    | apply preserves_lift
    | apply preserves_bytes_to_unicode
    | apply preserves_update_meta_info;
        [done || exact Hm
         || (intros ? ?; rewrite lookup_insert_ne by done; by apply Hm)]
    | apply preserves_when
    | apply preserves_call
    | apply preserves_bind; [|intros ?]
    | progress case_match ].

Lemma preserves_rest (m : gmap string string) :
  (∀ k, k ≠ "Data Format Version"%string → m !! k = meta_info !! k) →
  preserves kept
    (update_meta_info m ≫= λ _ : (),
     (meta ←
        (if is_unversioned_pupil_mobile m then
           call pupil_mobile_to_v094
             (convert_pupil_mobile_recording_to_v094 file_work);;
           let meta := <["Data Format Version" := "v0.9.4"%string]> m in
           update_meta_info meta;; mret meta
         else mret m);
      rec_version ← lift (read_rec_version meta);
      when (bool_decide (version_le rec_version (VersionFormat 0 8 7)))
        (call bytes_to_unicode (update_recording_bytes_to_unicode file_work));;
      returned ←
        (if bool_decide (version_le (VersionFormat 0 7 4) rec_version) then
           mret false
         else if bool_decide (version_le (VersionFormat 0 7 3) rec_version) then
           call v073_to_v074 (update_recording_v073_to_v074 file_work);;
           mret false
         else if bool_decide (version_le (VersionFormat 0 5 0) rec_version) then
           call v05_to_v074 (update_recording_v05_to_v074 file_work);;
           mret false
         else if bool_decide (version_le (VersionFormat 0 4 0) rec_version) then
           call v04_to_v074 (update_recording_v04_to_v074 file_work);;
           mret false
         else if bool_decide (version_le (VersionFormat 0 3 0) rec_version) then
           call v03_to_v074 (update_recording_v03_to_v074 file_work);;
           mret false
         else
           logger_Error "This recording is too old. Sorry.";;
           mret true);
      if returned : bool then mret () else
      when (bool_decide (version_lt rec_version (VersionFormat 0 8 2)))
        (call v074_to_v082 update_recording_v074_to_v082);;
      when (bool_decide (version_lt rec_version (VersionFormat 0 8 3)))
        (call v082_to_v083 (update_recording_v082_to_v083 transform));;
      when (bool_decide (version_lt rec_version (VersionFormat 0 8 6)))
        (call v083_to_v086 (update_recording_v083_to_v086 transform));;
      when (bool_decide (version_lt rec_version (VersionFormat 0 8 7)))
        (call v086_to_v087 (update_recording_v086_to_v087 transform));;
      when (bool_decide (version_lt rec_version (VersionFormat 0 9 1)))
        (call v087_to_v091 update_recording_v087_to_v091);;
      when (bool_decide (version_lt rec_version (VersionFormat 0 9 3)))
        (call v091_to_v093 (update_recording_v091_to_v093 transform));;
      when (bool_decide (version_lt rec_version (VersionFormat 0 9 4)))
        (call v093_to_v094 (update_recording_v093_to_v094 file_work));;
      when (bool_decide (version_lt rec_version (VersionFormat 0 9 13)))
        (call v094_to_v0913 (update_recording_v094_to_v0913 file_work true));;
      when (bool_decide (version_lt rec_version (VersionFormat 0 9 15)))
        (call v0913_to_v0915 (update_recording_v0913_to_v0915 file_work));;
      when (bool_decide (version_lt rec_version (VersionFormat 1 3 0)))
        (call v0915_v13 (update_recording_v0915_v13 file_work));;
      when (bool_decide (version_lt rec_version (VersionFormat 1 4 0)))
        (call v13_v14 update_recording_v13_v14);;
      call worldless_check (check_for_worldless_recording file_work);;
      when (bool_decide (version_lt rec_version (VersionFormat 1 8 0)))
        (call v14_v18 (update_recording_v14_v18 file_work));;
      when (bool_decide (version_lt rec_version (VersionFormat 1 9 0)))
        (call v18_v19 (update_recording_v18_v19 file_work));;
      mret ())).
Proof.
  intros Hm. solve_kept Hm.
Qed.

End kept.

(** X15.  However a run ends, with a result or an exception at any step, it
    leaves [user_info.csv] as it was and changes no metadata entry other
    than the version: once the metadata have been loaded, [info.csv] exists
    and agrees with them on every other key.  When no metadata can be
    loaded the run raises with nothing changed. *)
Theorem run_keeps_metadata w r w' :
  run' w = (r, w') →
  user_info_csv (rec_dir w') = user_info_csv (rec_dir w) ∧
  match (load_meta_info w).1 with
  | Ok meta_info =>
      ∃ m, info_csv (rec_dir w') = Some m ∧
           ∀ k, k ≠ "Data Format Version"%string → m !! k = meta_info !! k
  | Raise e => r = Raise e ∧ w' = w
  end.
Proof.
  intros Hrun. unfold update_recording_to_recent in Hrun.
  pose proof (load_meta_info_pure w) as Hload.
  destruct (load_meta_info w).1 as [meta_info|e] eqn:Hl; simpl in Hload.
  - rewrite (bind_ok_at _ _ _ _ _ Hload) in Hrun.
    set (w1 := mkWorld (mkRecording (Some meta_info)
                          (user_info_csv (rec_dir w)) (files (rec_dir w)))
                 (calls w)).
    assert (metadata_kept (user_info_csv (rec_dir w)) meta_info w') as [Hu Hm].
    { apply (preserves_rest (user_info_csv (rec_dir w)) meta_info meta_info
               ltac:(done) w1 r w'); [|exact Hrun].
      split; [done|]. by exists meta_info. }
    done.
  - rewrite (bind_raise_at _ _ _ _ _ Hload) in Hrun. by simplify_eq.
Qed.

(** X17.  The early failures of a run.  With neither [info.csv] nor
    [user_info.csv] the run raises [FileNotFoundError] and changes nothing.
    When the metadata load but their version cannot be read, the run raises
    what [read_rec_version] raised, before any step is called; [info.csv]
    has been written by then, also for a recording that only had
    [user_info.csv]. *)
Theorem run_early_failures w :
  (info_csv (rec_dir w) = None → user_info_csv (rec_dir w) = None →
   run' w = (Raise FileNotFoundError, w)) ∧
  (∀ meta_info e,
     (load_meta_info w).1 = Ok meta_info →
     is_unversioned_pupil_mobile meta_info = false →
     read_rec_version meta_info = Raise e →
     run' w = (Raise e,
               mkWorld (mkRecording (Some meta_info)
                          (user_info_csv (rec_dir w)) (files (rec_dir w)))
                 (calls w))).
Proof.
  split.
  - intros Hi Hu. unfold update_recording_to_recent, load_meta_info, get_rec,
      raise, mbind, M_bind. simpl. by rewrite Hi, Hu.
  - intros meta_info e Hl Hmob Hv.
    assert (load_meta_info w = (Ok meta_info, w)) as Hload
      by (by rewrite load_meta_info_pure, Hl).
    unfold update_recording_to_recent.
    rewrite (bind_ok_at _ _ _ _ _ Hload).
    rewrite (bind_ok_at _ _ w ()
      (mkWorld (mkRecording (Some meta_info) (user_info_csv (rec_dir w))
                  (files (rec_dir w))) (calls w))) by reflexivity.
    rewrite Hmob, mret_bind_at, Hv. reflexivity.
Qed.
End migration_more.

(** *** The rewriting steps of [pupil_data] *)

Lemma mapM_result_Ok {X Y} (f : X → result Y) (l : list X) (k : list Y) :
  mapM f l = Ok k ↔ Forall2 (λ x y, f x = Ok y) l k.
Proof.
  revert k. induction l as [|x l IH]; intros k; simpl.
  - split; [intros [= <-]; constructor | by inversion 1].
  - destruct (f x) as [y|e] eqn:Hx; simpl.
    + destruct (mapM f l) as [k'|e] eqn:Hl; simpl.
      * split.
        -- intros [= <-]. constructor; [done|]. by apply IH.
        -- inversion 1 as [|? y' ? k'' Hy Hk]; subst.
           apply IH in Hk. rewrite Hx in Hy. by simplify_eq.
      * split; [done|]. inversion 1 as [|? y' ? k'' Hy Hk]; subst.
        by apply IH in Hk.
    + split; [done|]. inversion 1; congruence.
Qed.

Lemma mapM_result_Raise {X Y} (f : X → result Y) (l : list X) e :
  mapM f l = Raise e → ∃ x, x ∈ l ∧ f x = Raise e.
Proof.
  induction l as [|x l IH]; simpl; [done|].
  destruct (f x) as [y|e'] eqn:Hx; simpl.
  - destruct (mapM f l) as [k'|e''] eqn:Hl; simpl; [done|].
    intros [= ->]. destruct (IH eq_refl) as (x' & Hin & Hx').
    exists x'. split; [by right|done].
  - intros [= ->]. exists x. split; [by left|done].
Qed.

Section pupil_data_facts.
Variable parse_float : string → option Q.

Abbreviation tr := (pupil_data_transform parse_float).

(** What a load-rewrite-save step comes to, by the outcome of the
    rewriting: the step writes nothing unless the rewriting returns. *)
Lemma rewriting_step (s : step) (new_version : string) (w : world pupil_data)
    pd m :
  files (rec_dir w) !! "pupil_data"%string = Some pd →
  info_csv (rec_dir w) = Some m →
  (pupil_data ← load_object "pupil_data";
   pupil_data ← lift (tr s pupil_data);
   save_object pupil_data "pupil_data";;
   _update_info_version_to new_version) w
  = match tr s pd with
    | Ok pd' =>
        (Ok (),
         mkWorld (mkRecording
                    (Some (<["Data Format Version"%string := new_version]> m))
                    (user_info_csv (rec_dir w))
                    (<["pupil_data"%string := pd']> (files (rec_dir w))))
           (calls w))
    | Raise e => (Raise e, w)
    end.
Proof.
  intros Hpd Hm.
  unfold load_object, save_object, _update_info_version_to, load_meta_info,
    update_meta_info, get_rec, put_rec, lift, mbind, M_bind, mret, M_mret.
  simpl. rewrite Hpd. simpl. destruct (tr s pd) as [pd'|e]; [|done].
  simpl. by rewrite Hm.
Qed.

Lemma rename_base_spec (d : pydict) :
  rename_base d !! "base"%string = None ∧
  rename_base d !! "base_data"%string
    = (match d !! "base"%string with
       | Some v => Some v
       | None => d !! "base_data"%string
       end) ∧
  ∀ k, k ≠ "base"%string → k ≠ "base_data"%string →
       rename_base d !! k = d !! k.
Proof.
  unfold rename_base. destruct (d !! "base"%string) as [v|] eqn:Hb.
  - split_and!.
    + rewrite lookup_insert_ne by done. by rewrite lookup_delete_eq.
    + by rewrite lookup_insert_eq.
    + intros k Hk1 Hk2. rewrite lookup_insert_ne by done.
      by rewrite lookup_delete_ne.
  - done.
Qed.

Lemma rename_base_idemp (d : pydict) : rename_base (rename_base d) = rename_base d.
Proof.
  destruct (rename_base_spec d) as (Hb & _).
  unfold rename_base at 1. by rewrite Hb.
Qed.

(** X18.  [update_recording_v082_to_v083] on a recording whose
    [pupil_data] has gaze positions: the step returns and writes version
    v0.8.3; afterwards no gaze datum has the key [base], [base_data] holds
    what [base] held (and is as before in a datum that had no [base]),
    every other key of every gaze datum and every other topic are
    unchanged; rewriting the result once more changes nothing.  Without the
    key [gaze_positions] the step raises [KeyError] and the recording is as
    before, version included. *)
Theorem v082_to_v083_renames_base (w : world pupil_data) pd m :
  files (rec_dir w) !! "pupil_data"%string = Some pd →
  info_csv (rec_dir w) = Some m →
  match pd !! "gaze_positions"%string with
  | Some gaze =>
      ∃ w' pd' gaze',
        update_recording_v082_to_v083 tr w = (Ok (), w') ∧
        files (rec_dir w') = <["pupil_data"%string := pd']> (files (rec_dir w)) ∧
        info_csv (rec_dir w')
          = Some (<["Data Format Version"%string := "v0.8.3"%string]> m) ∧
        pd' !! "gaze_positions"%string = Some gaze' ∧
        (∀ topic, topic ≠ "gaze_positions"%string → pd' !! topic = pd !! topic) ∧
        Forall2 (λ d d' : pydict,
                   d' !! "base"%string = None ∧
                   d' !! "base_data"%string
                     = (match d !! "base"%string with
                        | Some v => Some v
                        | None => d !! "base_data"%string
                        end) ∧
                   ∀ k, k ≠ "base"%string → k ≠ "base_data"%string →
                        d' !! k = d !! k) gaze gaze' ∧
        tr v082_to_v083 pd' = Ok pd'
  | None => update_recording_v082_to_v083 tr w = (Raise KeyError, w)
  end.
Proof.
  intros Hpd Hm. unfold update_recording_v082_to_v083.
  rewrite (rewriting_step v082_to_v083 _ w pd m Hpd Hm). simpl.
  unfold transform_v082_to_v083.
  destruct (pd !! "gaze_positions"%string) as [gaze|] eqn:Hg; [|done].
  eexists _, _, (rename_base <$> gaze). split; [reflexivity|]. simpl.
  split_and!; [done|done|by rewrite lookup_insert_eq| | |].
  - intros topic Hne. by rewrite lookup_insert_ne.
  - apply Forall2_fmap_r, Forall_Forall2_diag, Forall_forall.
    intros d _. apply rename_base_spec.
  - rewrite lookup_insert_eq. f_equal. rewrite insert_insert_eq. f_equal.
    rewrite <- list_fmap_compose. apply list_fmap_ext.
    intros i d _. apply rename_base_idemp.
Qed.

(** X19.  [update_recording_v083_to_v086] always returns on a loaded
    [pupil_data]: afterwards the topics are the same, each with as many
    data, every datum carries the topic it is filed under in its key
    [topic], and every other key is unchanged; the version written is
    v0.8.6, and rewriting once more changes nothing. *)
Theorem v083_to_v086_tags_topics (w : world pupil_data) pd m :
  files (rec_dir w) !! "pupil_data"%string = Some pd →
  info_csv (rec_dir w) = Some m →
  ∃ w' pd',
    update_recording_v083_to_v086 tr w = (Ok (), w') ∧
    files (rec_dir w') = <["pupil_data"%string := pd']> (files (rec_dir w)) ∧
    info_csv (rec_dir w')
      = Some (<["Data Format Version"%string := "v0.8.6"%string]> m) ∧
    (∀ topic,
       match pd !! topic, pd' !! topic with
       | Some data, Some data' =>
           Forall2 (λ d d' : pydict,
                      d' !! "topic"%string = Some (VStr topic) ∧
                      ∀ k, k ≠ "topic"%string → d' !! k = d !! k) data data'
       | None, None => True
       | _, _ => False
       end) ∧
    tr v083_to_v086 pd' = Ok pd'.
Proof.
  intros Hpd Hm. unfold update_recording_v083_to_v086.
  rewrite (rewriting_step v083_to_v086 _ w pd m Hpd Hm). simpl.
  unfold transform_v083_to_v086.
  eexists _, _. split; [reflexivity|]. simpl. split_and!; [done|done| |].
  - intros topic. rewrite map_lookup_imap.
    destruct (pd !! topic) as [data|]; simpl; [|done].
    apply Forall2_fmap_r, Forall_Forall2_diag, Forall_forall.
    intros d _. split; [by rewrite lookup_insert_eq|].
    intros k Hk. by rewrite lookup_insert_ne.
  - f_equal. apply map_eq. intros topic. rewrite !map_lookup_imap.
    destruct (pd !! topic) as [data|]; simpl; [|done]. f_equal.
    rewrite <- list_fmap_compose. apply list_fmap_ext.
    intros i d _. simpl. by rewrite insert_insert_eq.
Qed.

Lemma clamp_spec (x : value) :
  match x with
  | VNum q =>
      ∃ q', clamp x = Ok (VNum q') ∧ norm_range q' ∧
            (norm_range q → q' == q)%Q ∧
            ((q <= -100)%Q → q' = (-100)%Q) ∧ ((100 <= q)%Q → q' = 100%Q)
  | _ => clamp x = Raise TypeError
  end.
Proof.
  destruct x as [|q| | | |]; try done. unfold clamp, norm_range.
  destruct (Qle_bool q (-100)) eqn:Hlo.
  - apply Qle_bool_iff in Hlo. simpl. exists (-100)%Q.
    split_and!; [done|done|done|intros [? ?]; lra|done|intros ?; lra].
  - assert (¬ (q <= -100)%Q) as Hlo' by (rewrite <- Qle_bool_iff; congruence).
    destruct (Qle_bool 100 q) eqn:Hhi.
    + apply Qle_bool_iff in Hhi. exists 100%Q.
      split_and!; [done|done|done|intros [? ?]; lra|done|done].
    + assert (¬ (100 <= q)%Q) as Hhi'
        by (rewrite <- Qle_bool_iff; congruence).
      exists q. split_and!; [done|lra|lra|done|done|done].
Qed.

(** X20.  [update_recording_v086_to_v087].  When the step returns on a
    recording with gaze positions, every gaze datum has a [topic] (its own,
    or "gaze" if it had none) and its [norm_pos] is a pair of numbers
    within [-100, 100], each the old component if that was within the
    range; every other key is unchanged and the version written is v0.8.7.
    When some gaze datum has no [norm_pos] the step raises [KeyError] and
    the recording is as before.  Without the key [gaze_positions] the step
    returns, with [pupil_data] as it was and the version written. *)
Theorem v086_to_v087_clamps_norm_pos (w : world pupil_data) pd m :
  files (rec_dir w) !! "pupil_data"%string = Some pd →
  info_csv (rec_dir w) = Some m →
  let w_done pd' :=
    mkWorld (mkRecording
               (Some (<["Data Format Version"%string := "v0.8.7"%string]> m))
               (user_info_csv (rec_dir w))
               (<["pupil_data"%string := pd']> (files (rec_dir w))))
      (calls w) in
  match pd !! "gaze_positions"%string with
  | Some gaze =>
      (∀ w', update_recording_v086_to_v087 tr w = (Ok (), w') →
         ∃ gaze',
           w' = w_done (<["gaze_positions"%string := gaze']> pd) ∧
           Forall2 (λ g g' : pydict,
             g' !! "topic"%string
               = Some (default (VStr "gaze") (g !! "topic"%string)) ∧
             (∃ x y x' y',
                value_getitem (default VNone (g !! "norm_pos"%string)) 0
                  = Ok (VNum x) ∧
                value_getitem (default VNone (g !! "norm_pos"%string)) 1
                  = Ok (VNum y) ∧
                g' !! "norm_pos"%string = Some (VTuple [VNum x'; VNum y']) ∧
                norm_range x' ∧ norm_range y' ∧
                (norm_range x → x' == x)%Q ∧ (norm_range y → y' == y)%Q) ∧
             ∀ k, k ≠ "topic"%string → k ≠ "norm_pos"%string →
                  g' !! k = g !! k) gaze gaze') ∧
      ((∃ g, g ∈ gaze ∧ g !! "norm_pos"%string = None ∧
             ∀ g0, g0 ∈ gaze → g0 !! "norm_pos"%string ≠ None →
                   ∃ g0', clamp_gaze g0 = Ok g0') →
       update_recording_v086_to_v087 tr w = (Raise KeyError, w))
  | None => update_recording_v086_to_v087 tr w = (Ok (), w_done pd)
  end.
Proof.
  intros Hpd Hm w_done. unfold update_recording_v086_to_v087.
  rewrite (rewriting_step v086_to_v087 _ w pd m Hpd Hm). simpl.
  unfold transform_v086_to_v087.
  destruct (pd !! "gaze_positions"%string) as [gaze|] eqn:Hg; [|done].
  split.
  - intros w'. destruct (mapM clamp_gaze gaze) as [gaze'|e] eqn:Hmap;
      simpl; [|done].
    intros [= <-]. exists gaze'. split; [done|].
    apply mapM_result_Ok in Hmap. eapply Forall2_impl; [exact Hmap|].
    intros g g' Hgg. simpl in Hgg. unfold clamp_gaze, dict_getitem in Hgg.
    set (g1 := match g !! "topic"%string with
               | Some _ => g
               | None => <["topic"%string := VStr "gaze"]> g
               end) in *.
    assert (g1 !! "topic"%string
            = Some (default (VStr "gaze") (g !! "topic"%string))) as Htopic.
    { unfold g1. destruct (g !! "topic"%string) eqn:Ht; simpl; [done|].
      by rewrite lookup_insert_eq. }
    assert (∀ k, k ≠ "topic"%string → g1 !! k = g !! k) as Hother.
    { intros k Hk. unfold g1. destruct (g !! "topic"%string); [done|].
      by rewrite lookup_insert_ne. }
    rewrite (Hother "norm_pos"%string) in Hgg by done.
    destruct (g !! "norm_pos"%string) as [pos|] eqn:Hpos; [|done].
    simpl in Hgg. unfold _clamp_norm_point in Hgg.
    destruct (value_getitem pos 0) as [p0|] eqn:Hp0; [|done]. simpl in Hgg.
    pose proof (clamp_spec p0) as Hc0.
    destruct p0 as [|x| | | |]; try (by rewrite Hc0 in Hgg).
    destruct Hc0 as (x' & Hx' & Hrx & Hkx & _). rewrite Hx' in Hgg.
    simpl in Hgg.
    destruct (value_getitem pos 1) as [p1|] eqn:Hp1; [|done]. simpl in Hgg.
    pose proof (clamp_spec p1) as Hc1.
    destruct p1 as [|y| | | |]; try (by rewrite Hc1 in Hgg).
    destruct Hc1 as (y' & Hy' & Hry & Hky & _). rewrite Hy' in Hgg.
    simpl in Hgg. injection Hgg as <-. split_and!.
    + by rewrite lookup_insert_ne.
    + exists x, y, x', y'. simpl.
      split_and!; [done|done|by rewrite lookup_insert_eq|done..].
    + intros k Hk1 Hk2. rewrite lookup_insert_ne by done. by apply Hother.
  - intros (g & Hin & Hnone & Hrest).
    destruct (mapM clamp_gaze gaze) as [gaze'|e] eqn:Hmap; simpl.
    + exfalso. apply mapM_result_Ok in Hmap.
      apply list_elem_of_lookup_1 in Hin as [i Hi].
      destruct (Forall2_lookup_l _ _ _ _ _ Hmap Hi) as (g' & _ & Hg').
      unfold clamp_gaze, dict_getitem in Hg'.
      destruct (g !! "topic"%string);
        [|rewrite lookup_insert_ne in Hg' by done];
        by rewrite Hnone in Hg'.
    + apply mapM_result_Raise in Hmap as (g0 & Hin0 & Hg0).
      destruct (g0 !! "norm_pos"%string) as [pos|] eqn:Hpos.
      * destruct (Hrest g0 Hin0) as [g0' Hg0']; [by rewrite Hpos|].
        congruence.
      * unfold clamp_gaze, dict_getitem in Hg0.
        destruct (g0 !! "topic"%string);
          [|rewrite lookup_insert_ne in Hg0 by done];
          rewrite Hpos in Hg0; simpl in Hg0; by simplify_eq.
Qed.
End pupil_data_facts.

(** *** The check for a recording without world video *)

Lemma fnmatch_nil name : fnmatch "" name = true ↔ name = ""%string.
Proof. by destruct name. Qed.

Lemma fnmatch_lit c p name :
  Ascii.eqb c "*" = false →
  fnmatch (String c p) name = true
  ↔ ∃ name', name = String c name' ∧ fnmatch p name' = true.
Proof.
  intros Hc. simpl. rewrite Hc. destruct name as [|d name'].
  - split; [done|]. by intros (? & ? & _).
  - rewrite andb_true_iff, Ascii.eqb_eq. split.
    + intros [-> H]. by exists name'.
    + intros (n & [= -> ->] & H). done.
Qed.

Lemma string_app_nil_l (s : string) : ""%string +:+ s = s.
Proof. reflexivity. Qed.

Lemma string_app_cons c (s t : string) : String c s +:+ t = String c (s +:+ t).
Proof. reflexivity. Qed.

Lemma string_app_nil_r (s : string) : s +:+ ""%string = s.
Proof. induction s; [done|]. rewrite string_app_cons. by f_equal. Qed.

Ltac string_simpl :=
  repeat first [rewrite string_app_cons | rewrite string_app_nil_l].
Ltac string_simpl_in H :=
  repeat first [rewrite string_app_cons in H | rewrite string_app_nil_l in H].

Lemma fnmatch_star p name :
  fnmatch (String "*" p) name = true
  ↔ ∃ a b, name = a +:+ b ∧ fnmatch p b = true.
Proof.
  simpl. induction name as [|d name IH].
  - rewrite orb_false_r. split.
    + intros H. by exists ""%string, ""%string.
    + intros (a & b & Hab & H). destruct a; [|done].
      rewrite string_app_nil_l in Hab. by subst b.
  - rewrite orb_true_iff, IH. split.
    + intros [H | (a & b & -> & H)].
      * by exists ""%string, (String d name).
      * by exists (String d a), b.
    + intros (a & b & Hab & H). destruct a as [|d' a]; string_simpl_in Hab.
      * left. by subst b.
      * injection Hab as -> ->. right. by exists a, b.
Qed.

Lemma fnmatch_world name :
  fnmatch "world.*" name = true ↔ ∃ rest, name = "world." +:+ rest.
Proof.
  split.
  - intros H.
    repeat (apply fnmatch_lit in H as (? & -> & H); [|done]).
    eexists. reflexivity.
  - intros [rest ->]. string_simpl.
    repeat (apply fnmatch_lit; [done|]; eexists; split; [reflexivity|]).
    apply fnmatch_star. exists rest, ""%string.
    by rewrite string_app_nil_r.
Qed.

Lemma fnmatch_eye name :
  fnmatch "eye*_timestamps.npy" name = true ↔ is_eye_name name.
Proof.
  unfold is_eye_name. split.
  - intros H.
    do 3 (apply fnmatch_lit in H as (? & -> & H); [|done]).
    apply fnmatch_star in H as (a & b & -> & H).
    repeat (apply fnmatch_lit in H as (? & -> & H); [|done]).
    apply fnmatch_nil in H as ->. by exists a.
  - intros [mid ->]. string_simpl.
    do 3 (apply fnmatch_lit; [done|]; eexists; split; [reflexivity|]).
    apply fnmatch_star. exists mid, "_timestamps.npy"%string. done.
Qed.

Lemma string_length_app (s t : string) :
  String.length (s +:+ t) = (String.length s + String.length t)%nat.
Proof. induction s; string_simpl; simpl; [done|]. by f_equal. Qed.

Lemma substring_all (s : string) : String.substring 0 (String.length s) s = s.
Proof. induction s; simpl; [done|]. by f_equal. Qed.

Lemma substring_app_l (s t : string) :
  String.substring 0 (String.length s) (s +:+ t) = s.
Proof.
  induction s; string_simpl; simpl; [by destruct t|]. by f_equal.
Qed.

Lemma substring_app_r (s t : string) :
  String.substring (String.length s) (String.length t) (s +:+ t) = t.
Proof. induction s; string_simpl; simpl; [apply substring_all|done]. Qed.

Lemma substring_split (p : string) (i : nat) :
  (i ≤ String.length p)%nat →
  p = String.substring 0 i p +:+ String.substring i (String.length p - i) p.
Proof.
  revert i. induction p as [|c p IH]; intros i Hi; simpl in *.
  - by destruct i.
  - destruct i as [|i]; simpl; string_simpl.
    + f_equal. by rewrite substring_all.
    + f_equal. apply IH. lia.
Qed.

Lemma rfind_dot_lt (p : string) i :
  rfind_dot p = Some i → (i < String.length p)%nat.
Proof.
  revert i. induction p as [|c p IH]; intros i; simpl; [done|].
  destruct (rfind_dot p) as [j|].
  - intros [= <-]. specialize (IH j eq_refl). lia.
  - destruct (Ascii.eqb c "."); [|done]. intros [= <-]. lia.
Qed.

Lemma rfind_dot_app (stem e : string) :
  rfind_dot e = None →
  rfind_dot (stem +:+ String "." e) = Some (String.length stem).
Proof.
  intros He. induction stem as [|c stem IH]; string_simpl; simpl.
  - by rewrite He.
  - by rewrite IH.
Qed.

(** The extension [splitext] finds on a name that ends with one of the
    video extensions. *)
Lemma splitext_valid_ext (c : ascii) (stem ext : string) :
  Ascii.eqb c "." = false → ext ∈ valid_ext →
  (splitext (String c stem +:+ ext)).2 = ext.
Proof.
  intros Hc Hext.
  assert (∃ e, ext = String "." e ∧ rfind_dot e = None) as (e & -> & He).
  { unfold valid_ext in Hext. set_unfold in Hext.
    destruct Hext as [->|[->|[->|[->|[->|[]]]]]]; by eexists. }
  assert (only_dots (String c stem) = false) as Hdots by (simpl; by rewrite Hc).
  generalize dependent (String c stem). intros s Hdots.
  unfold splitext. rewrite (rfind_dot_app s e He), substring_app_l, Hdots.
  simpl snd. rewrite string_length_app.
  replace (String.length s + String.length (String "." e) - String.length s)%nat
    with (String.length (String "." e)) by lia.
  apply substring_app_r.
Qed.

Lemma splitext_ext_suffix (p ext : string) :
  (splitext p).2 = ext → ext ≠ ""%string → ∃ stem, p = stem +:+ ext.
Proof.
  unfold splitext. destruct (rfind_dot p) as [i|] eqn:Hi; [|by intros <-].
  destruct (only_dots _); [by intros <-|]. simpl. intros <- _.
  eexists. apply substring_split. apply rfind_dot_lt in Hi. lia.
Qed.

Lemma is_video_name_splitext (name : string) :
  fnmatch "world.*" name = true ∧ (splitext name).2 ∈ valid_ext
  ↔ is_video_name name.
Proof.
  unfold is_video_name. rewrite fnmatch_world. split.
  - intros [Hw Hext]. split; [done|].
    destruct (splitext_ext_suffix name _ eq_refl) as [stem Hstem].
    { intros Hnil. rewrite Hnil in Hext. unfold valid_ext in Hext.
      set_unfold in Hext. by destruct Hext as [?|[?|[?|[?|[?|[]]]]]]. }
    by exists stem, (splitext name).2.
  - intros [[rest Hw] (stem & ext & Hext & Hname)]. split; [by exists rest|].
    destruct stem as [|c stem].
    + exfalso. rewrite Hname in Hw. string_simpl_in Hw.
      unfold valid_ext in Hext. set_unfold in Hext.
      by destruct Hext as [->|[->|[->|[->|[->|[]]]]]].
    + rewrite Hname in Hw |- *. string_simpl_in Hw. injection Hw as -> _.
      by rewrite splitext_valid_ext.
Qed.

Lemma listdir_keys_spec {C} (fs : gmap string C) name :
  name ∈ listdir_keys fs ↔ is_Some (fs !! name).
Proof.
  unfold listdir_keys. rewrite list_elem_of_fmap. split.
  - intros ([k c] & -> & Hin). apply elem_of_map_to_list in Hin. by exists c.
  - intros [c Hc]. exists (name, c). split; [done|].
    by apply elem_of_map_to_list.
Qed.

Lemma foldl_py_min_finite (a : Q) (l : list Q) :
  ∃ m, foldl py_min (Finite a) l = Finite m ∧ m ∈ a :: l ∧
       ∀ x, x ∈ a :: l → (m <= x)%Q.
Proof.
  revert a. induction l as [|b l IH]; intros a; simpl.
  - exists a. split; [done|]. split; [by left|]. intros x Hx.
    apply elem_of_cons in Hx as [->|Hx]; [lra|by apply elem_of_nil in Hx].
  - assert (∃ a', (if Qle_bool a b then Finite a else Finite b) = Finite a' ∧
                  (a' = a ∨ a' = b) ∧ (a' <= a)%Q ∧ (a' <= b)%Q)
      as (a' & -> & Hor & Ha & Hb).
    { destruct (Qle_bool a b) eqn:Hab.
      - apply Qle_bool_iff in Hab. exists a.
        split_and!; [done|by left|lra|done].
      - assert (¬ (a <= b)%Q) by (rewrite <- Qle_bool_iff; congruence).
        exists b. split_and!; [done|by right|lra|lra]. }
    destruct (IH a') as (m & -> & Hin & Hle). exists m. split; [done|].
    assert (m <= a')%Q by (apply Hle; by left).
    split.
    + apply elem_of_cons in Hin as [->|Hin].
      * destruct Hor as [->| ->]; [by left|right; by left].
      * right. by right.
    + intros x Hx. apply elem_of_cons in Hx as [->|Hx]; [lra|].
      apply elem_of_cons in Hx as [->|Hx]; [lra|]. apply Hle. by right.
Qed.

Lemma foldl_py_max_finite (a : Q) (l : list Q) :
  ∃ m, foldl py_max (Finite a) l = Finite m ∧ m ∈ a :: l ∧
       ∀ x, x ∈ a :: l → (x <= m)%Q.
Proof.
  revert a. induction l as [|b l IH]; intros a; simpl.
  - exists a. split; [done|]. split; [by left|]. intros x Hx.
    apply elem_of_cons in Hx as [->|Hx]; [lra|by apply elem_of_nil in Hx].
  - assert (∃ a', (if Qle_bool b a then Finite a else Finite b) = Finite a' ∧
                  (a' = a ∨ a' = b) ∧ (a <= a')%Q ∧ (b <= a')%Q)
      as (a' & -> & Hor & Ha & Hb).
    { destruct (Qle_bool b a) eqn:Hab.
      - apply Qle_bool_iff in Hab. exists a.
        split_and!; [done|by left|lra|done].
      - assert (¬ (b <= a)%Q) by (rewrite <- Qle_bool_iff; congruence).
        exists b. split_and!; [done|by right|lra|lra]. }
    destruct (IH a') as (m & -> & Hin & Hle). exists m. split; [done|].
    assert (a' <= m)%Q by (apply Hle; by left).
    split.
    + apply elem_of_cons in Hin as [->|Hin].
      * destruct Hor as [->| ->]; [by left|right; by left].
      * right. by right.
    + intros x Hx. apply elem_of_cons in Hx as [->|Hx]; [lra|].
      apply elem_of_cons in Hx as [->|Hx]; [lra|]. apply Hle. by right.
Qed.

(** [np.arange(start, stop, 1 / 30)] for [start < stop]: the first entry
    is [start], and the entries ascend. *)
Lemma np_arange_spec (start stop : Q) :
  (start < stop)%Q →
  let ts := np_arange start stop (1 / 30) in
  (∃ t0, ts !! 0%nat = Some t0 ∧ (t0 == start)%Q) ∧
  (∀ (i j : nat) ti tj, (i ≤ j)%nat →
     ts !! i = Some ti → ts !! j = Some tj → (ti <= tj)%Q).
Proof.
  intros Hlt ts. unfold np_arange in ts.
  set (q := ((stop - start) / (1 / 30))%Q) in *.
  assert (q * (1 # 30) == stop - start)%Q as Hq by (unfold q; field).
  pose proof (Qle_ceiling q) as Hceil.
  assert (0 < Qceiling q) as Hpos.
  { rewrite Zlt_Qlt. change (inject_Z 0) with 0%Q. lra. }
  assert (∀ (i : nat) t, ts !! i = Some t →
            t = (start + inject_Z (Z.of_nat i) * (1 / 30))%Q) as Hlook.
  { intros i t Hi. unfold ts in Hi. rewrite list_lookup_fmap in Hi.
    destruct (seq 0 _ !! i) as [j|] eqn:Hj; [|done].
    apply lookup_seq in Hj as [-> Hj]. simpl in Hi. by injection Hi as <-. }
  split.
  - eexists. split.
    + unfold ts. rewrite list_lookup_fmap.
      replace (Z.to_nat (Qceiling q)) with (S (Z.to_nat (Qceiling q) - 1))
        by lia.
      reflexivity.
    + change (inject_Z (Z.of_nat 0)) with 0%Q.
      change (1 / 30)%Q with (1 # 30)%Q. lra.
  - intros i j ti tj Hij Hi Hj.
    rewrite (Hlook i ti Hi), (Hlook j tj Hj).
    assert (inject_Z (Z.of_nat i) <= inject_Z (Z.of_nat j))%Q as Hle
      by (rewrite <- Zle_Qle; lia).
    change (1 / 30)%Q with (1 # 30)%Q. lra.
Qed.

Section worldless_facts.
Context {C : Type}.
Variable listdir : gmap string C → list string.
Variable np_load : C → result ndarray.
Variable np_save : list Q → C.
Variable dump_object : value → C.

(** The listing has the names of the files of the directory. *)
Hypothesis listdir_spec :
  ∀ fs name, name ∈ listdir fs ↔ is_Some (fs !! name).

#[local] Abbreviation check := (worldless_file_work listdir np_load np_save dump_object).
#[local] Abbreviation videos := (existing_videos listdir).
#[local] Abbreviation used := (usable np_load).

Lemma existing_videos_spec fs name :
  name ∈ videos fs ↔ is_Some (fs !! name) ∧ is_video_name name.
Proof.
  unfold existing_videos, glob. rewrite !list_elem_of_filter, listdir_spec.
  rewrite <- is_video_name_splitext. tauto.
Qed.

Lemma glob_eye_spec fs name :
  name ∈ glob listdir fs "eye*_timestamps.npy"
  ↔ is_Some (fs !! name) ∧ is_eye_name name.
Proof.
  unfold glob. rewrite list_elem_of_filter, listdir_spec, fnmatch_eye. tauto.
Qed.

Lemma eye_range_usable fs f mn mx :
  match used fs f with
  | Some (a, b) => eye_range np_load fs f mn mx = Ok (py_min mn a, py_max mx b)
  | None => ∃ e, eye_range np_load fs f mn mx = Raise e ∧
                 (e = FileNotFoundError ∨ e = AssertionError ∨
                  ∃ c, fs !! f = Some c ∧ np_load c = Raise e)
  end.
Proof.
  unfold usable, eye_range. destruct (fs !! f) as [c|]; simpl.
  - destruct (np_load c) as [[l|]|e] eqn:Hload; simpl.
    + case_bool_decide; [done|]. eexists. split; [done|]. tauto.
    + eexists. split; [done|]. tauto.
    + exists e. split; [done|]. right. right. by exists c.
  - eexists. split; [done|]. tauto.
Qed.

Lemma eye_loop_Ok fs names mn mx mn' mx' :
  eye_loop np_load fs names mn mx = Ok (mn', mx') →
  mn' = foldl py_min mn (omap (used fs) names).*1 ∧
  mx' = foldl py_max mx (omap (used fs) names).*2.
Proof.
  revert mn mx. induction names as [|f names IH]; intros mn mx; simpl.
  - by intros [= <- <-].
  - pose proof (eye_range_usable fs f mn mx) as Hf.
    destruct (used fs f) as [[a b]|]; simpl.
    + rewrite Hf. apply IH.
    + destruct Hf as (e & -> & _). destruct e; try done; apply IH.
Qed.

Lemma eye_loop_returns fs names mn mx :
  (∀ f c e, f ∈ names → fs !! f = Some c → np_load c = Raise e →
            e = FileNotFoundError ∨ e = AssertionError) →
  ∃ r, eye_loop np_load fs names mn mx = Ok r.
Proof.
  revert mn mx. induction names as [|f names IH]; intros mn mx Hexc; simpl.
  - by eexists.
  - assert (∀ f0 c e, f0 ∈ names → fs !! f0 = Some c → np_load c = Raise e →
                      e = FileNotFoundError ∨ e = AssertionError) as Hexc'.
    { intros f0 c e Hf0. apply Hexc. by right. }
    pose proof (eye_range_usable fs f mn mx) as Hf.
    destruct (used fs f) as [[a b]|].
    + rewrite Hf. by apply IH.
    + destruct Hf as (e & -> & He).
      assert (e = FileNotFoundError ∨ e = AssertionError) as [->| ->].
      { destruct He as [?|[?|(c & Hc & Hl)]]; [tauto..|].
        eapply Hexc; [by left|done..]. }
      * by apply IH.
      * by apply IH.
Qed.

Lemma omap_usable_elem fs (names : list string) a b :
  (a, b) ∈ omap (used fs) names ↔ ∃ f, f ∈ names ∧ used fs f = Some (a, b).
Proof. by rewrite list_elem_of_omap. Qed.

(** What the loop over the eye files leaves in [min_ts] and [max_ts]. *)
Lemma eye_loop_bounds fs names mn mx :
  eye_loop np_load fs names PosInf NegInf = Ok (mn, mx) →
  match omap (used fs) names with
  | [] => mn = PosInf ∧ mx = NegInf
  | _ :: _ =>
      ∃ a b, mn = Finite a ∧ mx = Finite b ∧
        (∃ f b', f ∈ names ∧ used fs f = Some (a, b')) ∧
        (∃ f a', f ∈ names ∧ used fs f = Some (a', b)) ∧
        ∀ f a' b', f ∈ names → used fs f = Some (a', b') →
                   (a <= a')%Q ∧ (b' <= b)%Q
  end.
Proof.
  intros Hloop. apply eye_loop_Ok in Hloop as [-> ->].
  pose proof (omap_usable_elem fs names) as Helem.
  destruct (omap (used fs) names) as [|[a0 b0] us]; [done|].
  rewrite !fmap_cons. cbn [foldl fst snd py_min py_max].
  destruct (foldl_py_min_finite a0 us.*1) as (a & -> & Ha & Hmin).
  destruct (foldl_py_max_finite b0 us.*2) as (b & -> & Hb & Hmax).
  exists a, b. split_and!; [done|done| | |].
  - change (a0 :: us.*1) with (((a0, b0) :: us).*1) in Ha.
    apply list_elem_of_fmap in Ha as ([a1 b1] & -> & Hin).
    apply Helem in Hin as (f & Hf & Hu). by exists f, b1.
  - change (b0 :: us.*2) with (((a0, b0) :: us).*2) in Hb.
    apply list_elem_of_fmap in Hb as ([a1 b1] & -> & Hin).
    apply Helem in Hin as (f & Hf & Hu). by exists f, a1.
  - intros f a' b' Hf Hu.
    assert ((a', b') ∈ (a0, b0) :: us) as Hin by (apply Helem; by exists f).
    split.
    + apply Hmin. change (a0 :: us.*1) with (((a0, b0) :: us).*1).
      apply list_elem_of_fmap. by exists (a', b').
    + apply Hmax. change (b0 :: us.*2) with (((a0, b0) :: us).*2).
      apply list_elem_of_fmap. by exists (a', b').
Qed.

Lemma bound_lt_chain mn mx :
  bound_lt NegInf mn && bound_lt mn mx && bound_lt mx PosInf = true
  ↔ ∃ a b, mn = Finite a ∧ mx = Finite b ∧ (a < b)%Q.
Proof.
  destruct mn as [|a|], mx as [|b|]; simpl;
    try (split; [done|by intros (? & ? & ? & ? & _)]).
  rewrite andb_true_r, negb_true_iff. split.
  - intros Hba. exists a, b. split_and!; [done..|].
    apply Qnot_le_lt. intros Hle. apply Qle_bool_iff in Hle. congruence.
  - intros (? & ? & [= <-] & [= <-] & Hlt).
    destruct (Qle_bool b a) eqn:Hba; [|done].
    apply Qle_bool_iff in Hba. lra.
Qed.

(** X21.  Which files count as a world video, and what the check does
    when there is one: a video is a file whose name starts with [world.]
    and ends with one of the five extensions (the part from the last dot
    on); with such a file the check returns and leaves the files as they
    are.  The two files the check itself writes are no videos, so a
    recording it has completed still counts as one without video. *)
Theorem worldless_check_video_names (fs : gmap string C) :
  (∀ name, name ∈ videos fs ↔ is_Some (fs !! name) ∧ is_video_name name) ∧
  ((∃ name, is_Some (fs !! name) ∧ is_video_name name) →
   check fs = (Ok (), fs)) ∧
  (∀ fs', videos fs = [] → check fs = (Ok (), fs') → videos fs' = []).
Proof.
  split_and!.
  - apply existing_videos_spec.
  - intros (name & Hname). apply existing_videos_spec in Hname.
    unfold worldless_file_work. destruct (videos fs); [|done].
    by apply elem_of_nil in Hname.
  - intros fs' Hnone Hcheck. unfold worldless_file_work in Hcheck.
    rewrite Hnone in Hcheck.
    destruct (eye_loop _ _ _ _ _) as [[mn mx]|]; [|done].
    destruct (_ && _); [|done].
    destruct mn as [|a|], mx as [|b|]; try done.
    injection Hcheck as <-.
    apply elem_of_nil_inv. intros name. rewrite existing_videos_spec.
    intros [Hsome Hvideo].
    assert (name ∉ videos fs) as Hnot by (rewrite Hnone; apply not_elem_of_nil).
    apply Hnot, existing_videos_spec. split; [|done].
    destruct (decide (name = "world.fake"%string)) as [->|Hne1].
    { exfalso. apply is_video_name_splitext in Hvideo as [_ Hext].
      change ((splitext "world.fake").2) with ".fake"%string in Hext.
      unfold valid_ext in Hext. set_unfold in Hext.
      by destruct Hext as [?|[?|[?|[?|[?|[]]]]]]. }
    destruct (decide (name = "world_timestamps.npy"%string)) as [->|Hne2].
    { exfalso. apply is_video_name_splitext in Hvideo as [Hw _].
      by vm_compute in Hw. }
    by rewrite !lookup_insert_ne in Hsome.
Qed.


(** X23.  When the check fails.  Whatever the check raises, it has
    written nothing.  On a recording without video whose eye timestamp
    files all load, or fail with the two errors the loop catches, the
    check returns when some usable file starts before some usable file
    ends, and raises [AssertionError] when no two usable files do, so when
    no file is usable at all. *)
Theorem worldless_check_failure (fs : gmap string C) :
  (∀ e fs', check fs = (Raise e, fs') → fs' = fs) ∧
  (videos fs = [] →
   (∀ f c e, is_eye_name f → fs !! f = Some c → np_load c = Raise e →
             e = FileNotFoundError ∨ e = AssertionError) →
   ((∃ f g a b a' b', is_eye_name f ∧ is_eye_name g ∧
       used fs f = Some (a, b) ∧ used fs g = Some (a', b') ∧ (a < b')%Q) →
    ∃ fs', check fs = (Ok (), fs')) ∧
   ((∀ f g a b a' b', is_eye_name f → is_eye_name g →
       used fs f = Some (a, b) → used fs g = Some (a', b') → (b' <= a)%Q) →
    check fs = (Raise AssertionError, fs))).
Proof.
  split.
  - intros e fs' Hcheck. unfold worldless_file_work in Hcheck.
    destruct (videos fs); [|done].
    destruct (eye_loop _ _ _ _ _) as [[mn mx]|]; [|by injection Hcheck].
    destruct (_ && _); [|by injection Hcheck].
    destruct mn, mx; by injection Hcheck.
  - intros Hnone Hexc.
    destruct (eye_loop_returns fs (glob listdir fs "eye*_timestamps.npy")
                PosInf NegInf) as [[mn mx] Hloop].
    { intros f c e Hf. apply glob_eye_spec in Hf as [_ Hf]. by apply Hexc. }
    unfold worldless_file_work. rewrite Hnone, Hloop.
    pose proof (eye_loop_bounds _ _ _ _ Hloop) as Hb.
    pose proof (omap_usable_elem fs (glob listdir fs "eye*_timestamps.npy"))
      as Helem.
    assert (∀ f a b, used fs f = Some (a, b) → is_Some (fs !! f)) as Hsome.
    { intros f a b Hu. unfold usable in Hu. by destruct (fs !! f). }
    split.
    + intros (f & g & a & b & a' & b' & Hf & Hg & Hu & Hu' & Hlt).
      destruct (omap _ _) as [|u us].
      { exfalso. eapply not_elem_of_nil, (Helem a b). exists f.
        split; [|done]. apply glob_eye_spec. eauto. }
      destruct Hb as (mn' & mx' & -> & -> & _ & _ & Hall).
      assert (mn' < mx')%Q as Hlt'.
      { destruct (Hall f a b) as [? _]; [apply glob_eye_spec; eauto|done|].
        destruct (Hall g a' b') as [_ ?]; [apply glob_eye_spec; eauto|done|].
        lra. }
      assert (bound_lt NegInf (Finite mn') && bound_lt (Finite mn') (Finite mx')
              && bound_lt (Finite mx') PosInf = true) as ->
        by (apply bound_lt_chain; eauto).
      by eexists.
    + intros Hno.
      destruct (bound_lt NegInf mn && bound_lt mn mx && bound_lt mx PosInf)
        eqn:Hchain; [|done].
      exfalso. apply bound_lt_chain in Hchain as (a & b & -> & -> & Hlt).
      destruct (omap _ _) as [|u us]; [by destruct Hb|].
      destruct Hb as (a0 & b0 & [= <-] & [= <-] & (f & b1 & Hf & Hu)
                      & (g & a1 & Hg & Hu') & _).
      apply glob_eye_spec in Hf as [_ Hf]. apply glob_eye_spec in Hg as [_ Hg].
      pose proof (Hno f g _ _ _ _ Hf Hg Hu Hu'). lra.
Qed.
End worldless_facts.

(** *** The recordings below a dropped folder *)

Lemma fsnode_nested_ind (P : fsnode → Prop) :
  (∀ key_values, P (File key_values)) →
  (∀ entries, Forall (λ e, P e.2) entries → P (Dir entries)) →
  ∀ node, P node.
Proof.
  intros HF HD. fix IH 1. intros [key_values|entries]; [apply HF|].
  apply HD. induction entries as [|[name node] entries IHentries].
  - constructor.
  - constructor; [apply IH|apply IHentries].
Qed.

Lemma has_sep_prefix (s : string) :
  has_sep s = false → String.prefix "/" s = false.
Proof.
  destruct s as [|c s]; [done|]. simpl has_sep. intros H.
  apply orb_false_iff in H as [Hc _]. apply Ascii.eqb_neq in Hc.
  change (String.prefix "/" (String c s))
    with (if ascii_dec "/" c then String.prefix "" s else false).
  destruct (ascii_dec "/" c) as [Heq|Hne]; [by subst c|done].
Qed.

Lemma split_sep_no_sep (s : string) : has_sep s = false → split_sep s = [s].
Proof.
  induction s as [|c s IH]; simpl; [done|]. intros H.
  apply orb_false_iff in H as [-> Hs]. by rewrite (IH Hs).
Qed.

Lemma split_sep_nonempty (s : string) : split_sep s ≠ [].
Proof.
  destruct s as [|c s]; simpl; [done|].
  destruct (Ascii.eqb c "/"); [done|]. by destruct (split_sep s).
Qed.

Lemma split_sep_app (a b : string) :
  split_sep (a +:+ String "/" b) = split_sep a ++ split_sep b.
Proof.
  induction a as [|c a IH].
  - reflexivity.
  - rewrite string_app_cons. simpl. rewrite IH.
    destruct (Ascii.eqb c "/"); [done|].
    pose proof (split_sep_nonempty a). by destruct (split_sep a).
Qed.

Lemma list_last_app {A} (l l' : list A) (d : A) :
  l' ≠ [] → List.last (l ++ l') d = List.last l' d.
Proof.
  intros Hne. induction l as [|x l IH]; [done|].
  simpl. rewrite IH. destruct (l ++ l') eqn:E; [|done].
  apply app_eq_nil in E as [_ ?]. done.
Qed.

Lemma endswith_sep_app (a : string) :
  endswith_sep a = true → ∃ a', a = a' +:+ "/".
Proof.
  induction a as [|c a IH]; [done|]. simpl. destruct a as [|c' a].
  - intros Hc. apply Ascii.eqb_eq in Hc as ->. by exists ""%string.
  - intros H. destruct (IH H) as [a' ->]. by exists (String c a').
Qed.

Lemma string_app_assoc (a b c : string) : (a +:+ b) +:+ c = a +:+ (b +:+ c).
Proof.
  induction a as [|x a IH]; [done|]. rewrite !string_app_cons. by f_equal.
Qed.

(** [path.split(os.sep)[-1]] of a joined path is the name joined on. *)
Lemma last_split_path_join (path di : string) :
  has_sep di = false →
  List.last (split_sep (path_join path di)) EmptyString = di.
Proof.
  intros Hdi. unfold path_join. rewrite (has_sep_prefix _ Hdi).
  assert (∀ a, List.last (split_sep (a +:+ String "/" di)) EmptyString = di)
    as Hlast.
  { intros a. rewrite split_sep_app, list_last_app
      by apply split_sep_nonempty.
    by rewrite (split_sep_no_sep _ Hdi). }
  case_bool_decide as Hpath; simpl.
  - subst path. rewrite string_app_nil_l. by rewrite (split_sep_no_sep _ Hdi).
  - destruct (endswith_sep path) eqn:Hend.
    + apply endswith_sep_app in Hend as [a' ->].
      rewrite string_app_assoc. apply Hlast.
    + apply Hlast.
Qed.

Lemma entry_Some_elem {A} (entries : list (string * A)) name x :
  entry entries name = Some x → (name, x) ∈ entries.
Proof.
  induction entries as [|[n y] entries IH]; simpl; [done|].
  case_bool_decide as Hn.
  - intros [= ->]. subst n. by left.
  - intros H. right. by apply IH.
Qed.

Lemma entry_NoDup {A} (entries : list (string * A)) name x :
  NoDup entries.*1 → (name, x) ∈ entries → entry entries name = Some x.
Proof.
  induction entries as [|[n y] entries IH]; simpl.
  - intros _ H. by apply elem_of_nil in H.
  - intros Hnd Hin. apply NoDup_cons in Hnd as [Hn Hnd].
    apply elem_of_cons in Hin as [[= -> ->]|Hin].
    + by rewrite bool_decide_true.
    + rewrite bool_decide_false; [by apply IH|].
      intros ->. apply Hn. apply list_elem_of_fmap. by exists (name, x).
Qed.

(** The loop of [getTree], as a whole: the results of the visited entries
    in listing order. *)
Lemma getTree_loop_eq f path cur_di dirs text children recordings level :
  getTree_loop f path cur_di dirs (Item text children) recordings level
  = (Item (match visits f path dirs with [] => text | _ => cur_di end)
       (children ++
        ((λ e, setText (f (path_join path e.1) e.2).1.1 e.1)
           <$> visits f path dirs)),
     recordings ++
       mjoin ((λ e, (f (path_join path e.1) e.2).1.2) <$> visits f path dirs),
     level ++
       mjoin ((λ e, (λ lev, cur_di +:+ "_" +:+ lev)
                      <$> (f (path_join path e.1) e.2).2)
                <$> visits f path dirs)).
Proof.
  revert text children recordings level.
  induction dirs as [|[di node] dirs IH]; intros text children recordings level.
  - simpl. by rewrite !app_nil_r.
  - unfold visits. rewrite filter_cons. fold (visits f path dirs). simpl.
    destruct (String.prefix "." di) eqn:Hdot.
    + rewrite decide_False by (intros [? _]; done). apply IH.
    + destruct (f (path_join path di) node) as [[di_tree rec] lvl] eqn:Hf.
      simpl. case_bool_decide as Hrec.
      * rewrite decide_True by (split; [done|]; by destruct rec; simpl in *; [lia|]).
        rewrite IH. simpl. rewrite Hf. simpl.
        rewrite <- !(assoc_L (++)). simpl.
        by destruct (visits f path dirs).
      * rewrite decide_False; [apply IH|].
        intros [_ Hne]. destruct rec; [done|]. simpl in Hrec. lia.
Qed.

Lemma leaf_levels_children (children : list item) :
  (fix leaves (cs : list item) : list string :=
     match cs with
     | [] => []
     | c :: cs' => leaf_levels c ++ leaves cs'
     end) children
  = mjoin (leaf_levels <$> children).
Proof.
  induction children as [|c children IH]; [done|].
  rewrite fmap_cons. change (mjoin (leaf_levels c :: (leaf_levels <$> children)))
    with (leaf_levels c ++ mjoin (leaf_levels <$> children)).
  rewrite <- IH. reflexivity.
Qed.

Lemma leaf_levels_Item text children :
  leaf_levels (Item text children)
  = match children with
    | [] => [text]
    | _ => (λ lev, text +:+ "_" +:+ lev) <$> mjoin (leaf_levels <$> children)
    end.
Proof.
  destruct children as [|c cs]; [done|].
  rewrite <- leaf_levels_children. reflexivity.
Qed.

Lemma Forall2_mjoin {A B E} (R : A → B → Prop) (f : E → list A)
    (g : E → list B) (es : list E) :
  (∀ e, e ∈ es → Forall2 R (f e) (g e)) →
  Forall2 R (mjoin (f <$> es)) (mjoin (g <$> es)).
Proof.
  induction es as [|e es IH]; intros H; simpl; [constructor|].
  apply Forall2_app; [apply H; by left|]. apply IH. intros e' He'.
  apply H. by right.
Qed.

Lemma getTree_Dir path entries :
  getTree path (Dir entries)
  = let cur_di := List.last (split_sep path) EmptyString in
    if is_pupil_rec_dir (Some (Dir entries))
    then (Item cur_di [], [path], [cur_di])
    else getTree_loop getTree path cur_di entries (Item EmptyString []) [] [].
Proof. reflexivity. Qed.

Lemma topmost_recording_here path entries :
  is_pupil_rec_dir (Some (Dir entries)) = true →
  topmost_recording path (Dir entries) path
    (List.last (split_sep path) EmptyString).
Proof.
  intros Hrec. exists [], (Dir entries).
  split_and!; [done|done|done|done|constructor|]. simpl. lia.
Qed.

Lemma topmost_recording_below path entries di child rec lvl :
  is_pupil_rec_dir (Some (Dir entries)) = false →
  entry entries di = Some child →
  String.prefix "." di = false →
  has_sep di = false →
  topmost_recording (path_join path di) child rec lvl →
  topmost_recording path (Dir entries) rec
    (List.last (split_sep path) EmptyString +:+ "_" +:+ lvl).
Proof.
  intros Hnrec Hentry Hdot Hsep (names & d & -> & -> & Hres & Hd & Hnames & Habove).
  exists (di :: names), d. rewrite last_split_path_join by done.
  split_and!; [done|done| |done|by constructor|].
  - simpl. by rewrite Hentry.
  - intros [|k] above Hk; simpl.
    + by intros [= <-].
    + rewrite Hentry. apply Habove. simpl in Hk. lia.
Qed.

(** What [getTree] returns on a well-formed directory tree. *)
Lemma getTree_core (node : fsnode) :
  wf_node node → ∀ path,
  let '(tree, recordings, level) := getTree path node in
  Forall2 (topmost_recording path node) recordings level ∧
  match recordings with
  | [] => tree = Item EmptyString []
  | _ => (∃ children,
            tree = Item (List.last (split_sep path) EmptyString) children) ∧
         level = leaf_levels tree
  end.
Proof.
  induction node as [key_values|entries IH] using fsnode_nested_ind;
    intros Hwf path.
  - simpl. by split.
  - rewrite getTree_Dir. cbv zeta.
    destruct (is_pupil_rec_dir (Some (Dir entries))) eqn:Hrec.
    + split.
      * constructor; [|constructor]. by apply topmost_recording_here.
      * split; [by eexists|done].
    + rewrite getTree_loop_eq. rewrite !app_nil_l.
      inversion Hwf as [|entries' Hnd Hall]; subst entries'.
      set (cur_di := List.last (split_sep path) EmptyString).
      assert (∀ e, e ∈ visits getTree path entries →
                e ∈ entries ∧ String.prefix "." e.1 = false ∧
                (getTree (path_join path e.1) e.2).1.2 ≠ [] ∧
                has_sep e.1 = false ∧ wf_node e.2 ∧
                entry entries e.1 = Some e.2 ∧
                ∀ path', let '(tree, recordings, level) := getTree path' e.2 in
                  Forall2 (topmost_recording path' e.2) recordings level ∧
                  match recordings with
                  | [] => tree = Item EmptyString []
                  | _ => (∃ children,
                            tree = Item (List.last (split_sep path')
                                           EmptyString) children) ∧
                         level = leaf_levels tree
                  end) as Hvisit.
      { intros e He. apply list_elem_of_filter in He as [[Hdot Hne] Hin].
        rewrite Forall_forall in Hall, IH.
        destruct (Hall e Hin) as [Hsep Hwfe].
        split_and!; [done..| |by apply IH].
        destruct e as [di child]. by apply entry_NoDup. }
      split.
      * apply Forall2_mjoin. intros e He.
        destruct (Hvisit e He) as (Hin & Hdot & Hne & Hsep & Hwfe & Hentry & He').
        specialize (He' (path_join path e.1)).
        destruct (getTree (path_join path e.1) e.2) as [[t r] l]. simpl.
        destruct He' as [Hfa _]. apply Forall2_fmap_r.
        eapply Forall2_impl; [exact Hfa|]. intros rec lvl Htop.
        by eapply topmost_recording_below.
      * destruct (visits getTree path entries) as [|e vs] eqn:Hvs; [done|].
        assert (∀ e', e' ∈ e :: vs →
                  setText (getTree (path_join path e'.1) e'.2).1.1 e'.1
                  = (getTree (path_join path e'.1) e'.2).1.1 ∧
                  (getTree (path_join path e'.1) e'.2).2
                  = leaf_levels (getTree (path_join path e'.1) e'.2).1.1)
          as Htrees.
        { intros e' He'.
          destruct (Hvisit e' He') as (_ & _ & Hne & Hsep & _ & _ & He'').
          specialize (He'' (path_join path e'.1)).
          destruct (getTree (path_join path e'.1) e'.2) as [[t r] l].
          simpl in *. destruct He'' as [_ Ht]. destruct r as [|r0 r]; [done|].
          destruct Ht as [[children ->] ->].
          by rewrite last_split_path_join. }
        assert (mjoin ((λ e0, (getTree (path_join path e0.1) e0.2).1.2)
                         <$> e :: vs) ≠ []) as Hne.
        { destruct (Hvisit e) as (_ & _ & Hne & _); [by left|].
          simpl. by destruct ((getTree (path_join path e.1) e.2).1.2). }
        destruct (mjoin ((λ e0, (getTree (path_join path e0.1) e0.2).1.2)
                           <$> e :: vs)) as [|r0 rs]; [done|].
        split; [by eexists|].
        rewrite leaf_levels_Item.
        destruct ((λ e0, setText (getTree (path_join path e0.1) e0.2).1.1 e0.1)
                    <$> e :: vs) as [|c cs] eqn:Hcs; [done|].
        rewrite <- Hcs. clear Hcs Hne Hvs Hvisit.
        induction (e :: vs) as [|e' es IHes]; [done|].
        simpl. rewrite fmap_app. f_equal.
        -- destruct (Htrees e') as [-> ->]; [by left|]. done.
        -- apply IHes. intros e'' He''. apply Htrees. by right.
Qed.

(** X24.  Every recording [getTree] returns, with the level name at the
    same position, is a topmost recording: a directory that
    [is_pupil_rec_dir] accepts, reached from the dropped folder by names
    that do not start with a dot, through directories that are no
    recordings; its path is the dropped path joined with these names and
    its level name is the name of the dropped folder and these names,
    joined by [_].  The two lists have one length. *)
Theorem getTree_finds_topmost_recordings (path : string) (node : fsnode)
    tree recordings level :
  wf_node node →
  getTree path node = (tree, recordings, level) →
  length recordings = length level ∧
  Forall2 (topmost_recording path node) recordings level.
Proof.
  intros Hwf Hget. pose proof (getTree_core node Hwf path) as Hcore.
  rewrite Hget in Hcore. destruct Hcore as [Hfa _].
  split; [by eapply Forall2_length|done].
Qed.

(** X25.  [getTree] misses no topmost recording: a recording directory
    reached from the dropped folder by names that do not start with a dot,
    through directories that are no recordings, is among the recordings
    returned.  (A recording inside a recording, or below a hidden
    directory, is not reached this way.) *)
Theorem getTree_misses_no_recording (path : string) (node : fsnode)
    (names : list string) (rec_dir : fsnode) :
  resolve node names = Some rec_dir →
  is_pupil_rec_dir (Some rec_dir) = true →
  Forall (λ name, String.prefix "." name = false) names →
  (∀ k above, (k < length names)%nat →
     resolve node (take k names) = Some above →
     is_pupil_rec_dir (Some above) = false) →
  foldl path_join path names ∈ (getTree path node).1.2.
Proof.
  revert node path. induction names as [|di names IH];
    intros node path Hres Hrec Hnames Habove.
  - simpl in Hres. injection Hres as ->. simpl.
    destruct rec_dir as [key_values|entries]; [done|].
    rewrite getTree_Dir. cbv zeta. rewrite Hrec. simpl. by left.
  - assert (is_pupil_rec_dir (Some node) = false) as Hnode
      by (apply (Habove 0%nat); [simpl; lia|done]).
    simpl in Hres. destruct node as [key_values|entries]; [done|].
    destruct (entry entries di) as [child|] eqn:Hentry; [|done].
    apply Forall_cons in Hnames as [Hdot Hnames].
    assert (foldl path_join (path_join path di) names
            ∈ (getTree (path_join path di) child).1.2) as Hin.
    { apply IH; [done..|]. intros k above Hk Hk'.
      apply (Habove (S k)); [simpl; lia|]. simpl. by rewrite Hentry. }
    rewrite getTree_Dir. cbv zeta. rewrite Hnode, getTree_loop_eq. simpl.
    apply list_elem_of_join.
    exists ((getTree (path_join path di) child).1.2). split; [done|].
    apply list_elem_of_fmap. exists (di, child). split; [done|].
    apply list_elem_of_filter. split.
    + split; [done|]. simpl. intros Hnil. rewrite Hnil in Hin.
      by apply elem_of_nil in Hin.
    + by apply entry_Some_elem.
Qed.

(** X26.  The tree [getTree] returns shows the level names: when no
    recording is found the tree is an item without text and children and
    there is no level name; otherwise the root carries the name of the
    dropped folder and the level names are the texts from the root to each
    leaf, joined by [_], leaf by leaf in the order of the tree. *)
Theorem getTree_tree_shows_levels (path : string) (node : fsnode)
    tree recordings level :
  wf_node node →
  getTree path node = (tree, recordings, level) →
  match recordings with
  | [] => tree = Item EmptyString [] ∧ level = []
  | _ => (∃ children,
            tree = Item (List.last (split_sep path) EmptyString) children) ∧
         level = leaf_levels tree
  end.
Proof.
  intros Hwf Hget. pose proof (getTree_core node Hwf path) as Hcore.
  rewrite Hget in Hcore. destruct Hcore as [Hfa Htree].
  destruct recordings as [|r rs]; [|done].
  split; [done|]. by apply Forall2_nil_inv_l in Hfa.
Qed.

(** X27.  [is_pupil_rec_dir] accepts a directory exactly when its
    [info.csv] can be read or, without an [info.csv], its [user_info.csv]
    can: an [info.csv] that cannot be read (or is a directory) is not made
    up for by [user_info.csv].  On an accepted directory the
    [load_meta_info] of the migration returns the metadata found here and
    changes nothing.  A file, or a path where nothing is, is rejected. *)
Theorem is_pupil_rec_dir_reads_metadata (entries : list (string * fsnode)) :
  (is_pupil_rec_dir (Some (Dir entries)) = true ↔
     (∃ meta_info, entry entries "info.csv" = Some (File (Ok meta_info))) ∨
     (entry entries "info.csv" = None ∧
      ∃ meta_info, entry entries "user_info.csv" = Some (File (Ok meta_info)))) ∧
  (is_pupil_rec_dir (Some (Dir entries)) = true →
   ∀ calls,
     load_meta_info (mkWorld (recording_of entries) calls)
     = (load_meta_info_dir entries, mkWorld (recording_of entries) calls)) ∧
  (∀ key_values, is_pupil_rec_dir (Some (File key_values)) = false) ∧
  is_pupil_rec_dir None = false.
Proof.
  split_and!; [| |done|done].
  - unfold is_pupil_rec_dir, load_meta_info_dir.
    destruct (entry entries "info.csv") as [[[m|e]|sub]|] eqn:Hinfo.
    + rewrite bool_decide_true by done. rewrite Hinfo. split; [|done].
      intros _. left. by exists m.
    + rewrite bool_decide_true by done. rewrite Hinfo. split; [done|].
      intros [[m [=]]|[[=] _]].
    + rewrite bool_decide_true by done. rewrite Hinfo. split; [done|].
      intros [[m [=]]|[[=] _]].
    + rewrite bool_decide_false by (by intros [? ?]).
      destruct (entry entries "user_info.csv") as [[[m|e]|sub]|] eqn:Huser.
      * split; [|done]. intros _. right. split; [done|]. by exists m.
      * split; [done|]. intros [[m [=]]|[_ [m [=]]]].
      * split; [done|]. intros [[m [=]]|[_ [m [=]]]].
      * split; [done|]. intros [[m [=]]|[_ [m [=]]]].
  - unfold is_pupil_rec_dir, load_meta_info_dir, load_meta_info, recording_of.
    intros Hrec calls. unfold mbind, M_bind, get_rec. simpl.
    destruct (entry entries "info.csv") as [[[m|e]|sub]|] eqn:Hinfo.
    + rewrite bool_decide_true by done. by rewrite Hinfo.
    + rewrite bool_decide_true in Hrec by done. by rewrite Hinfo in Hrec.
    + rewrite bool_decide_true in Hrec by done. by rewrite Hinfo in Hrec.
    + rewrite bool_decide_false in Hrec |- * by (by intros [? ?]). simpl.
      by destruct (entry entries "user_info.csv") as [[[m|e]|sub]|].
Qed.

Lemma str_index_none (s : string) :
  has_char "_" s = false → str_index s "_" = Raise ValueError.
Proof.
  induction s as [|d s IH]; simpl; [done|]. intros H.
  apply orb_false_iff in H as [-> Hs]. by rewrite (IH Hs).
Qed.

Lemma str_index_app (a b : string) :
  has_char "_" a = false →
  str_index (a +:+ String "_" b) "_" = Ok (String.length a).
Proof.
  induction a as [|d a IH]; [done|]. rewrite string_app_cons. simpl.
  intros H. apply orb_false_iff in H as [-> Ha]. by rewrite (IH Ha).
Qed.

Lemma omit_first_level_app (a b : string) :
  has_char "_" a = false →
  omit_first_level (a +:+ "_" +:+ b) = Ok b.
Proof.
  intros Ha. unfold omit_first_level.
  change (a +:+ "_" +:+ b) with (a +:+ String "_" b).
  rewrite (str_index_app a b Ha). simpl. f_equal.
  assert (a +:+ String "_" b = (a +:+ "_") +:+ b) as ->
    by (by rewrite string_app_assoc).
  assert (String.length a + 1 = String.length (a +:+ "_"))%nat as ->
    by (rewrite string_length_app; simpl; lia).
  generalize (a +:+ "_"). intros s.
  rewrite (string_length_app s b).
  replace (String.length s + String.length b - String.length s)%nat
    with (String.length b) by lia.
  apply substring_app_r.
Qed.

Lemma level_name_app (a b : string) names :
  level_name (a +:+ b) names = a +:+ level_name b names.
Proof.
  destruct names as [|n ns]; simpl; [done|]. by rewrite string_app_assoc.
Qed.

(** X28.  The level name [clicked_export] uses with [Omit first level],
    on the level names of [getTree].  When the name of the dropped folder
    has no underscore, the level name of a recording below it loses that
    name, and for a dropped folder that is itself a recording the
    expression raises [ValueError], whether the exports are grouped or
    not.  When the name of the dropped folder has an underscore, only its
    part up to the first underscore is removed.  Without grouping and
    omitting, every recording is exported to its own [exports] directory
    under the same two file names. *)
Theorem clicked_export_omits_first_level (cur_di : string)
    (names : list string) (group : bool) (target_path rec : string) :
  (has_char "_" cur_di = false →
   export_names group true target_path rec (level_name cur_di names)
   = match names with
     | [] => Raise ValueError
     | name :: names' =>
         export_names group false target_path rec (level_name name names')
     end) ∧
  (∀ a b, cur_di = a +:+ "_" +:+ b → has_char "_" a = false →
     export_names group true target_path rec (level_name cur_di names)
     = export_names group false target_path rec (level_name b names)) ∧
  export_names false false target_path rec (level_name cur_di names)
  = Ok (path_join rec "exports", "pupil_positions.csv"%string,
        "annotations.csv"%string) ∧
  export_names true false target_path rec (level_name cur_di names)
  = Ok (target_path,
        "pupil_positions_" +:+ level_name cur_di names +:+ ".csv",
        "annotations_" +:+ level_name cur_di names +:+ ".csv").
Proof.
  split_and!; [| |done|done].
  - intros Hcur. unfold export_names. destruct names as [|n ns]; simpl.
    + unfold omit_first_level. by rewrite (str_index_none _ Hcur).
    + by rewrite (omit_first_level_app _ _ Hcur).
  - intros a b -> Ha. unfold export_names.
    rewrite level_name_app, level_name_app.
    by rewrite (omit_first_level_app _ _ Ha).
Qed.

(** *** The export of the pupil data of a recording *)

Lemma value_getitem_raises v i e :
  value_getitem v i = Raise e → e ≠ FileNotFoundError.
Proof.
  destruct v as [| |s|l|l|d]; simpl; try (by intros [= <-]).
  - destruct (String.get i s); [done|by intros [= <-]].
  - unfold getitem. destruct (l !! i); [done|by intros [= <-]].
  - unfold getitem. destruct (l !! i); [done|by intros [= <-]].
Qed.

(** A row has the columns of the header, and the loop body never raises
    the exception the generator catches. *)
Lemma yield_row_spec (timestamp : Q) (datum : value) :
  match yield_row timestamp datum with
  | Ok row =>
      length row = length csv_header ∧
      ∃ d, datum = VDict d ∧
           row !! 0%nat = d !! "id"%string ∧
           row !! 1%nat = Some (VNum timestamp) ∧
           row !! 2%nat = d !! "confidence"%string ∧
           row !! 3%nat = d !! "diameter"%string ∧
           row !! 4%nat = Some (default (VNum 0) (d !! "diameter_3d"%string)) ∧
           ∃ norm_pos, d !! "norm_pos"%string = Some norm_pos ∧
                       value_getitem norm_pos 0 = Ok (default VNone (row !! 5%nat)) ∧
                       value_getitem norm_pos 1 = Ok (default VNone (row !! 6%nat))
  | Raise e => e ≠ FileNotFoundError
  end.
Proof.
  unfold yield_row, extract_eyeid_diameters.
  destruct datum as [| | | | |d]; simpl; try done.
  unfold dict_getitem.
  destruct (d !! "id"%string) as [id|] eqn:Hid; simpl; [|done].
  destruct (d !! "confidence"%string) as [conf|] eqn:Hconf; simpl; [|done].
  destruct (d !! "diameter"%string) as [dia|] eqn:Hdia; simpl; [|done].
  destruct (d !! "norm_pos"%string) as [norm_pos|] eqn:Hpos; simpl; [|done].
  destruct (value_getitem norm_pos 0) as [x|e] eqn:Hx; simpl;
    [|exact (value_getitem_raises _ _ _ Hx)].
  destruct (value_getitem norm_pos 1) as [y|e] eqn:Hy; simpl;
    [|exact (value_getitem_raises _ _ _ Hy)].
  split; [done|]. exists d.
  split_and!; [done|done|done|done|done|done|]. by exists norm_pos.
Qed.

Lemma yield_rows_spec (pairs : list (Q * (string * value))) :
  let '(rows, e) := yield_rows pairs in
  Forall2 (λ p row, yield_row p.1 p.2.2 = Ok row)
    (take (length rows) pairs) rows ∧
  match e with
  | None => length rows = length pairs
  | Some e => e ≠ FileNotFoundError ∧
              ∃ p, pairs !! length rows = Some p ∧
                   yield_row p.1 p.2.2 = Raise e
  end.
Proof.
  induction pairs as [|[timestamp [topic payload]] pairs IH]; simpl.
  - split; [constructor|done].
  - pose proof (yield_row_spec timestamp payload) as Hrow.
    destruct (yield_row timestamp payload) as [row|e] eqn:Hyield.
    + destruct (yield_rows pairs) as [rows e]. destruct IH as [Hrows He].
      simpl. split; [by constructor|].
      destruct e as [e|]; [|by f_equal]. done.
    + simpl. split; [constructor|]. split; [done|]. by eexists.
Qed.

Section export_facts.
Context {C : Type}.
Variable np_load : C → result (list Q).
Variable read_pldata : C → list (string * value).
Variable csv_file : list (list value) → C.

#[local] Abbreviation export := (process_recording np_load read_pldata csv_file).
#[local] Abbreviation offline_ts recording :=
  (path_join (path_join recording "offline_data")
     "offline_pupil_timestamps.npy").


End export_facts.

(** *** The extra properties on concrete inputs *)

Local Open Scope string_scope.

Lemma enclosing_windows_tile_witness :
  (1 < length [0; 10; 20])%nat ∧
  ∃ lo hi hi',
    enclosing_window [0; 10; 20] 1 = Ok (lo, hi) ∧
    enclosing_window [0; 10; 20] 2 = Ok (hi, hi').
Proof.
  assert (1 < length [0; 10; 20])%nat as Hi by (simpl; lia).
  split; [exact Hi|].
  destruct (enclosing_windows_tile [0; 10; 20] 1 Hi)
    as (lo & hi & Hw & _ & _ & Hnext).
  destruct (Hnext ltac:(simpl; lia)) as [hi' Hw'].
  exists lo, hi, hi'. split; [exact Hw | exact Hw'].
Defined.

Lemma exact_window_clamps_end_witness :
  (1 < length [0; 10; 20])%nat ∧
  ∃ t0 t1, exact_window [0; 10; 20] (1, 7) = Ok (t0, t1) ∧
           [0; 10; 20] !! 1%nat = Some t0 ∧ [0; 10; 20] !! 2%nat = Some t1.
Proof.
  assert (1 < length [0; 10; 20])%nat as Hlo by (simpl; lia).
  split; [exact Hlo|].
  destruct (exact_window_clamps_end [0; 10; 20] 1 7 Hlo)
    as (t0 & t1 & Hw & H0 & H1 & _).
  exists t0, t1. split_and!; [exact Hw | exact H0 | exact H1].
Defined.


Lemma insert_then_by_ts_witness :
  let b := mkBisector ["a"; "c"] [1; 5] [0; 1]%nat in
  Bisector_inv b ∧
  by_ts (Mutable_Bisector_insert b 5 "new") 5 = Ok "new" ∧
  by_ts (Mutable_Bisector_insert b 5 "new") 1 = by_ts b 1.
Proof.
  intros b.
  assert (Bisector_inv b) as Hinv.
  { split; [reflexivity|]. repeat constructor; lia. }
  split; [exact Hinv|].
  destruct (insert_then_by_ts b 5 "new" Hinv) as [Hsame Hother].
  split; [exact Hsame|]. apply Hother. lia.
Defined.

Lemma init_dict_for_window_round_trip_witness :
  let b := mkBisector ["a"; "b"; "c"] [1; 3; 5] [0; 1; 2]%nat in
  Bisector_inv b ∧
  ∃ b', Bisector_init stable_argsort
          (dict_data (Bisector_init_dict_for_window b (2, 6)))
          (dict_data_ts (Bisector_init_dict_for_window b (2, 6))) = Ok b' ∧
        by_ts_window b' (2, 6) = data b'.
Proof.
  intros b.
  assert (Bisector_inv b) as Hinv.
  { split; [reflexivity|]. repeat constructor; lia. }
  split; [exact Hinv|].
  destruct (init_dict_for_window_round_trip stable_argsort stable_argsort_perm
              stable_argsort_sorted b 2 6 Hinv)
    as (b' & Hb' & _ & _ & _ & Hwin).
  exists b'. split; [exact Hb' | exact Hwin].
Defined.

Lemma Affiliator_init_stop_length_witness :
  Affiliator_init stable_argsort ["x"; "y"] [0; 10] [5] = Raise IndexError ∧
  ∃ af, Affiliator_init stable_argsort ["x"; "y"] [0; 10] [5; 15; 25] = Ok af ∧
        length (stop_ts af) = 2%nat.
Proof.
  destruct (Affiliator_init_stop_length stable_argsort stable_argsort_perm
              stable_argsort_sorted ["x"; "y"] [0; 10] [5])
    as (_ & Hshort & _).
  destruct (Affiliator_init_stop_length stable_argsort stable_argsort_perm
              stable_argsort_sorted ["x"; "y"] [0; 10] [5; 15; 25])
    as (_ & _ & Hlong).
  split; [apply Hshort; [reflexivity | simpl; lia]|].
  destruct (Hlong eq_refl ltac:(simpl; lia)) as (af & Haf & Hlen & _).
  exists af. split; [exact Haf | exact Hlen].
Defined.

Lemma Affiliator_init_dict_round_trip_witness :
  ∃ af, Affiliator_init stable_argsort ["x"; "y"; "z"] [0; 10; 20] [5; 15; 25]
        = Ok af ∧
    ∃ af', Affiliator_init stable_argsort
             (dict_af_data (Affiliator_init_dict_for_window af (4, 12)))
             (dict_start_ts (Affiliator_init_dict_for_window af (4, 12)))
             (dict_stop_ts (Affiliator_init_dict_for_window af (4, 12)))
           = Ok af'.
Proof.
  eexists. split; [reflexivity|].
  destruct (Affiliator_init_dict_round_trip stable_argsort stable_argsort_perm
              stable_argsort_sorted ["x"; "y"; "z"] [0; 10; 20] [5; 15; 25]
              _ 4 12 eq_refl) as (_ & _ & _ & _ & af' & Haf' & _).
  exists af'. exact Haf'.
Defined.

Lemma Bisector_container_protocol_witness :
  ∃ b, Bisector_init stable_argsort ["a"; "b"; "c"] [5; 1; 3] = Ok b ∧
       Bisector_len b = 3%nat ∧ Bisector_iter b ≡ₚ ["a"; "b"; "c"].
Proof.
  eexists. split; [reflexivity|].
  destruct (Bisector_container_protocol stable_argsort stable_argsort_perm
              stable_argsort_sorted ["a"; "b"; "c"] [5; 1; 3] _ eq_refl)
    as (Hlen & _ & Hiter & _).
  split; [exact Hlen | exact Hiter].
Defined.

Lemma correlate_data_last_bucket_empty_witness :
  let h := demo_heap [1; 6; 9; 14; 29; 35] [0; 10; 20; 30] in
  ∃ buckets, (correlate_data 1 2 h).1 = Ok buckets ∧
             ∀ bucket, last buckets = Some bucket → bucket = [].
Proof.
  destruct (correlate_data_last_bucket_empty
              (demo_heap [1; 6; 9; 14; 29; 35] [0; 10; 20; 30]) 1 2
              (events_of [1; 6; 9; 14; 29; 35]) [0; 10; 20; 30]
              eq_refl eq_refl) as (buckets & Hrun & Hlast & _).
  exists buckets. split; [exact Hrun | exact Hlast].
Defined.

Lemma correlate_data_buckets_prefix_witness :
  let h := demo_heap [35; 1; 9; 6; 29; 14] [0; 10; 20; 30] in
  ∃ buckets k, (correlate_data 1 2 h).1 = Ok buckets ∧
    concat buckets = take k (sort_by timestamp (events_of [35; 1; 9; 6; 29; 14])).
Proof.
  destruct (correlate_data_buckets_prefix
              (demo_heap [35; 1; 9; 6; 29; 14] [0; 10; 20; 30]) 1 2
              (events_of [35; 1; 9; 6; 29; 14]) [0; 10; 20; 30]
              eq_refl eq_refl) as (buckets & k & Hrun & _ & Hconcat & _).
  exists buckets, k. split; [exact Hrun | exact Hconcat].
Defined.

Lemma run_keeps_metadata_witness :
  let run := update_recording_to_recent read_rec_version_unbound
               demo_mobile_file_work demo_transform demo_mobile_world in
  user_info_csv (rec_dir run.2) = None ∧
  ∃ m, info_csv (rec_dir run.2) = Some m ∧
       ∀ k, k ≠ "Data Format Version" →
            m !! k = ({[ "Capture Software" := "Pupil Mobile" ]} : gmap string string) !! k.
Proof.
  exact (run_keeps_metadata read_rec_version_unbound demo_mobile_file_work
           demo_transform demo_mobile_world _ _ (surjective_pairing _)).
Defined.

Lemma run_early_failures_witness :
  update_recording_to_recent read_rec_version_unbound demo_file_work
    demo_transform (mkWorld (mkRecording None None ∅) [])
  = (Raise FileNotFoundError, mkWorld (mkRecording None None ∅) []) ∧
  update_recording_to_recent read_rec_version_unbound demo_file_work
    demo_transform
    (mkWorld (mkRecording None (Some {[ "Data Format Version" := "v1.9" ]})
                {[ "pupil_data" := "x" ]}) [])
  = (Raise NameError,
     mkWorld (mkRecording (Some {[ "Data Format Version" := "v1.9" ]})
                (Some {[ "Data Format Version" := "v1.9" ]})
                {[ "pupil_data" := "x" ]}) []).
Proof.
  split.
  - exact (proj1 (run_early_failures read_rec_version_unbound demo_file_work
                    demo_transform (mkWorld (mkRecording None None ∅) []))
             eq_refl eq_refl).
  - exact (proj2 (run_early_failures read_rec_version_unbound demo_file_work
                    demo_transform
                    (mkWorld (mkRecording None
                                (Some {[ "Data Format Version" := "v1.9" ]})
                                {[ "pupil_data" := "x" ]}) []))
             {[ "Data Format Version" := "v1.9" ]} NameError
             eq_refl eq_refl eq_refl).
Defined.

Lemma v082_to_v083_renames_base_witness :
  ∃ w', update_recording_v082_to_v083 (pupil_data_transform (λ _, None))
          demo_pupil_world = (Ok (), w') ∧
        info_csv (rec_dir w')
        = Some (<["Data Format Version" := "v0.8.3"]>
                  ({[ "Data Format Version" := "v0.8.2" ]} : gmap string string)).
Proof.
  pose proof (v082_to_v083_renames_base (λ _, None) demo_pupil_world
                demo_pupil_data {[ "Data Format Version" := "v0.8.2" ]}
                eq_refl eq_refl) as H.
  assert (demo_pupil_data !! "gaze_positions" = Some demo_gaze) as Hg
    by reflexivity.
  rewrite Hg in H. destruct H as (w' & pd' & gaze' & Hrun & _ & Hinfo & _).
  exists w'. split; [exact Hrun | exact Hinfo].
Defined.

Lemma v083_to_v086_tags_topics_witness :
  ∃ w' pd', update_recording_v083_to_v086 (pupil_data_transform (λ _, None))
              demo_pupil_world = (Ok (), w') ∧
            pupil_data_transform (λ _, None) v083_to_v086 pd' = Ok pd'.
Proof.
  destruct (v083_to_v086_tags_topics (λ _, None) demo_pupil_world
              demo_pupil_data {[ "Data Format Version" := "v0.8.2" ]}
              eq_refl eq_refl) as (w' & pd' & Hrun & _ & _ & _ & Hidem).
  exists w', pd'. split; [exact Hrun | exact Hidem].
Defined.

Lemma v086_to_v087_clamps_norm_pos_witness :
  ∃ w' gaze',
    update_recording_v086_to_v087 (pupil_data_transform (λ _, None))
      demo_pupil_world = (Ok (), w') ∧
    files (rec_dir w') !! "pupil_data"
    = Some (<["gaze_positions" := gaze']> demo_pupil_data).
Proof.
  pose proof (v086_to_v087_clamps_norm_pos (λ _, None) demo_pupil_world
                demo_pupil_data {[ "Data Format Version" := "v0.8.2" ]}
                eq_refl eq_refl) as H.
  assert (demo_pupil_data !! "gaze_positions" = Some demo_gaze) as Hg
    by reflexivity.
  simpl in H. rewrite Hg in H. destruct H as [Hok _].
  assert ((update_recording_v086_to_v087 (pupil_data_transform (λ _, None))
             demo_pupil_world).1 = Ok ()) as Hfst by (vm_compute; reflexivity).
  destruct (update_recording_v086_to_v087 (pupil_data_transform (λ _, None))
              demo_pupil_world) as [r w'] eqn:Hrun.
  simpl in Hfst. subst r.
  destruct (Hok w' eq_refl) as (gaze' & Hw' & _).
  exists w', gaze'. split; [reflexivity|]. rewrite Hw'. simpl.
  apply lookup_insert_eq.
Defined.

Lemma worldless_check_video_names_witness :
  demo_worldless {[ "world.mp4" := ObjectFile VNone ]}
  = (Ok (), {[ "world.mp4" := ObjectFile VNone ]}).
Proof.
  apply (worldless_check_video_names listdir_keys demo_np_load NpyFile
           ObjectFile (@listdir_keys_spec demo_content)).
  exists "world.mp4". split; [by eexists|]. split.
  - by exists "mp4".
  - exists "world", ".mp4". split; [|done]. unfold valid_ext. by left.
Defined.


Lemma worldless_check_failure_witness :
  demo_worldless {[ "eye0_timestamps.npy" := NpyFile [1%Q] ]}
  = (Raise AssertionError, {[ "eye0_timestamps.npy" := NpyFile [1%Q] ]}).
Proof.
  apply (worldless_check_failure listdir_keys demo_np_load NpyFile
           ObjectFile (@listdir_keys_spec demo_content)).
  - reflexivity.
  - intros f c e _ Hc. apply lookup_singleton_Some in Hc as [_ <-]. done.
  - intros f g a b a' b' _ _ Hu _. exfalso. unfold usable in Hu.
    destruct (_ !! f) as [c|] eqn:Hc; [|done].
    apply lookup_singleton_Some in Hc as [_ <-]. done.
Defined.

Ltac solve_wf_node :=
  repeat match goal with
    | |- wf_node (File _) => apply wf_File
    | |- wf_node (Dir _) =>
        apply wf_Dir; [apply (bool_decide_unpack _); by vm_compute|]
    | |- Forall _ [] => apply List.Forall_nil
    | |- Forall _ (_ :: _) => apply List.Forall_cons
    | |- _ ∧ _ => split
    | |- has_sep _ = false => reflexivity
    | |- _ => progress simpl
    end.

Lemma demo_folder_wf : wf_node demo_folder.
Proof. unfold demo_folder, demo_recording. solve_wf_node. Qed.

Lemma getTree_finds_topmost_recordings_witness :
  length ["/data/a/r1"; "/data/b/r3"] = length ["data_a_r1"; "data_b_r3"] ∧
  Forall2 (topmost_recording "/data" demo_folder)
    ["/data/a/r1"; "/data/b/r3"] ["data_a_r1"; "data_b_r3"].
Proof.
  eapply (getTree_finds_topmost_recordings "/data" demo_folder).
  - exact demo_folder_wf.
  - vm_compute. reflexivity.
Defined.

Lemma getTree_misses_no_recording_witness :
  "/data/b/r3" ∈ (getTree "/data" demo_folder).1.2.
Proof.
  apply (getTree_misses_no_recording "/data" demo_folder ["b"; "r3"]
           (demo_recording [])).
  - reflexivity.
  - reflexivity.
  - repeat constructor.
  - intros [|[|k]] above Hk; simpl in *; [intros [= <-]; reflexivity..|lia].
Defined.

Lemma getTree_tree_shows_levels_witness :
  ∃ tree,
    (getTree "/data" demo_folder).1.1 = tree ∧
    ["data_a_r1"; "data_b_r3"] = leaf_levels tree.
Proof.
  eexists. split; [reflexivity|].
  eapply (getTree_tree_shows_levels "/data" demo_folder _
            ["/data/a/r1"; "/data/b/r3"]).
  - exact demo_folder_wf.
  - vm_compute. reflexivity.
Defined.


Local Close Scope string_scope.
